(** * The regex-specification parser of al-farahidi (src/regex.c)

    A shallow embedding of the line-oriented parser that turns lines of the
    form [$Name := operand (op operand)*] into three tables: the
    non-terminal table, the expression pool and the terminal pool.

    The C globals become the fields of [State], threaded explicitly.  A
    [char *] into the line buffer is an index into the buffer, a pointer
    into one of the static pools is an index into that pool.  [exit(1)],
    a failed [assert] and a store outside an array are the three ways a
    run can stop early; they are the non-[Ok] cases of [Result]. *)

From Stdlib Require Import Ascii String List ZArith Arith Bool Lia.
Import ListNotations.

(** ** Characters and the line buffer *)

Abbreviation char := ascii (only parsing).

Definition NUL : char := "000"%char.
Definition NEWLINE : char := "010"%char.

Definition chars (s : string) : list char := list_ascii_of_string s.

(** [isspace] of <ctype.h> in the C locale: space, and the five controls
    from horizontal tab (9) to carriage return (13). *)
Definition isspace (ch : char) : bool :=
  let n := nat_of_ascii ch in
  (n =? 32) || ((9 <=? n) && (n <=? 13)).

(** [*p] for a pointer [p] into the line buffer.  The buffer always ends
    with the terminator written by [fgets]; past the bytes known to have
    been written the model reads a terminator as well. *)
Definition peek (buf : list char) (p : nat) : char := nth p buf NUL.

(** Length of the longest prefix of [l] whose characters all satisfy [p]:
    the number of times [while (p( *ptr)) ++ptr;] advances. *)
Fixpoint run_length (p : char -> bool) (l : list char) : nat :=
  match l with
  | [] => 0
  | ch :: l' => if p ch then S (run_length p l') else 0
  end.

(** ** Tables (include/regex.h is not part of the sources; the field names
    are the ones regex.c uses)

    A name is kept as the list of its bytes before the terminator.  The
    size of the [name] array of a record is declared in that header; it
    is bounded where the code writes a name ([name_store] below). *)

Abbreviation PoolOffset := Z (only parsing).

Inductive OperandType := NOTHING | NESTED_EXPRESSION | NON_TERMINAL | TERMINAL.
Inductive OperatorType := NO_OP | OR | AND | ZERO_OR_MORE.

Definition OperandType_eqb (a b : OperandType) : bool :=
  match a, b with
  | NOTHING, NOTHING | NESTED_EXPRESSION, NESTED_EXPRESSION
  | NON_TERMINAL, NON_TERMINAL | TERMINAL, TERMINAL => true
  | _, _ => false
  end.

Definition OperatorType_eqb (a b : OperatorType) : bool :=
  match a, b with
  | NO_OP, NO_OP | OR, OR | AND, AND | ZERO_OR_MORE, ZERO_OR_MORE => true
  | _, _ => false
  end.

Record NonTerminal := mkNonTerminal {
  name : list char;      (* the bytes before the terminator *)
  idx : Z;
  expr : PoolOffset;
  complete : bool
}.

Record Expression := mkExpression {
  type : OperatorType;
  op1 : PoolOffset;
  op1Type : OperandType;
  op2 : PoolOffset;
  op2Type : OperandType
}.

(** The constants of include/regex.h, taken as parameters.  The last two
    fields say which enumerator has the value 0, that is, what a slot of a
    zero-initialised static array holds before it is written. *)
Record Config := mkConfig {
  MAX_NONTERMS : nat;
  MAX_TOTAL_TERM_LEN : nat;
  MAX_NESTED_EXPRS : nat;
  MAX_REGEX_LEN : nat;
  MAX_NONTERM_NAME : nat;
  OPERATOR_ZERO : OperatorType;
  OPERAND_ZERO : OperandType
}.

(** A static array is a total function from indices; the bound of the C
    array is checked where the array is written ([store_*] below). *)
Abbreviation array T := (nat -> T) (only parsing).

Definition aset {T : Type} (a : array T) (i : nat) (v : T) : array T :=
  fun j => if j =? i then v else a j.

(** ** Ways a run stops *)

(** The [fatal_error] calls, named after their messages. *)
Inductive FatalError :=
| MalformedLine            (* "Malformed regex spec line. Each line must specify a non-terminal" *)
| EmptyName                (* "Empty non-terminal name" *)
| MissingDefinition        (* "Missing definition of a non-termianl" *)
| Redefinition             (* "Re-definition of a non-terminal: %s" *)
| OperatorWithoutOperand   (* "An operator without an operand" *)
| IncompleteEscape.        (* "An incomplete escape sequence at the end of a string" *)

(** The [assert]s, named after their messages. *)
Inductive Assertion :=
| NameTooLong              (* "Non-terminal name is too long!" *)
| TooManyNonterms          (* "Exceeded maximum number of non-terminals!" *)
| ExprPoolOutOfMemory      (* "Expression pool is out of memory!" *)
| TermPoolOutOfMemory      (* "Terminal pool is out of memory!" *)
| LastNotNoOp.             (* "Last expression should be a no op" *)

(** Behaviour C leaves undefined: a store past the end of an array, a read
    of a byte of the line buffer nothing has written yet. *)
Inductive Fault :=
| StoreOutsideNonterms (i : nat)
| StoreOutsideTermPool (i : nat)
| StoreOutsideExprPool (i : nat)
| StoreOutsideNameBuffer (i : nat)
| StoreOutsideName (i : nat) (n : nat)
| ReadOutsideLine (i : nat).

Inductive Result (A : Type) : Type :=
| Ok (a : A)
| Fatal (line column : nat) (e : FatalError)   (* message on stderr, exit(1) *)
| AssertionFailed (a : Assertion)              (* abort() *)
| Undefined (f : Fault)
| OutOfFuel.

Arguments Ok {A} a.
Arguments Fatal {A} line column e.
Arguments AssertionFailed {A} a.
Arguments Undefined {A} f.
Arguments OutOfFuel {A}.

Definition bind {A B : Type} (r : Result A) (k : A -> Result B) : Result B :=
  match r with
  | Ok a => k a
  | Fatal l c e => Fatal l c e
  | AssertionFailed a => AssertionFailed a
  | Undefined f => Undefined f
  | OutOfFuel => OutOfFuel
  end.

Definition fmap {A B : Type} (f : A -> B) (r : Result A) : Result B :=
  bind r (fun a => Ok (f a)).

Declare Scope result_scope.
Delimit Scope result_scope with result.
Notation "x <- r ;; k" := (bind r (fun x => k))
  (at level 61, r at next level, right associativity) : result_scope.
Notation "' p <- r ;; k" := (bind r (fun x => let 'p := x in k))
  (at level 61, p pattern, r at next level, right associativity) : result_scope.
Notation "r ;;; k" := (bind r (fun _ => k))
  (at level 61, right associativity) : result_scope.
Local Open Scope result_scope.

Definition assert (b : bool) (a : Assertion) : Result unit :=
  if b then Ok tt else AssertionFailed a.

(** ** The globals of regex.c *)

Record State := mkState {
  nonterms : array NonTerminal;
  termPool : array char;
  currentTermStart : nat;          (* as an offset into termPool *)
  exprPool : array Expression;
  freeExprIdx : nat;
  currentLine : nat;
  currentColumn : nat;
  currentNonterm : nat;
  warnings : list (nat * nat)      (* line:column of each warning written to stderr, latest first *)
}.

Definition zeroNonTerminal : NonTerminal :=
  {| name := []; idx := 0%Z; expr := 0%Z; complete := false |}.

Definition zeroExpression (cfg : Config) : Expression :=
  {| type := OPERATOR_ZERO cfg; op1 := 0%Z; op1Type := OPERAND_ZERO cfg;
     op2 := 0%Z; op2Type := OPERAND_ZERO cfg |}.

(** [e->type = t; e->op1 = v; e->op1Type = vt;] *)
Definition set_op1 (t : OperatorType) (v : PoolOffset) (vt : OperandType)
  (e : Expression) : Expression :=
  {| type := t; op1 := v; op1Type := vt; op2 := op2 e; op2Type := op2Type e |}.

(** [e->op2 = v; e->op2Type = vt;] *)
Definition set_op2 (v : PoolOffset) (vt : OperandType) (e : Expression) : Expression :=
  {| type := type e; op1 := op1 e; op1Type := op1Type e; op2 := v; op2Type := vt |}.

Definition initial (cfg : Config) : State :=
  {| nonterms := fun _ => zeroNonTerminal;
     termPool := fun _ => NUL;
     currentTermStart := 0;
     exprPool := fun _ => zeroExpression cfg;
     freeExprIdx := 0;
     currentLine := 0;
     currentColumn := 0;
     currentNonterm := 0;
     warnings := [] |}.

Definition with_nonterms (v : array NonTerminal) (s : State) : State :=
  mkState v (termPool s) (currentTermStart s) (exprPool s) (freeExprIdx s)
          (currentLine s) (currentColumn s) (currentNonterm s) (warnings s).
Definition with_termPool (v : array char) (s : State) : State :=
  mkState (nonterms s) v (currentTermStart s) (exprPool s) (freeExprIdx s)
          (currentLine s) (currentColumn s) (currentNonterm s) (warnings s).
Definition with_currentTermStart (v : nat) (s : State) : State :=
  mkState (nonterms s) (termPool s) v (exprPool s) (freeExprIdx s)
          (currentLine s) (currentColumn s) (currentNonterm s) (warnings s).
Definition with_exprPool (v : array Expression) (s : State) : State :=
  mkState (nonterms s) (termPool s) (currentTermStart s) v (freeExprIdx s)
          (currentLine s) (currentColumn s) (currentNonterm s) (warnings s).
Definition with_freeExprIdx (v : nat) (s : State) : State :=
  mkState (nonterms s) (termPool s) (currentTermStart s) (exprPool s) v
          (currentLine s) (currentColumn s) (currentNonterm s) (warnings s).
Definition with_currentLine (v : nat) (s : State) : State :=
  mkState (nonterms s) (termPool s) (currentTermStart s) (exprPool s) (freeExprIdx s)
          v (currentColumn s) (currentNonterm s) (warnings s).
Definition with_currentColumn (v : nat) (s : State) : State :=
  mkState (nonterms s) (termPool s) (currentTermStart s) (exprPool s) (freeExprIdx s)
          (currentLine s) v (currentNonterm s) (warnings s).
Definition with_currentNonterm (v : nat) (s : State) : State :=
  mkState (nonterms s) (termPool s) (currentTermStart s) (exprPool s) (freeExprIdx s)
          (currentLine s) (currentColumn s) v (warnings s).
Definition with_warnings (v : list (nat * nat)) (s : State) : State :=
  mkState (nonterms s) (termPool s) (currentTermStart s) (exprPool s) (freeExprIdx s)
          (currentLine s) (currentColumn s) (currentNonterm s) v.

(** [fatal_error(msg)]: the message is prefixed with the current position. *)
Definition fatal_error {A : Type} (s : State) (e : FatalError) : Result A :=
  Fatal (currentLine s) (currentColumn s) e.

(** [warning(msg)]: the same prefix, and the run goes on. *)
Definition warning (s : State) : State :=
  with_warnings ((currentLine s, currentColumn s) :: warnings s) s.

(** ** Cursor movement *)

(** The macro [moveRegexPtr(regex)], that is [((++currentColumn), (++regex))]. *)
Definition moveRegexPtr (s : State) (regex : nat) : State * nat :=
  (with_currentColumn (S (currentColumn s)) s, S regex).

(** [while (p( *regex)) { moveRegexPtr(regex); }].  Every [p] used below is
    false on the terminator, so the loop stops inside the buffer. *)
Definition move_while (p : char -> bool) (buf : list char) (s : State) (regex : nat)
  : State * nat :=
  let n := run_length p (skipn regex buf) in
  (with_currentColumn (currentColumn s + n) s, regex + n).

(** [isspace(c) && c != '\n'] *)
Definition blank (ch : char) : bool := isspace ch && negb (ch =? NEWLINE)%char.

(** [c != '\0' && !isspace(c)] *)
Definition wordchar (ch : char) : bool := negb (ch =? NUL)%char && negb (isspace ch).

(** The [n] bytes of the buffer from [start] on. *)
Definition bytes_at (buf : list char) (start n : nat) : list char :=
  firstn n (skipn start buf).

(** ** Checked stores into the static arrays *)

(** [store_nonterm] bounds the index of the record.  The bytes of a name
    are bounded by [name_store], at the two places that write a name,
    before the record is stored. *)
Definition store_nonterm (cfg : Config) (i : nat) (f : NonTerminal -> NonTerminal)
  (s : State) : Result State :=
  if i <? MAX_NONTERMS cfg
  then Ok (with_nonterms (aset (nonterms s) i (f (nonterms s i))) s)
  else Undefined (StoreOutsideNonterms i).

Definition store_expr (cfg : Config) (i : nat) (f : Expression -> Expression)
  (s : State) : Result State :=
  if i <? MAX_NESTED_EXPRS cfg
  then Ok (with_exprPool (aset (exprPool s) i (f (exprPool s i))) s)
  else Undefined (StoreOutsideExprPool i).

Definition store_term (cfg : Config) (i : nat) (ch : char) (s : State) : Result State :=
  if i <? MAX_TOTAL_TERM_LEN cfg
  then Ok (with_termPool (aset (termPool s) i ch) s)
  else Undefined (StoreOutsideTermPool i).

(** Modelled from the spec: the declaration of the [name] array of a
    record is in include/regex.h, which is not among the sources.  The
    spec has a name as a bounded string whose bound is the configured
    maximal name length; regex.c has one such constant, MAX_NONTERM_NAME,
    the size of the buffer from which parse_header copies a name with
    [strcpy].  The array is taken to have that size.

    A name of [n] bytes and its terminator written to [nonterms[i].name]:
    the terminator goes to [name[n]]. *)
Definition name_store (cfg : Config) (i n : nat) : Result unit :=
  if n <? MAX_NONTERM_NAME cfg then Ok tt else Undefined (StoreOutsideName i n).

(** A read of the line buffer that may run past what has been written. *)
Definition load (buf : list char) (p : nat) : Result char :=
  if p <? length buf then Ok (peek buf p) else Undefined (ReadOutsideLine p).

(** ** parse_header *)

Fixpoint list_eqb (a b : list char) : bool :=
  match a, b with
  | [], [] => true
  | x :: a', y :: b' => (x =? y)%char && list_eqb a' b'
  | _, _ => false
  end.

(** [strcmp(a, b) == 0] for two strings given by their bytes before the
    terminator. *)
Definition strcmp_eq (a b : list char) : bool := list_eqb a b.

(** The loop [for (i = 0; i < currentNonterm; i++)] of parse_header, from
    index [i] with [n] entries left: the first entry with this name, a
    fatal error if that entry is complete. *)
Fixpoint find_declared (s : State) (nontermName : list char) (i n : nat)
  : Result (option nat) :=
  match n with
  | 0 => Ok None
  | S n' =>
      if strcmp_eq nontermName (name (nonterms s i)) then
        if complete (nonterms s i) then fatal_error s Redefinition
        else Ok (Some i)
      else find_declared s nontermName (S i) n'
  end.

Definition parse_header (cfg : Config) (buf : list char) (regex : nat) (s : State)
  : Result (nat * nat * State) :=
  if negb (peek buf regex =? "$")%char then fatal_error s MalformedLine else
  let nontermNameStart := regex in
  let '(s, regex) := moveRegexPtr s regex in
  let '(s, regex) := move_while wordchar buf s regex in
  if regex =? nontermNameStart + 1 then fatal_error s EmptyName else
  if (peek buf regex =? NUL)%char || (peek buf regex =? NEWLINE)%char
  then fatal_error s MissingDefinition else
  let nontermNameSize := regex - nontermNameStart in
  assert (nontermNameSize <=? MAX_NONTERM_NAME cfg) NameTooLong ;;;
  (* char nontermName[MAX_NONTERM_NAME]; ...; nontermName[nontermNameSize] = 0 *)
  (if nontermNameSize <? MAX_NONTERM_NAME cfg then Ok tt
   else Undefined (StoreOutsideNameBuffer nontermNameSize)) ;;;
  let nontermName := bytes_at buf nontermNameStart nontermNameSize in
  found <- find_declared s nontermName 0 (currentNonterm s) ;;
  '(nontermIdx, s) <-
    match found with
    | Some i => Ok (i, s)
    | None =>
        let nontermIdx := currentNonterm s in
        let s := with_currentNonterm (S (currentNonterm s)) s in
        assert (currentNonterm s <? MAX_NONTERMS cfg) TooManyNonterms ;;;
        Ok (nontermIdx, s)
    end ;;
  (* strcpy(nonterms[nontermIdx].name, nontermName) *)
  name_store cfg nontermIdx nontermNameSize ;;;
  s <- store_nonterm cfg nontermIdx
         (fun nt => {| name := nontermName; idx := Z.of_nat nontermIdx;
                       expr := expr nt; complete := complete nt |}) s ;;
  let '(s, regex) := move_while isspace buf s regex in
  if negb (peek buf regex =? ":")%char then fatal_error s MissingDefinition else
  let '(s, regex) := moveRegexPtr s regex in
  if negb (peek buf regex =? "=")%char then fatal_error s MissingDefinition else
  let '(s, regex) := moveRegexPtr s regex in
  let '(s, regex) := move_while blank buf s regex in
  if (peek buf regex =? NUL)%char || (peek buf regex =? NEWLINE)%char
  then fatal_error s MissingDefinition else
  Ok (nontermIdx, regex, s).

(** ** parse_operator *)

Definition parse_operator (buf : list char) (regex : nat) (s : State)
  : OperatorType * nat * State :=
  let '(s, regex) := move_while blank buf s regex in
  if (peek buf regex =? NEWLINE)%char || (peek buf regex =? NUL)%char
  then (NO_OP, regex, s)
  else if (peek buf regex =? "|")%char
  then let '(s, regex) := moveRegexPtr s regex in (OR, regex, s)
  else if (peek buf regex =? "*")%char
  then let '(s, regex) := moveRegexPtr s regex in (ZERO_OR_MORE, regex, s)
  else (AND, regex, s).

(** ** memcpy2 *)

(** [strchr(str, ch)] as an offset: the terminator of [str] is part of the
    string, so looking for the terminator finds it at [length str]. *)
Fixpoint strchr (str : list char) (ch : char) : option nat :=
  match str with
  | [] => if (ch =? NUL)%char then Some 0 else None
  | x :: str' => if (x =? ch)%char then Some 0 else option_map S (strchr str' ch)
  end.

(** The loop [while (--numBytes >= 0)]: the argument counts the iterations
    left, and inside an iteration [numBytes] is already decremented.  [dest]
    is an offset into termPool (the only destination regex.c passes), [src]
    an index into the line buffer.  The replacement character [c] is
    computed and then not used: the byte stored is [*src]. *)
Fixpoint memcpy2_loop (cfg : Config) (buf : list char) (escapeChar : char)
  (toEscape toPut : list char) (numBytes dest src copied : nat) (s : State)
  : Result (nat * State) :=
  match numBytes with
  | 0 => Ok (copied, s)
  | S numBytes =>
      ch <- load buf src ;;
      if (ch =? escapeChar)%char then
        if numBytes <=? 0 then fatal_error s IncompleteEscape else
        let src := S src in
        ch <- load buf src ;;
        let pos := strchr toEscape ch in
        let '(s, c) :=
          match pos with
          | None => (warning s, ch)
          | Some k => (s, nth k toPut NUL)
          end in
        let copied := copied - 1 in
        s <- store_term cfg dest ch s ;;
        memcpy2_loop cfg buf escapeChar toEscape toPut numBytes (S dest) (S src) copied s
      else
        s <- store_term cfg dest ch s ;;
        memcpy2_loop cfg buf escapeChar toEscape toPut numBytes (S dest) (S src) copied s
  end.

Definition memcpy2 (cfg : Config) (buf : list char) (dest src numBytes : nat)
  (escapeChar : char) (toEscape toPut : list char) (s : State) : Result (nat * State) :=
  let copied := numBytes in
  memcpy2_loop cfg buf escapeChar toEscape toPut numBytes dest src copied s.

(** ** parse_operand *)

(** [memcmp(nonterms[i].name, operandStart, operandNameSize) == 0].  The
    name array is zero beyond the stored name. *)
Definition memcmp_eq (nm : list char) (buf : list char) (operandStart n : nat) : bool :=
  forallb (fun j => (nth j nm NUL =? peek buf (operandStart + j))%char) (seq 0 n).

(** The loop [for (i = 0; i < currentNonterm; i++)] of parse_operand, from
    index [i] with [n] entries left. *)
Fixpoint find_referenced (s : State) (buf : list char) (operandStart operandNameSize : nat)
  (i n : nat) : option nat :=
  match n with
  | 0 => None
  | S n' =>
      if memcmp_eq (name (nonterms s i)) buf operandStart operandNameSize
      then Some i
      else find_referenced s buf operandStart operandNameSize (S i) n'
  end.

Definition parse_operand (cfg : Config) (buf : list char) (regex : nat)
  (res : PoolOffset) (s : State) : Result (OperandType * PoolOffset * nat * State) :=
  let '(s, regex) := move_while blank buf s regex in
  if (peek buf regex =? NUL)%char || (peek buf regex =? NEWLINE)%char
  then Ok (NOTHING, res, regex, s) else
  if (peek buf regex =? "|")%char || (peek buf regex =? "*")%char
  then fatal_error s OperatorWithoutOperand else
  let operandStart := regex in
  let '(s, regex) := move_while wordchar buf s regex in
  let '(s, regex) :=
    if (peek buf (regex - 1) =? "*")%char && negb (peek buf (regex - 2) =? "@")%char
    then (with_currentColumn (currentColumn s - 1) s, regex - 1)
    else (s, regex) in
  let operandNameSize := regex - operandStart in
  if (peek buf operandStart =? "$")%char then
    if operandNameSize =? 1 then fatal_error s EmptyName else
    match find_referenced s buf operandStart operandNameSize 0 (currentNonterm s) with
    | Some opIdx => Ok (NON_TERMINAL, Z.of_nat opIdx, regex, s)
    | None =>
        let opIdx := currentNonterm s in
        let s := with_currentNonterm (S (currentNonterm s)) s in
        assert (currentNonterm s <? MAX_NONTERMS cfg) TooManyNonterms ;;;
        (* memcpy(nonterms[opIdx].name, operandStart, operandNameSize);
           nonterms[opIdx].name[operandNameSize] = 0 *)
        name_store cfg opIdx operandNameSize ;;;
        s <- store_nonterm cfg opIdx
               (fun nt => {| name := bytes_at buf operandStart operandNameSize;
                             idx := Z.of_nat opIdx;
                             expr := expr nt; complete := false |}) s ;;
        Ok (NON_TERMINAL, Z.of_nat opIdx, regex, s)
    end
  else
    assert (currentTermStart s + operandNameSize <=? MAX_TOTAL_TERM_LEN cfg)
           TermPoolOutOfMemory ;;;
    '(size, s) <- memcpy2 cfg buf (currentTermStart s) operandStart operandNameSize
                    "@"%char (chars "_@|*$") (chars " @|*$") s ;;
    s <- store_term cfg (currentTermStart s + size) NUL s ;;
    let s := with_currentTermStart (currentTermStart s + (operandNameSize + 1)) s in
    Ok (TERMINAL, Z.of_nat (currentTermStart s - (operandNameSize + 1)), regex, s).

(** ** parse_body *)

(** The [while] loop of parse_body.  [currentExpr] and [prevExpr] are the
    two node pointers, as indices into exprPool; [currentExprIdx] is the
    separate index variable of the C code, which the star branch leaves
    behind [currentExpr] until the end of the iteration.  Every iteration
    consumes at least one character of the line, so a fuel of one more than
    the length of the buffer is never used up.  The result is the cursor
    and [prevExpr] at loop exit. *)
Fixpoint parse_body_loop (fuel : nat) (cfg : Config) (buf : list char) (regex : nat)
  (op : PoolOffset) (currentExpr currentExprIdx prevExpr : nat) (s : State)
  : Result (nat * nat * State) :=
  match fuel with
  | 0 => OutOfFuel
  | S fuel =>
      '(opType, op, regex, s) <- parse_operand cfg buf regex op s ;;
      if OperandType_eqb opType NOTHING then Ok (regex, prevExpr, s) else
      let '(opCode, regex, s) := parse_operator buf regex s in
      s <- store_expr cfg currentExpr (set_op1 opCode op opType) s ;;
      '(regex, currentExpr, s) <-
        (if OperatorType_eqb opCode ZERO_OR_MORE then
           s <- store_expr cfg currentExpr (set_op2 (-1) NOTHING) s ;;
           assert (freeExprIdx s <? MAX_NESTED_EXPRS cfg) ExprPoolOutOfMemory ;;;
           let newExpr := freeExprIdx s in
           let '(newType, regex, s) := parse_operator buf regex s in
           s <- store_expr cfg newExpr
                  (set_op1 newType (Z.of_nat currentExprIdx) NESTED_EXPRESSION) s ;;
           s <- store_expr cfg prevExpr
                  (set_op2 (Z.of_nat (freeExprIdx s)) NESTED_EXPRESSION) s ;;
           let currentExpr := newExpr in
           let s := with_freeExprIdx (S (freeExprIdx s)) s in
           Ok (regex, currentExpr, s)
         else Ok (regex, currentExpr, s)) ;;
      assert (freeExprIdx s <? MAX_NESTED_EXPRS cfg) ExprPoolOutOfMemory ;;;
      let prevExpr := currentExpr in
      s <- store_expr cfg prevExpr
             (set_op2 (Z.of_nat (freeExprIdx s)) NESTED_EXPRESSION) s ;;
      let currentExpr := freeExprIdx s in
      let currentExprIdx := freeExprIdx s in
      let s := with_freeExprIdx (S (freeExprIdx s)) s in
      parse_body_loop fuel cfg buf regex op currentExpr currentExprIdx prevExpr s
  end.

Definition parse_body (cfg : Config) (buf : list char) (regex : nat) (nontermIdx : nat)
  (s : State) : Result (nat * State) :=
  let op := (-1)%Z in
  assert (freeExprIdx s <? MAX_NESTED_EXPRS cfg) ExprPoolOutOfMemory ;;;
  let currentExpr := freeExprIdx s in
  let currentExprIdx := freeExprIdx s in
  s <- store_nonterm cfg nontermIdx
         (fun nt => {| name := name nt; idx := idx nt;
                       expr := Z.of_nat (freeExprIdx s); complete := complete nt |}) s ;;
  let s := with_freeExprIdx (S (freeExprIdx s)) s in
  let prevExpr := currentExpr in
  '(regex, prevExpr, s) <-
    parse_body_loop (S (length buf)) cfg buf regex op
                    currentExpr currentExprIdx prevExpr s ;;
  assert (OperatorType_eqb (type (exprPool s prevExpr)) NO_OP
          || OperatorType_eqb (type (exprPool s prevExpr)) ZERO_OR_MORE)
         LastNotNoOp ;;;
  let s := with_freeExprIdx (freeExprIdx s - 1) s in
  s <- store_expr cfg prevExpr (set_op2 (-1) NOTHING) s ;;
  Ok (regex, s).

(** ** parse_regex *)

Definition parse_regex (cfg : Config) (buf : list char) (s : State) : Result State :=
  let '(s, regex) := move_while isspace buf s 0 in
  if (peek buf regex =? NUL)%char then Ok s else
  if (peek buf regex =? "!")%char then Ok s else
  '(nontermIdx, regex, s) <- parse_header cfg buf regex s ;;
  '(regex, s) <- parse_body cfg buf regex nontermIdx s ;;
  store_nonterm cfg nontermIdx
    (fun nt => {| name := name nt; idx := idx nt; expr := expr nt; complete := true |}) s.

(** ** parse_regex_spec *)

(** What one [fgets] call takes from the stream when it may store [n]
    characters: it stops after a newline.  The pair is the characters read
    and the rest of the stream. *)
Fixpoint fgets (n : nat) (input : list char) {struct input} : list char * list char :=
  match input, n with
  | ch :: rest, S n' =>
      if (ch =? NEWLINE)%char then ([ch], rest)
      else let '(l, r) := fgets n' rest in (ch :: l, r)
  | _, _ => ([], input)
  end.

(** [regexSpecLine] after [fgets] stored [line] and a terminator: the bytes
    behind them are what earlier calls left there. *)
Definition store_line (line : list char) (regexSpecLine : list char) : list char :=
  line ++ NUL :: skipn (S (length line)) regexSpecLine.

(** The [while (fgets(...) != NULL)] loop: [fgets] returns NULL once the
    stream is exhausted.  With [MAX_REGEX_LEN] at least 2 every call takes
    a character, so a fuel of the length of the stream is enough. *)
Fixpoint read_lines (fuel : nat) (cfg : Config) (input : list char)
  (regexSpecLine : list char) (s : State) : Result State :=
  match input with
  | [] => Ok s
  | _ :: _ =>
      match fuel with
      | 0 => OutOfFuel
      | S fuel =>
          let '(line, rest) := fgets (MAX_REGEX_LEN cfg - 1) input in
          let regexSpecLine := store_line line regexSpecLine in
          let s := with_currentLine (S (currentLine s)) s in
          let s := with_currentColumn 0 s in
          s <- parse_regex cfg regexSpecLine s ;;
          read_lines fuel cfg rest regexSpecLine s
      end
  end.

(** The run on the whole stream, from the initial values of the globals.
    The line buffer starts with no byte written. *)
Definition parse_regex_spec (cfg : Config) (input : list char) : Result State :=
  read_lines (length input) cfg input [] (initial cfg).

(** ** What the caller receives *)

(** The used part of each table: [currentNonterm] records, [freeExprIdx]
    nodes and the bytes below [currentTermStart]. *)
Record Tables := mkTables {
  nontermTable : list NonTerminal;
  exprTable : list Expression;
  termTable : list char
}.

Definition tables (s : State) : Tables :=
  {| nontermTable := map (nonterms s) (seq 0 (currentNonterm s));
     exprTable := map (exprPool s) (seq 0 (freeExprIdx s));
     termTable := map (termPool s) (seq 0 (currentTermStart s)) |}.

(** The tables of a run on [input]. *)
Definition parse (cfg : Config) (input : list char) : Result Tables :=
  fmap tables (parse_regex_spec cfg input).

(** [cfg] leaves room for a run that declares [n] non-terminals, stores [t]
    terminal bytes (terminators included), touches [e] expression nodes
    (the trailing speculative one included), reads lines of at most [l]
    characters and has names of at most [m] characters. *)
Definition roomy (n t e l m : nat) (cfg : Config) : Prop :=
  n < MAX_NONTERMS cfg /\ t <= MAX_TOTAL_TERM_LEN cfg /\ e <= MAX_NESTED_EXPRS cfg
  /\ l < MAX_REGEX_LEN cfg /\ m < MAX_NONTERM_NAME cfg.

(** ** log_expr *)

(** What log_expr hands to the [log] macro of include/utils.h, call by
    call: a fixed text, the name of a non-terminal, or the terminal at an
    offset of the pool (both with the format [%s]). *)
Inductive LogItem :=
| LogText (text : string)
| LogNonterm (i : Z)
| LogTerminal (off : Z).

(** A call of log_expr ends with the calls of [log] it made, reads a node
    outside exprPool, or has not ended when the fuel is used up. *)
Inductive Logged :=
| Logs (items : list LogItem)
| LogReadsOutside (exprIdx : Z)
| LogOutOfFuel.

Definition log_then (a : Logged) (k : list LogItem -> Logged) : Logged :=
  match a with
  | Logs items => k items
  | LogReadsOutside i => LogReadsOutside i
  | LogOutOfFuel => LogOutOfFuel
  end.

(** One of the two [switch] statements over the type of an operand. *)
Definition log_operand (log_expr : Z -> Logged) (t : OperandType) (v : Z) : Logged :=
  match t with
  | NESTED_EXPRESSION => log_expr v
  | NON_TERMINAL => Logs [LogNonterm v]
  | TERMINAL => Logs [LogTerminal v]
  | NOTHING => Logs [LogText EmptyString]
  end.

(** The [switch] over the operator. *)
Definition log_operator (t : OperatorType) : LogItem :=
  match t with
  | NO_OP => LogText EmptyString
  | OR => LogText " | "
  | AND => LogText " & "
  | ZERO_OR_MORE => LogText "*"
  end.

(** log_expr recurses on nested operands with no bound of its own; every
    call takes one unit of fuel.  The offset -1 is the only one it
    checks. *)
Fixpoint log_expr (fuel : nat) (cfg : Config) (s : State) (exprIdx : Z) : Logged :=
  match fuel with
  | 0 => LogOutOfFuel
  | S fuel =>
      if (exprIdx =? -1)%Z then Logs [] else
      if ((0 <=? exprIdx) && (exprIdx <? Z.of_nat (MAX_NESTED_EXPRS cfg)))%Z then
        let expr := exprPool s (Z.to_nat exprIdx) in
        log_then (log_operand (log_expr fuel cfg s) (op1Type expr) (op1 expr)) (fun l1 =>
        log_then (log_operand (log_expr fuel cfg s) (op2Type expr) (op2 expr)) (fun l2 =>
        Logs (LogText "(" :: l1 ++ log_operator (type expr) :: l2 ++ [LogText ")"])))
      else LogReadsOutside exprIdx
  end.

(** * Vocabulary of the statements *)

(** A node written as in the comments of regex.c: operator, left operand,
    right operand, each operand as its type and its offset. *)
Definition Node (t : OperatorType) (l r : OperandType * Z) : Expression :=
  {| type := t; op1 := snd l; op1Type := fst l; op2 := snd r; op2Type := fst r |}.

Definition sample : Config := mkConfig 8 64 16 80 16 NO_OP NOTHING.

(** A configuration whose terminal pool holds three bytes. *)
Definition tiny_pool : Config := mkConfig 8 3 16 80 16 NO_OP NOTHING.

(** ** Tokens *)

(** A character of a terminal written without escapes and stars. *)
Definition plain (ch : char) : bool :=
  wordchar ch && negb (ch =? "@")%char && negb (ch =? "*")%char.

(** A terminal literal: characters as above, the first of them none of
    [$] and [|]. *)
Definition literal (tok : list char) : bool :=
  match tok with
  | [] => false
  | ch :: _ => negb (ch =? "$")%char && negb (ch =? "|")%char && forallb plain tok
  end.

Definition unescaped (l : list char) : bool :=
  forallb (fun ch => negb (ch =? "@")%char) l.

(** What follows the [$] of a header. *)
Definition valid_name (nm : list char) : bool :=
  match nm with
  | [] => false
  | _ => forallb wordchar nm
  end.

Definition no_newline (l : list char) : bool :=
  forallb (fun ch => negb (ch =? NEWLINE)%char) l.

(** The end of the only line of a stream: end of input, or a newline and
    then end of input. *)
Definition line_end (eol : list char) : Prop := eol = [] \/ eol = [NEWLINE].

(** The line [$nm := body]. *)
Definition line_text (nm body : list char) : list char :=
  "$"%char :: nm ++ chars " := " ++ body.

(** ** Bodies without a star: literals joined by juxtaposition or by a bar *)

Inductive Joiner := Juxtaposed | Barred.

Definition joiner_text (j : Joiner) : list char :=
  match j with
  | Juxtaposed => chars " "
  | Barred => chars " | "
  end.

Definition joiner_op (j : Joiner) : OperatorType :=
  match j with
  | Juxtaposed => AND
  | Barred => OR
  end.

(** The text [x j1 y1 j2 y2 ...]. *)
Fixpoint body_text (x : list char) (rest : list (Joiner * list char)) : list char :=
  match rest with
  | [] => x
  | (j, y) :: rest' => x ++ joiner_text j ++ body_text y rest'
  end.

Definition literals (rest : list (Joiner * list char)) : bool :=
  forallb (fun jy => literal (snd jy)) rest.

Definition definition_text (nm x : list char) (rest : list (Joiner * list char)) : list char :=
  line_text nm (body_text x rest).

(** The bytes such a body adds to the terminal pool. *)
Fixpoint term_bytes (x : list char) (rest : list (Joiner * list char)) : list char :=
  match rest with
  | [] => x ++ [NUL]
  | (_, y) :: rest' => x ++ NUL :: term_bytes y rest'
  end.

(** The nodes such a body adds to the expression pool, the first of them
    at index [cur], its terminal at offset [off]: every node but the last
    has the next node as its right operand. *)
Fixpoint chain_nodes (cur off : nat) (x : list char) (rest : list (Joiner * list char))
  : list Expression :=
  match rest with
  | [] => [Node NO_OP (TERMINAL, Z.of_nat off) (NOTHING, (-1)%Z)]
  | (j, y) :: rest' =>
      Node (joiner_op j) (TERMINAL, Z.of_nat off) (NESTED_EXPRESSION, Z.of_nat (S cur))
      :: chain_nodes (S cur) (off + length x + 1) y rest'
  end.

(** The same nodes as the loop leaves them: the last one still points at
    the speculative node. *)
Fixpoint linked_nodes (cur off : nat) (x : list char) (rest : list (Joiner * list char))
  : list Expression :=
  match rest with
  | [] => [Node NO_OP (TERMINAL, Z.of_nat off) (NESTED_EXPRESSION, Z.of_nat (S cur))]
  | (j, y) :: rest' =>
      Node (joiner_op j) (TERMINAL, Z.of_nat off) (NESTED_EXPRESSION, Z.of_nat (S cur))
      :: linked_nodes (S cur) (off + length x + 1) y rest'
  end.

(** ** The non-terminal table along a run *)

Definition well_named (tbl : array NonTerminal) (n : nat) : Prop :=
  forall i, i < n ->
    hd_error (name (tbl i)) = Some "$"%char /\ idx (tbl i) = Z.of_nat i.

Definition names_ok (s : State) : Prop := well_named (nonterms s) (currentNonterm s).

(** No entry is complete in [s'] that was not complete in [s]. *)
Definition none_completed (s s' : State) : Prop :=
  forall j, complete (nonterms s' j) = true -> complete (nonterms s j) = true.

(** What parse_header and parse_body keep of the non-terminal table. *)
Definition table_kept (s s' : State) : Prop :=
  (names_ok s -> names_ok s') /\ none_completed s s'.

(** Steps that leave the non-terminal table alone. *)
Definition same_nonterms (s s' : State) : Prop :=
  nonterms s' = nonterms s /\ currentNonterm s' = currentNonterm s.

(** ** States reached along a run

    The value of the globals behind each step, written out with the stores
    in the order the code makes them. *)

(** [write t dest pool]: the pool after the bytes of [t] were stored from
    offset [dest] on, first byte first. *)
Fixpoint write (t : list char) (dest : nat) (pool : array char) : array char :=
  match t with
  | [] => pool
  | ch :: t' => write t' (S dest) (aset pool dest ch)
  end.

(** Behind the header of [$nm], found in no entry: [sp1] whitespace
    characters stand before [:=] and [sp2] after it. *)
Definition after_header (nm : list char) (sp1 sp2 : nat) (s : State) : State :=
  with_currentColumn (S (S (S (currentColumn s) + length nm + sp1)) + sp2)
    (with_nonterms
       (aset (nonterms s) (currentNonterm s)
             {| name := "$"%char :: nm; idx := Z.of_nat (currentNonterm s);
                expr := expr (nonterms s (currentNonterm s));
                complete := complete (nonterms s (currentNonterm s)) |})
       (with_currentNonterm (S (currentNonterm s)) s)).

(** Behind a literal [tok] that stood behind [bl] blanks. *)
Definition after_literal (bl : nat) (tok : list char) (s : State) : State :=
  with_currentTermStart (currentTermStart s + (length tok + 1))
    (with_termPool
       (aset (write tok (currentTermStart s) (termPool s))
             (currentTermStart s + length tok) NUL)
       (with_currentColumn (currentColumn s + bl + length tok) s)).

(** Behind a literal [t1 @ c t2] that stood behind [bl] blanks; [d] is the
    character behind the token, which memcpy2 copies as well. *)
Definition after_escaped (bl : nat) (t1 : list char) (c : char) (t2 : list char) (d : char)
  (s : State) : State :=
  let n := length t1 + 2 + length t2 in
  with_currentTermStart (currentTermStart s + (n + 1))
    (with_termPool
       (aset (write (t1 ++ c :: t2 ++ [d]) (currentTermStart s) (termPool s))
             (currentTermStart s + (n - 1)) NUL)
       (with_currentColumn (currentColumn s + bl + n) s)).

(** Behind an iteration whose operator is not a star: [s1] is the state
    behind the operand, [col] the column behind the operator. *)
Definition after_plain (cur : nat) (opType : OperandType) (off : Z) (s1 : State)
  (opCode : OperatorType) (col : nat) : State :=
  with_freeExprIdx (S (freeExprIdx s1))
    (with_exprPool
       (aset (aset (exprPool s1) cur (set_op1 opCode off opType (exprPool s1 cur))) cur
             (set_op2 (Z.of_nat (freeExprIdx s1)) NESTED_EXPRESSION
                      (set_op1 opCode off opType (exprPool s1 cur))))
       (with_currentColumn col s1)).

(** Behind an iteration whose operator is a star: the node [cur] is
    wrapped in the fresh node, [newType] is the operator behind the
    star. *)
Definition after_star (cur curIdx prev : nat) (opType : OperandType) (off : Z)
  (s1 : State) (newType : OperatorType) (col : nat) : State :=
  let free := freeExprIdx s1 in
  let pool1 := aset (exprPool s1) cur (set_op1 ZERO_OR_MORE off opType (exprPool s1 cur)) in
  let pool2 := aset pool1 cur (set_op2 (-1) NOTHING (pool1 cur)) in
  let pool3 := aset pool2 free
                 (set_op1 newType (Z.of_nat curIdx) NESTED_EXPRESSION (pool2 free)) in
  let pool4 := aset pool3 prev (set_op2 (Z.of_nat free) NESTED_EXPRESSION (pool3 prev)) in
  let pool5 := aset pool4 free
                 (set_op2 (Z.of_nat (S free)) NESTED_EXPRESSION (pool4 free)) in
  with_freeExprIdx (S (S free)) (with_exprPool pool5 (with_currentColumn col s1)).

(** Behind an iteration on the literal [x] with the operator [opCode],
    not a star. *)
Definition after_link (cur : nat) (opCode : OperatorType) (col : nat) (bl : nat)
  (x : list char) (s : State) : State :=
  let s1 := with_currentColumn col (after_literal bl x s) in
  let v1 := {| type := opCode; op1 := Z.of_nat (currentTermStart s); op1Type := TERMINAL;
               op2 := op2 (exprPool s cur); op2Type := op2Type (exprPool s cur) |} in
  with_freeExprIdx (S (freeExprIdx s))
    (with_exprPool
       (aset (aset (exprPool s) cur v1) cur
             (Node opCode (TERMINAL, Z.of_nat (currentTermStart s))
                          (NESTED_EXPRESSION, Z.of_nat (freeExprIdx s))))
       s1).

(** Behind the loop of parse_body on a body without a star, node by node:
    [cur] is the node being filled, [bl] the number of blanks in front of
    the operand. *)
Fixpoint chain_state (cur bl : nat) (x : list char) (rest : list (Joiner * list char))
  (s : State) : State :=
  let col := currentColumn (after_literal bl x s) in
  match rest with
  | [] => after_link cur NO_OP (col + 0) bl x s
  | (Juxtaposed, y) :: rest' =>
      chain_state (freeExprIdx s) 0 y rest' (after_link cur AND (col + 1) bl x s)
  | (Barred, y) :: rest' =>
      chain_state (freeExprIdx s) 1 y rest' (after_link cur OR (S (col + 1)) bl x s)
  end.

(** [prevExpr] when that loop is left. *)
Definition chain_last (cur : nat) (rest : list (Joiner * list char)) (s : State) : nat :=
  match rest with
  | [] => cur
  | _ :: rest' => freeExprIdx s + length rest'
  end.

(** The tables after a body was parsed for entry [i]: the entry points at
    the first new node, [nodes] and [bytes] were appended. *)
Definition body_parsed (i : nat) (nodes : list Expression) (bytes : list char)
  (s s' : State) : Prop :=
  nonterms s' = aset (nonterms s) i
                  {| name := name (nonterms s i); idx := idx (nonterms s i);
                     expr := Z.of_nat (freeExprIdx s); complete := complete (nonterms s i) |}
  /\ currentNonterm s' = currentNonterm s
  /\ currentLine s' = currentLine s
  /\ warnings s' = warnings s
  /\ exprTable (tables s') = exprTable (tables s) ++ nodes
  /\ termTable (tables s') = termTable (tables s) ++ bytes.

(** The globals when the loop starts on the first body of a run, for the
    definition of [$nm]. *)
Definition body_start (cfg : Config) (nm : list char) : State :=
  let s0 := with_currentColumn 0 (with_currentLine 1 (initial cfg)) in
  let sh := after_header nm 1 1 (with_currentColumn (currentColumn s0 + 0) s0) in
  with_freeExprIdx (S (freeExprIdx sh))
    (with_nonterms
       (aset (nonterms sh) 0
             {| name := name (nonterms sh 0); idx := idx (nonterms sh 0);
                expr := Z.of_nat (freeExprIdx sh); complete := complete (nonterms sh 0) |})
       sh).

(** What parse_body and parse_regex do once the loop is left, and the
    tables the caller then sees. *)
Definition finish_definition (cfg : Config) (r : Result (nat * nat * State))
  : Result Tables :=
  fmap tables
    ('(regex, prevExpr, s) <- r ;;
     assert (OperatorType_eqb (type (exprPool s prevExpr)) NO_OP
             || OperatorType_eqb (type (exprPool s prevExpr)) ZERO_OR_MORE)
            LastNotNoOp ;;;
     let s := with_freeExprIdx (freeExprIdx s - 1) s in
     s <- store_expr cfg prevExpr (set_op2 (-1) NOTHING) s ;;
     store_nonterm cfg 0
       (fun nt => {| name := name nt; idx := idx nt; expr := expr nt; complete := true |}) s).

(** * Vocabulary of the further properties *)

(** ** What a run never does *)

(** The ways a run stops, apart from the type of its result. *)
Inductive Stop :=
| StopFatal (line column : nat) (e : FatalError)
| StopAssert (a : Assertion)
| StopUndefined (f : Fault)
| StopFuel.

(** [sat bad Q r]: the result [r] satisfies [Q] if the run went through,
    and the run did not stop in one of the ways [bad]. *)
Definition sat {A : Type} (bad : Stop -> Prop) (Q : A -> Prop) (r : Result A) : Prop :=
  match r with
  | Ok a => Q a
  | Fatal l c e => ~ bad (StopFatal l c e)
  | AssertionFailed a => ~ bad (StopAssert a)
  | Undefined f => ~ bad (StopUndefined f)
  | OutOfFuel => ~ bad StopFuel
  end.

(** A store at an index outside the table of non-terminals or outside the
    expression pool. *)
Definition outside_tables (st : Stop) : Prop :=
  match st with
  | StopUndefined (StoreOutsideNonterms _) | StopUndefined (StoreOutsideExprPool _) => True
  | _ => False
  end.

(** The same, or a loop that does not come to its end. *)
Definition unsafe (st : Stop) : Prop :=
  match st with
  | StopFuel => True
  | _ => outside_tables st
  end.

(** Both arenas have a slot to spare wherever they are in use. *)
Definition nonterms_within (cfg : Config) (s : State) : Prop :=
  currentNonterm s = 0 \/ currentNonterm s < MAX_NONTERMS cfg.

Definition within (cfg : Config) (s : State) : Prop :=
  nonterms_within cfg s
  /\ (freeExprIdx s = 0 \/ freeExprIdx s < MAX_NESTED_EXPRS cfg).

(** ** The shape of the tables *)

(** Nothing is excluded: [sat no_stop Q r] says [Q] of a run that went
    through. *)
Definition no_stop (st : Stop) : Prop := False.

(** From [s] to [s'] the tables of non-terminals and of terminals have
    only grown. *)
Definition grows (s s' : State) : Prop :=
  currentNonterm s <= currentNonterm s' /\ currentTermStart s <= currentTermStart s'
  /\ forall j, j < currentTermStart s -> termPool s' j = termPool s j.

(** The entries of [s] have the same root in [s']. *)
Definition exprs_kept (s s' : State) : Prop :=
  forall i, i < currentNonterm s -> expr (nonterms s' i) = expr (nonterms s i).

(** The entries complete in [s'] were complete in [s], with the same root. *)
Definition roots_kept (s s' : State) : Prop :=
  forall i, complete (nonterms s' i) = true ->
    complete (nonterms s i) = true /\ expr (nonterms s' i) = expr (nonterms s i).

(** The string at offset [v] of the terminal pool ends below
    [currentTermStart]. *)
Definition terminated (s : State) (v : Z) : Prop :=
  (0 <= v)%Z /\ exists j, Z.to_nat v <= j < currentTermStart s /\ termPool s j = NUL.

(** An operand points into its table; a nested expression is one of the
    first [bound] nodes. *)
Definition operand_ok (s : State) (bound : nat) (t : OperandType) (v : Z) : Prop :=
  match t with
  | NOTHING => True
  | NESTED_EXPRESSION => (0 <= v < Z.of_nat bound)%Z
  | NON_TERMINAL => (0 <= v < Z.of_nat (currentNonterm s))%Z
  | TERMINAL => terminated s v
  end.

(** A node as parse_body fills it: a left operand of some kind, a right
    operand that is a node or nothing. *)
Definition node_ok (s : State) (bound1 bound2 : nat) (e : Expression) : Prop :=
  op1Type e <> NOTHING /\ operand_ok s bound1 (op1Type e) (op1 e)
  /\ (op2Type e = NOTHING \/ op2Type e = NESTED_EXPRESSION)
  /\ operand_ok s bound2 (op2Type e) (op2 e).

(** A node that ends a body. *)
Definition closed (e : Expression) : Prop :=
  (type e = NO_OP \/ type e = ZERO_OR_MORE) /\ op2Type e = NOTHING /\ op2 e = (-1)%Z.

(** The tables between two lines. *)
Definition well_formed (s : State) : Prop :=
  (forall k, k < freeExprIdx s -> node_ok s (freeExprIdx s) (freeExprIdx s) (exprPool s k))
  /\ (forall i, complete (nonterms s i) = true ->
        (0 <= expr (nonterms s i) < Z.of_nat (freeExprIdx s))%Z)
  /\ (freeExprIdx s = 0 \/ closed (exprPool s (freeExprIdx s - 1))).

(** The nodes inside the loop of parse_body: those below [cur] are filled,
    and only the right operand of [prev] points at [cur], the node in
    reserve. *)
Definition loop_inv (cur curIdx prev : nat) (s : State) : Prop :=
  freeExprIdx s = S cur /\ curIdx = cur /\ prev <= cur
  /\ forall k, k < cur ->
       node_ok s cur (if k =? prev then S cur else cur) (exprPool s k).

(** An operand stands at the cursor, behind blanks at most. *)
Definition starts_operand (buf : list char) (regex : nat) : Prop :=
  let p := regex + run_length blank (skipn regex buf) in
  (peek buf p =? NUL)%char || (peek buf p =? NEWLINE)%char = false.

(** An operand of a node of the tables handed to the caller. *)
Definition in_range (t : Tables) (ty : OperandType) (v : Z) : Prop :=
  match ty with
  | NOTHING => True
  | NESTED_EXPRESSION => (0 <= v < Z.of_nat (length (exprTable t)))%Z
  | NON_TERMINAL => (0 <= v < Z.of_nat (length (nontermTable t)))%Z
  | TERMINAL => (0 <= v < Z.of_nat (length (termTable t)))%Z
  end.

(** ** Grammars of several lines *)

(** A line that parse_regex skips: blank, or a comment. *)
Fixpoint ignorable (l : list char) : bool :=
  match l with
  | [] => true
  | ch :: l' => if isspace ch then ignorable l' else (ch =? "!")%char
  end.

(** The lines of a grammar whose bodies have no star. *)
Inductive SpecLine :=
| Skipped (text : list char)
| Defines (nm x : list char) (rest : list (Joiner * list char)).

Definition spec_line_text (l : SpecLine) : list char :=
  match l with
  | Skipped text => text
  | Defines nm x rest => definition_text nm x rest
  end.

(** The stream: every line ends in a newline. *)
Definition spec_text (ls : list SpecLine) : list char :=
  flat_map (fun l => spec_line_text l ++ [NEWLINE]) ls.

Definition spec_line_ok (l : SpecLine) : bool :=
  match l with
  | Skipped text => no_newline text && ignorable text
  | Defines nm x rest => valid_name nm && literal x && literals rest
  end.

Definition defined (ls : list SpecLine) : list (list char) :=
  flat_map (fun l => match l with Defines nm _ _ => [nm] | Skipped _ => [] end) ls.

(** What a line adds to the tables. *)
Definition add_line (t : Tables) (l : SpecLine) : Tables :=
  match l with
  | Skipped _ => t
  | Defines nm x rest =>
      {| nontermTable :=
           nontermTable t
           ++ [ {| name := "$"%char :: nm; idx := Z.of_nat (length (nontermTable t));
                   expr := Z.of_nat (length (exprTable t)); complete := true |} ];
         exprTable :=
           exprTable t ++ chain_nodes (length (exprTable t)) (length (termTable t)) x rest;
         termTable := termTable t ++ term_bytes x rest |}
  end.

Definition spec_tables (ls : list SpecLine) : Tables :=
  fold_left add_line ls {| nontermTable := []; exprTable := []; termTable := [] |}.

(** The tables [t] and the lines [ls] fit the arrays of [cfg]. *)
Definition spec_fits (cfg : Config) (t : Tables) (ls : list SpecLine) : Prop :=
  length (nontermTable t) < MAX_NONTERMS cfg
  /\ length (termTable t) <= MAX_TOTAL_TERM_LEN cfg
  /\ length (exprTable t) < MAX_NESTED_EXPRS cfg
  /\ forall l, In l ls ->
       S (length (spec_line_text l)) < MAX_REGEX_LEN cfg
       /\ match l with
          | Skipped _ => True
          | Defines nm _ _ => S (length nm) < MAX_NONTERM_NAME cfg
          end.

(** ** The column and the cursor *)

(** The column has moved as far as the cursor, on the same line. *)
Definition in_step (regex : nat) (s : State) (regex' : nat) (s' : State) : Prop :=
  regex <= regex' /\ currentColumn s' = currentColumn s + (regex' - regex)
  /\ currentLine s' = currentLine s.

(** * Proofs *)

(** ** What every run keeps of the non-terminal table *)

Lemma bytes_at_dollar buf start n :
  peek buf start = "$"%char -> 1 <= n ->
  hd_error (bytes_at buf start n) = Some "$"%char.
Proof.
  unfold peek, bytes_at. revert start.
  induction buf as [|c buf IH]; intros [|start] H Hn; cbn in *; try discriminate.
  - destruct n; [lia|]. cbn. now subst.
  - now apply IH.
Qed.

Lemma well_named_aset_in tbl n i v :
  well_named tbl n ->
  hd_error (name v) = Some "$"%char -> idx v = Z.of_nat i ->
  well_named (aset tbl i v) n.
Proof.
  intros W Hn Hi j Hj. unfold aset.
  destruct (Nat.eqb_spec j i) as [->|]; auto.
Qed.

Lemma well_named_aset_new tbl n v :
  well_named tbl n ->
  hd_error (name v) = Some "$"%char -> idx v = Z.of_nat n ->
  well_named (aset tbl n v) (S n).
Proof.
  intros W Hn Hi j Hj. unfold aset.
  destruct (Nat.eqb_spec j n) as [->|]; auto. apply W. lia.
Qed.

(** Inversion of a successful [bind]. *)
Lemma bind_Ok {A B} (r : Result A) (k : A -> Result B) b :
  bind r k = Ok b -> exists a, r = Ok a /\ k a = Ok b.
Proof. destruct r; cbn; try discriminate. eauto. Qed.

Ltac bind_inv H :=
  let a := fresh "a" in let E := fresh "E" in
  apply bind_Ok in H; destruct H as (a & E & H).

Lemma store_nonterm_Ok cfg i f s s' :
  store_nonterm cfg i f s = Ok s' ->
  s' = with_nonterms (aset (nonterms s) i (f (nonterms s i))) s.
Proof. unfold store_nonterm. destruct (_ <? _); congruence. Qed.

Lemma store_expr_Ok cfg i f s s' :
  store_expr cfg i f s = Ok s' ->
  s' = with_exprPool (aset (exprPool s) i (f (exprPool s i))) s.
Proof. unfold store_expr. destruct (_ <? _); congruence. Qed.

Lemma store_term_Ok cfg i ch s s' :
  store_term cfg i ch s = Ok s' ->
  s' = with_termPool (aset (termPool s) i ch) s.
Proof. unfold store_term. destruct (_ <? _); congruence. Qed.

Lemma same_nonterms_refl s : same_nonterms s s.
Proof. now split. Qed.

Lemma same_nonterms_trans s1 s2 s3 :
  same_nonterms s1 s2 -> same_nonterms s2 s3 -> same_nonterms s1 s3.
Proof. intros [A B] [C D]. split; congruence. Qed.

Lemma same_nonterms_kept s s' : same_nonterms s s' -> table_kept s s'.
Proof.
  intros [A B]. split.
  - unfold names_ok. now rewrite A, B.
  - intros j. now rewrite A.
Qed.

Lemma table_kept_refl s : table_kept s s.
Proof. split; [auto|intros j; auto]. Qed.

Lemma table_kept_trans s1 s2 s3 : table_kept s1 s2 -> table_kept s2 s3 -> table_kept s1 s3.
Proof. intros [A B] [C D]. split; [auto|]. intros j Hj. auto. Qed.

Lemma memcpy2_loop_same cfg buf e te tp n :
  forall dest src copied s r s',
    memcpy2_loop cfg buf e te tp n dest src copied s = Ok (r, s') ->
    same_nonterms s s'.
Proof.
  induction n as [|n IH]; intros dest src copied s r s' H; cbn in H.
  - inversion H; subst. apply same_nonterms_refl.
  - bind_inv H. destruct (a =? e)%char.
    + destruct (n <=? 0); [discriminate|].
      bind_inv H. destruct (strchr te a0); cbn in H; bind_inv H;
        apply store_term_Ok in E1; subst; apply IH in H;
        (eapply same_nonterms_trans; [|exact H]); now split.
    + bind_inv H. apply store_term_Ok in E0; subst. apply IH in H.
      eapply same_nonterms_trans; [|exact H]. now split.
Qed.

Lemma find_declared_bound s nm : forall n i j,
  find_declared s nm i n = Ok (Some j) -> i <= j < i + n.
Proof.
  induction n as [|n IH]; intros i j H; cbn in H; [discriminate|].
  destruct (strcmp_eq _ _).
  - destruct (complete _); [discriminate|]. inversion H; subst. lia.
  - apply IH in H. lia.
Qed.

Lemma run_length_wordchar_pos buf start :
  wordchar (peek buf start) = true -> 1 <= run_length wordchar (skipn start buf).
Proof.
  unfold peek. revert start. induction buf as [|c buf IH]; intros [|start] H; cbn in *;
    try discriminate.
  - rewrite H. lia.
  - now apply IH.
Qed.

Lemma none_completed_aset s s' i v :
  nonterms s' = aset (nonterms s) i v ->
  (complete v = true -> complete (nonterms s i) = true) ->
  none_completed s s'.
Proof.
  intros E Hv j. rewrite E. unfold aset. destruct (Nat.eqb_spec j i) as [->|]; auto.
Qed.

Lemma parse_header_kept cfg buf regex s i regex' s' :
  parse_header cfg buf regex s = Ok (i, regex', s') ->
  table_kept s s' /\ (names_ok s -> i < currentNonterm s').
Proof.
  unfold parse_header, moveRegexPtr, move_while, fatal_error. intros H.
  destruct (peek buf regex =? "$")%char eqn:Hd; [|discriminate]. cbn [negb] in H.
  apply Ascii.eqb_eq in Hd.
  set (n := run_length wordchar (skipn (S regex) buf)) in *. clearbody n.
  destruct (S regex + n =? regex + 1) eqn:Hn; [discriminate|].
  apply Nat.eqb_neq in Hn.
  destruct (_ || _); [discriminate|].
  bind_inv H. bind_inv H. clear E E0.
  bind_inv H. bind_inv H. destruct a2 as [nontermIdx s1].
  bind_inv H. clear E1 a2.
  bind_inv H.
  assert (Hname : hd_error (bytes_at buf regex (S regex + n - regex)) = Some "$"%char)
    by (apply bytes_at_dollar; [assumption|lia]).
  assert (W1 : table_kept s a2 /\ (names_ok s -> nontermIdx < currentNonterm a2)).
  { apply store_nonterm_Ok in E1. subst a2.
    destruct a1 as [j|].
    - inversion E0; subst. apply find_declared_bound in E. cbn in E |- *.
      split; [split|].
      + intro W. unfold names_ok. cbn. now apply well_named_aset_in.
      + eapply none_completed_aset; [reflexivity|]. cbn. auto.
      + intros _. cbn. lia.
    - bind_inv E0. inversion E0; subst. cbn. split; [split|].
      + intro W. unfold names_ok. cbn. now apply well_named_aset_new.
      + eapply none_completed_aset; [reflexivity|]. cbn. auto.
      + intros _. cbn. lia. }
  destruct (negb _); [discriminate|].
  destruct (negb _); [discriminate|].
  destruct (_ || _); [discriminate|].
  inversion H; subst. destruct W1 as [W1 W3]. split.
  - eapply table_kept_trans; [exact W1|]. apply same_nonterms_kept. now split.
  - intro W. exact (W3 W).
Qed.

Lemma parse_operator_same buf regex s :
  same_nonterms s (snd (parse_operator buf regex s)).
Proof.
  unfold parse_operator, move_while, moveRegexPtr.
  repeat match goal with |- context [if ?b then _ else _] => destruct b end;
    now split.
Qed.

Lemma parse_operand_kept cfg buf regex res s t r regex' s' :
  parse_operand cfg buf regex res s = Ok (t, r, regex', s') -> table_kept s s'.
Proof.
  unfold parse_operand, move_while, fatal_error. intros H.
  set (p0 := regex + run_length blank (skipn regex buf)) in *. clearbody p0.
  destruct (_ || _).
  { inversion H; subst. apply same_nonterms_kept. now split. }
  destruct (_ || _); [discriminate|].
  pose proof (run_length_wordchar_pos buf p0) as Hrun.
  set (n := run_length wordchar (skipn p0 buf)) in *. clearbody n.
  destruct (peek buf p0 =? "$")%char eqn:Hd.
  - apply Ascii.eqb_eq in Hd. rewrite Hd in Hrun. specialize (Hrun eq_refl).
    destruct (_ && _) eqn:Hsplit.
    + destruct (p0 + n - 1 - p0 =? 1) eqn:H1; [discriminate|].
      apply Nat.eqb_neq in H1.
      destruct (find_referenced _ _ _ _ _ _).
      * inversion H; subst. apply same_nonterms_kept. now split.
      * bind_inv H. bind_inv H. clear E0 a0. bind_inv H.
        apply store_nonterm_Ok in E0. subst a0.
        inversion H; subst. split.
        -- intro W. unfold names_ok. cbn.
           apply well_named_aset_new; cbn; auto.
           apply bytes_at_dollar; [assumption|].
           apply andb_prop in Hsplit. destruct Hsplit as [Hs _].
           apply Ascii.eqb_eq in Hs.
           assert (p0 + n - 1 <> p0) by (intro Heq; rewrite Heq, Hd in Hs; discriminate).
           lia.
        -- eapply none_completed_aset; [reflexivity|]. cbn. discriminate.
    + destruct (p0 + n - p0 =? 1) eqn:H1; [discriminate|].
      apply Nat.eqb_neq in H1.
      destruct (find_referenced _ _ _ _ _ _).
      * inversion H; subst. apply same_nonterms_kept. now split.
      * bind_inv H. bind_inv H. clear E0 a0. bind_inv H.
        apply store_nonterm_Ok in E0. subst a0.
        inversion H; subst. split.
        -- intro W. unfold names_ok. cbn.
           apply well_named_aset_new; cbn; auto.
           apply bytes_at_dollar; [assumption|lia].
        -- eapply none_completed_aset; [reflexivity|]. cbn. discriminate.
  - destruct (_ && _);
      bind_inv H; bind_inv H; destruct a0 as [size s1]; bind_inv H;
      apply store_term_Ok in E1; subst a0; inversion H; subst;
      unfold memcpy2 in E0; apply memcpy2_loop_same in E0;
      apply same_nonterms_kept;
      (eapply same_nonterms_trans; [|split; reflexivity]);
      (eapply same_nonterms_trans; [|exact E0]);
      now split.
Qed.

Lemma parse_body_loop_kept cfg buf : forall fuel regex op cur curIdx prev s regex' prev' s',
  parse_body_loop fuel cfg buf regex op cur curIdx prev s = Ok (regex', prev', s') ->
  table_kept s s'.
Proof.
  induction fuel as [|fuel IH]; intros regex op cur curIdx prev s regex' prev' s' H;
    cbn [parse_body_loop] in H; [discriminate|].
  bind_inv H. destruct a as [[[opType op'] regex1] s1].
  apply parse_operand_kept in E.
  destruct (OperandType_eqb opType NOTHING).
  { inversion H; subst. exact E. }
  pose proof (parse_operator_same buf regex1 s1) as Hop.
  destruct (parse_operator buf regex1 s1) as [[opCode regex2] s2]. cbn [snd] in Hop.
  bind_inv H. apply store_expr_Ok in E0.
  assert (W3 : table_kept s a).
  { subst a. eapply table_kept_trans; [exact E|]. apply same_nonterms_kept.
    eapply same_nonterms_trans; [exact Hop|]. now split. }
  clear E0 Hop E.
  bind_inv H. destruct a0 as [[regex3 cur3] s3].
  assert (W4 : table_kept s s3).
  { destruct (OperatorType_eqb opCode ZERO_OR_MORE).
    - bind_inv E. apply store_expr_Ok in E0. bind_inv E. clear E1.
      pose proof (parse_operator_same buf regex2 a0) as Hop.
      destruct (parse_operator buf regex2 a0) as [[newType regex4] s4]. cbn [snd] in Hop.
      bind_inv E. apply store_expr_Ok in E1. bind_inv E. apply store_expr_Ok in E2.
      inversion E; subst. eapply table_kept_trans; [exact W3|].
      apply same_nonterms_kept.
      eapply same_nonterms_trans; [|split; reflexivity].
      eapply same_nonterms_trans; [|split; reflexivity].
      eapply same_nonterms_trans; [|split; reflexivity].
      eapply same_nonterms_trans; [|exact Hop]. now split.
    - inversion E; subst. exact W3. }
  bind_inv H. bind_inv H. apply store_expr_Ok in E1.
  apply IH in H. eapply table_kept_trans; [|exact H].
  eapply table_kept_trans; [exact W4|]. apply same_nonterms_kept. subst a1. now split.
Qed.

Lemma parse_body_kept cfg buf regex i s regex' s' :
  parse_body cfg buf regex i s = Ok (regex', s') -> table_kept s s'.
Proof.
  unfold parse_body. intros H.
  bind_inv H. bind_inv H. apply store_nonterm_Ok in E0.
  bind_inv H. destruct a1 as [[regex1 prev] s1].
  apply parse_body_loop_kept in E1.
  bind_inv H. bind_inv H. apply store_expr_Ok in E3. inversion H; subst.
  eapply table_kept_trans; [|eapply table_kept_trans; [exact E1|]].
  - split.
    + unfold names_ok. cbn. intros W j Hj. unfold aset.
      destruct (Nat.eqb_spec j i) as [->|]; cbn; auto.
    + eapply none_completed_aset; [reflexivity|]. cbn. auto.
  - apply same_nonterms_kept. now split.
Qed.

Lemma parse_regex_names cfg buf s s' :
  parse_regex cfg buf s = Ok s' -> names_ok s -> names_ok s'.
Proof.
  unfold parse_regex, move_while. intros H W.
  destruct (_ =? NUL)%char.
  { inversion H; subst. exact W. }
  destruct (_ =? "!")%char.
  { inversion H; subst. exact W. }
  bind_inv H. destruct a as [[i regex1] s1].
  apply parse_header_kept in E. destruct E as [[W1 _] _]. specialize (W1 W).
  bind_inv H. destruct a as [regex2 s2].
  apply parse_body_kept in E. destruct E as [W2 _]. specialize (W2 W1).
  apply store_nonterm_Ok in H. subst s'. unfold names_ok in *. cbn.
  intros j Hj. unfold aset. destruct (Nat.eqb_spec j i) as [->|]; cbn; auto.
Qed.

Lemma read_lines_names cfg : forall fuel input line s s',
  read_lines fuel cfg input line s = Ok s' -> names_ok s -> names_ok s'.
Proof.
  induction fuel as [|fuel IH]; intros input line s s' H W; destruct input as [|c input];
    cbn [read_lines] in H; try discriminate; try (inversion H; subst; exact W).
  destruct (fgets _ _) as [l rest]. bind_inv H.
  apply parse_regex_names in E; [|exact W].
  eapply IH; eauto.
Qed.

Lemma names_ok_initial cfg : names_ok (initial cfg).
Proof. intros i Hi. cbn in Hi. lia. Qed.

Lemma nth_error_map_seq {A} (f : nat -> A) n i a :
  nth_error (map f (seq 0 n)) i = Some a -> i < n /\ a = f i.
Proof.
  intro H. assert (Hi : i < n).
  { destruct (Nat.lt_ge_cases i n) as [|Hge]; [assumption|].
    assert (length (map f (seq 0 n)) <= i) by (rewrite length_map, length_seq; exact Hge).
    apply nth_error_None in H0. congruence. }
  split; [exact Hi|].
  rewrite nth_error_map, nth_error_seq in H.
  replace (i <? n) with true in H by (symmetry; now apply Nat.ltb_lt).
  cbn in H. congruence.
Qed.

Theorem names_keep_dollar cfg input t :
  parse cfg input = Ok t ->
  forall i nt, nth_error (nontermTable t) i = Some nt ->
    hd_error (name nt) = Some "$"%char /\ idx nt = Z.of_nat i.
Proof.
  unfold parse, fmap. intros H i nt Hnt. bind_inv H. inversion H; subst t. clear H.
  assert (W : names_ok a)
    by (eapply read_lines_names; [exact E|apply names_ok_initial]).
  cbn [tables nontermTable] in Hnt. apply nth_error_map_seq in Hnt.
  destruct Hnt as [Hi ->]. now apply W.
Qed.

(** ** The cursor on a line given by its tokens *)

Lemma run_length_app p t rest :
  forallb p t = true -> run_length p (t ++ rest) = length t + run_length p rest.
Proof.
  induction t as [|c t IH]; cbn; [reflexivity|].
  intro H. apply andb_prop in H. destruct H as [Hc Ht]. rewrite Hc, IH; auto.
Qed.

Lemma run_length_stop p rest : p (hd NUL rest) = false -> p NUL = false -> run_length p rest = 0.
Proof. destruct rest as [|c rest]; cbn; [reflexivity|]. now intros ->. Qed.

Lemma peek_skipn buf : forall p k, peek buf (p + k) = nth k (skipn p buf) NUL.
Proof.
  unfold peek. induction buf as [|c buf IH]; intros [|p] k; cbn; auto.
  now destruct k.
Qed.

Lemma peek_hd buf p : peek buf p = hd NUL (skipn p buf).
Proof.
  rewrite <- (Nat.add_0_r p) at 1. rewrite peek_skipn. now destruct (skipn p buf).
Qed.

Lemma skipn_past (buf : list char) p t rest :
  skipn p buf = t ++ rest -> skipn (p + length t) buf = rest.
Proof.
  intro H. rewrite Nat.add_comm, <- skipn_skipn, H, skipn_app, (skipn_all t), Nat.sub_diag.
  reflexivity.
Qed.

Lemma skipn_lt (buf : list char) p c rest : skipn p buf = c :: rest -> p < length buf.
Proof.
  intro H. destruct (Nat.lt_ge_cases p (length buf)) as [|Hge]; [assumption|].
  apply skipn_all2 in Hge. congruence.
Qed.

Lemma move_while_over p buf s regex t rest :
  skipn regex buf = t ++ rest -> forallb p t = true -> run_length p rest = 0 ->
  move_while p buf s regex =
  (with_currentColumn (currentColumn s + length t) s, regex + length t).
Proof.
  intros H Ht Hr. unfold move_while. rewrite H, run_length_app, Hr, Nat.add_0_r; auto.
Qed.

Lemma with_termPool_same s : with_termPool (termPool s) s = s.
Proof. now destruct s. Qed.

Lemma memcpy2_loop_plain cfg buf te tp : forall t dest src copied s rest,
  skipn src buf = t ++ rest ->
  forallb (fun ch => negb (ch =? "@")%char) t = true ->
  dest + length t <= MAX_TOTAL_TERM_LEN cfg ->
  memcpy2_loop cfg buf "@"%char te tp (length t) dest src copied s =
  Ok (copied, with_termPool (write t dest (termPool s)) s).
Proof.
  induction t as [|c t IH]; intros dest src copied s rest H Hp Hfit; cbn [length memcpy2_loop write].
  - now rewrite with_termPool_same.
  - cbn in Hp, Hfit. apply andb_prop in Hp. destruct Hp as [Hc Ht].
    unfold load. pose proof (skipn_lt _ _ _ _ H) as Hlt.
    apply Nat.ltb_lt in Hlt. rewrite Hlt. cbn [bind].
    rewrite (peek_hd buf src), H. cbn [hd app].
    apply negb_true_iff in Hc. rewrite Hc.
    unfold store_term. replace (dest <? MAX_TOTAL_TERM_LEN cfg) with true
      by (symmetry; apply Nat.ltb_lt; lia).
    cbn [bind]. rewrite (IH (S dest) (S src) copied _ rest); auto.
    + change (S src) with (1 + src). rewrite <- skipn_skipn, H. reflexivity.
    + lia.
Qed.

Lemma write_below t : forall dest pool j, j < dest -> write t dest pool j = pool j.
Proof.
  induction t as [|c t IH]; intros dest pool j Hj; cbn; [reflexivity|].
  rewrite IH by lia. unfold aset. destruct (Nat.eqb_spec j dest); [lia|reflexivity].
Qed.

Lemma write_above t : forall dest pool j, dest + length t <= j -> write t dest pool j = pool j.
Proof.
  induction t as [|c t IH]; intros dest pool j Hj; cbn in *; [reflexivity|].
  rewrite IH by lia. unfold aset. destruct (Nat.eqb_spec j dest); [lia|reflexivity].
Qed.

Lemma write_read t : forall dest pool, map (write t dest pool) (seq dest (length t)) = t.
Proof.
  induction t as [|c t IH]; intros dest pool; cbn; [reflexivity|].
  rewrite IH, write_below by lia. unfold aset. now rewrite Nat.eqb_refl.
Qed.

Lemma forallb_nth {A} (p : A -> bool) (l : list A) d k :
  forallb p l = true -> k < length l -> p (nth k l d) = true.
Proof.
  revert k. induction l as [|a l IH]; intros k H Hk; cbn in *; [lia|].
  apply andb_prop in H. destruct H as [Ha Hl]. destruct k; auto. apply IH; auto. lia.
Qed.

Lemma forallb_weaken {A} (p q : A -> bool) (l : list A) :
  (forall a, p a = true -> q a = true) -> forallb p l = true -> forallb q l = true.
Proof.
  intros Hpq. induction l as [|a l IH]; cbn; auto.
  intro H. apply andb_prop in H. destruct H as [Ha Hl]. rewrite Hpq, IH; auto.
Qed.

Lemma plain_parts ch :
  plain ch = true ->
  wordchar ch = true /\ (ch =? "@")%char = false /\ (ch =? "*")%char = false.
Proof.
  unfold plain. intro H. apply andb_prop in H. destruct H as [H H3].
  apply andb_prop in H. destruct H as [H1 H2].
  now rewrite negb_true_iff in H2, H3.
Qed.

Lemma wordchar_parts ch :
  wordchar ch = true ->
  (ch =? NUL)%char = false /\ isspace ch = false /\ (ch =? NEWLINE)%char = false
  /\ blank ch = false.
Proof.
  unfold wordchar, blank. intro H. apply andb_prop in H. destruct H as [H1 H2].
  rewrite negb_true_iff in H1, H2. rewrite H2. repeat split; auto.
  destruct (Ascii.eqb_spec ch NEWLINE) as [->|]; [discriminate H2|reflexivity].
Qed.

Lemma literal_parts tok :
  literal tok = true ->
  exists c tok', tok = c :: tok' /\ (c =? "$")%char = false /\ (c =? "|")%char = false
                 /\ forallb plain tok = true.
Proof.
  destruct tok as [|c tok']; cbn [literal]; [discriminate|].
  intro H. apply andb_prop in H. destruct H as [H H3].
  apply andb_prop in H. destruct H as [H1 H2].
  rewrite negb_true_iff in H1, H2. now exists c, tok'.
Qed.

Lemma parse_operand_literal cfg buf regex res s bl tok rest :
  skipn regex buf = bl ++ tok ++ rest ->
  forallb blank bl = true -> literal tok = true -> wordchar (hd NUL rest) = false ->
  currentTermStart s + length tok < MAX_TOTAL_TERM_LEN cfg ->
  parse_operand cfg buf regex res s =
  Ok (TERMINAL, Z.of_nat (currentTermStart s), regex + length bl + length tok,
      after_literal (length bl) tok s).
Proof.
  intros H Hbl Hlit Hrest Hfit.
  destruct (literal_parts _ Hlit) as (c & tok' & Etok & Hd & Hb & Hplain).
  assert (Hword : forallb wordchar tok = true)
    by (eapply forallb_weaken; [|exact Hplain]; intros a Ha; now apply plain_parts in Ha).
  assert (Hesc : forallb (fun ch => negb (ch =? "@")%char) tok = true).
  { eapply forallb_weaken; [|exact Hplain]. intros a Ha. apply plain_parts in Ha.
    destruct Ha as (_ & -> & _). reflexivity. }
  pose proof (skipn_past _ _ _ _ H) as H1.
  pose proof (skipn_past _ _ _ _ H1) as H2.
  assert (Hc : plain c = true) by (rewrite Etok in Hplain; cbn in Hplain; now apply andb_prop in Hplain).
  destruct (plain_parts _ Hc) as (Hcw & _ & Hcs).
  destruct (wordchar_parts _ Hcw) as (Hc0 & _ & Hcn & Hcb).
  unfold parse_operand.
  rewrite (move_while_over blank buf s regex bl (tok ++ rest) H Hbl)
    by (rewrite Etok; cbn; now rewrite Hcb).
  rewrite (peek_hd buf (regex + length bl)), H1, Etok. cbn [hd app].
  rewrite Hc0, Hcn, Hb, Hcs. cbn [orb]. rewrite <- Etok.
  rewrite (move_while_over wordchar buf _ (regex + length bl) tok rest H1 Hword)
    by (destruct rest as [|r rest']; cbn in *; [reflexivity|now rewrite Hrest]).
  set (n := length tok) in *. set (p := regex + length bl) in *.
  assert (Hn : 1 <= n) by (subst n; rewrite Etok; cbn; lia).
  assert (Hlast : (peek buf (p + n - 1) =? "*")%char = false).
  { replace (p + n - 1) with (p + (n - 1)) by lia. rewrite peek_skipn, H1.
    rewrite app_nth1 by (fold n; lia).
    assert (Hk : plain (nth (n - 1) tok NUL) = true)
      by (apply forallb_nth; [assumption|fold n; lia]).
    now apply plain_parts in Hk. }
  rewrite Hlast. cbn [andb].
  replace (p + n - p) with n by lia.
  rewrite Hd.
  unfold assert.
  replace (currentTermStart _ + n <=? MAX_TOTAL_TERM_LEN cfg) with true
    by (symmetry; apply Nat.leb_le; cbn; lia).
  cbn [bind]. unfold memcpy2.
  rewrite (memcpy2_loop_plain cfg buf (chars "_@|*$") (chars " @|*$") tok
             _ p n _ rest H1 Hesc) by (cbn; fold n; lia).
  cbn [bind]. unfold store_term.
  replace (_ <? MAX_TOTAL_TERM_LEN cfg) with true
    by (symmetry; apply Nat.ltb_lt; cbn; lia).
  cbn [bind]. unfold after_literal. fold n. cbn.
  replace (currentTermStart s + (n + 1) - (n + 1)) with (currentTermStart s) by lia.
  reflexivity.
Qed.

(** *** parse_operator, by the character behind the blanks *)

Section Operator.
Variables (buf : list char) (regex : nat) (s : State) (bl rest : list char).
Hypothesis Hbuf : skipn regex buf = bl ++ rest.
Hypothesis Hbl : forallb blank bl = true.

Lemma parse_operator_skip :
  blank (hd NUL rest) = false ->
  move_while blank buf s regex =
    (with_currentColumn (currentColumn s + length bl) s, regex + length bl)
  /\ peek buf (regex + length bl) = hd NUL rest.
Proof.
  intro Hd. split.
  - apply move_while_over with (rest := rest); auto.
    destruct rest; cbn in *; [reflexivity|now rewrite Hd].
  - rewrite peek_hd, (skipn_past _ _ _ _ Hbuf). reflexivity.
Qed.

Lemma parse_operator_end :
  hd NUL rest = NUL \/ hd NUL rest = NEWLINE ->
  parse_operator buf regex s =
    (NO_OP, regex + length bl, with_currentColumn (currentColumn s + length bl) s).
Proof.
  intro Hd. unfold parse_operator.
  destruct parse_operator_skip as [-> ->]; [destruct Hd as [->| ->]; reflexivity|].
  destruct Hd as [->| ->]; reflexivity.
Qed.

Lemma parse_operator_or :
  hd NUL rest = "|"%char ->
  parse_operator buf regex s =
    (OR, S (regex + length bl),
     with_currentColumn (S (currentColumn s + length bl)) s).
Proof.
  intro Hd. unfold parse_operator.
  destruct parse_operator_skip as [-> ->]; [now rewrite Hd|].
  rewrite Hd. reflexivity.
Qed.

Lemma parse_operator_star :
  hd NUL rest = "*"%char ->
  parse_operator buf regex s =
    (ZERO_OR_MORE, S (regex + length bl),
     with_currentColumn (S (currentColumn s + length bl)) s).
Proof.
  intro Hd. unfold parse_operator.
  destruct parse_operator_skip as [-> ->]; [now rewrite Hd|].
  rewrite Hd. reflexivity.
Qed.

Lemma parse_operator_and :
  wordchar (hd NUL rest) = true ->
  (hd NUL rest =? "|")%char = false -> (hd NUL rest =? "*")%char = false ->
  parse_operator buf regex s =
    (AND, regex + length bl, with_currentColumn (currentColumn s + length bl) s).
Proof.
  intros Hw H1 H2. destruct (wordchar_parts _ Hw) as (H0 & _ & Hn & Hb).
  unfold parse_operator.
  destruct parse_operator_skip as [-> ->]; [assumption|].
  rewrite H0, Hn, H1, H2. reflexivity.
Qed.

End Operator.

(** *** parse_header on a name not in the table yet *)

Lemma find_declared_none s nm : forall n i,
  (forall j, i <= j < i + n -> name (nonterms s j) <> nm) ->
  find_declared s nm i n = Ok None.
Proof.
  induction n as [|n IH]; intros i H; cbn; [reflexivity|].
  destruct (strcmp_eq nm (name (nonterms s i))) eqn:E.
  - exfalso. apply (H i); [lia|].
    clear - E. unfold strcmp_eq in E. revert E. generalize (name (nonterms s i)).
    induction nm as [|a nm IH]; intros [|b l] E; cbn in E; try discriminate; auto.
    apply andb_prop in E. destruct E as [E1 E2]. apply Ascii.eqb_eq in E1.
    subst. f_equal. apply IH. assumption.
  - apply IH. intros j Hj. apply H. lia.
Qed.

Lemma parse_header_new cfg buf regex s nm sp1 sp2 rest :
  skipn regex buf = "$"%char :: nm ++ sp1 ++ ":"%char :: "="%char :: sp2 ++ rest ->
  nm <> [] -> forallb wordchar nm = true ->
  forallb isspace sp1 = true -> sp1 <> [] -> hd NUL sp1 <> NEWLINE ->
  forallb blank sp2 = true -> wordchar (hd NUL rest) = true ->
  (forall j, j < currentNonterm s -> name (nonterms s j) <> "$"%char :: nm) ->
  S (currentNonterm s) < MAX_NONTERMS cfg ->
  S (length nm) < MAX_NONTERM_NAME cfg ->
  parse_header cfg buf regex s =
  Ok (currentNonterm s, S (S (S regex + length nm + length sp1)) + length sp2,
      after_header nm (length sp1) (length sp2) s).
Proof.
  intros H Hnm Hw Hsp1 Hne Hnl Hsp2 Hrest Hfresh Hcap Hname.
  destruct sp1 as [|b sp1]; [congruence|]. cbn [hd] in Hnl.
  cbn [forallb] in Hsp1. apply andb_prop in Hsp1. destruct Hsp1 as [Hb Hsp1].
  assert (Hbw : wordchar b = false) by (unfold wordchar; rewrite Hb; apply andb_false_r).
  assert (Hbn : (b =? NUL)%char = false)
    by (destruct (Ascii.eqb_spec b NUL) as [->|]; [discriminate Hb|reflexivity]).
  assert (Hbl : (b =? NEWLINE)%char = false) by now apply Ascii.eqb_neq.
  assert (H1 : skipn (S regex) buf = nm ++ (b :: sp1) ++ ":"%char :: "="%char :: sp2 ++ rest).
  { change (S regex) with (1 + regex). rewrite <- skipn_skipn, H. reflexivity. }
  pose proof (skipn_past _ _ _ _ H1) as H2.
  assert (H3 : skipn (S regex + length nm) buf
               = (b :: sp1) ++ (":"%char :: "="%char :: sp2 ++ rest))
    by exact H2.
  pose proof (skipn_past _ _ _ _ H3) as H4.
  assert (H5 : skipn (S (S (S regex + length nm + length (b :: sp1)))) buf = sp2 ++ rest).
  { change (S (S ?p)) with (2 + p). rewrite <- skipn_skipn, H4. reflexivity. }
  pose proof (skipn_past _ _ _ _ H5) as H6.
  destruct (wordchar_parts _ Hrest) as (Hr0 & _ & Hrn & Hrb).
  unfold parse_header, name_store, moveRegexPtr.
  rewrite (peek_hd buf regex), H. cbn [hd negb Ascii.eqb Bool.eqb].
  rewrite (move_while_over wordchar buf _ (S regex) nm _ H1 Hw)
    by (cbn; now rewrite Hbw).
  replace (S regex + length nm =? regex + 1) with false
    by (symmetry; apply Nat.eqb_neq; destruct nm; [congruence|cbn; lia]).
  rewrite (peek_hd buf (S regex + length nm)), H3. cbn [hd app].
  rewrite Hbn, Hbl. cbn [orb].
  replace (S regex + length nm - regex) with (S (length nm)) by lia.
  unfold assert.
  replace (S (length nm) <=? MAX_NONTERM_NAME cfg) with true
    by (symmetry; apply Nat.leb_le; lia).
  replace (S (length nm) <? MAX_NONTERM_NAME cfg) with true
    by (symmetry; apply Nat.ltb_lt; lia).
  cbn [bind].
  unfold bytes_at. rewrite H. cbn [firstn].
  rewrite firstn_app, firstn_all, Nat.sub_diag. cbn [firstn]. rewrite app_nil_r.
  rewrite find_declared_none by (cbn; intros j Hj; apply Hfresh; lia).
  cbn [bind currentNonterm with_currentNonterm with_currentColumn].
  replace (S (currentNonterm s) <? MAX_NONTERMS cfg) with true
    by (symmetry; apply Nat.ltb_lt; lia).
  cbn [bind]. unfold store_nonterm.
  replace (currentNonterm s <? MAX_NONTERMS cfg) with true
    by (symmetry; apply Nat.ltb_lt; lia).
  cbn [bind].
  rewrite (move_while_over isspace buf _ (S regex + length nm) (b :: sp1) _ H3)
    by (cbn; auto; now rewrite Hb, Hsp1).
  rewrite (peek_hd buf (S regex + length nm + length (b :: sp1))), H4.
  cbn [hd negb Ascii.eqb Bool.eqb].
  rewrite (peek_hd buf (S (S regex + length nm + length (b :: sp1)))).
  change (S (S regex + length nm + length (b :: sp1)))
    with (1 + (S regex + length nm + length (b :: sp1))) at 1.
  rewrite <- skipn_skipn, H4. cbn [skipn hd negb Ascii.eqb Bool.eqb].
  rewrite (move_while_over blank buf _ _ sp2 rest H5 Hsp2)
    by (destruct rest; cbn in *; [reflexivity|now rewrite Hrb]).
  rewrite (peek_hd buf _), H6, Hr0, Hrn. cbn [orb].
  reflexivity.
Qed.

(** *** One iteration of the loop of parse_body on a literal operand *)

Lemma parse_operand_nothing cfg buf regex res s rest :
  skipn regex buf = rest -> hd NUL rest = NUL \/ hd NUL rest = NEWLINE ->
  parse_operand cfg buf regex res s =
  Ok (NOTHING, res, regex + 0, with_currentColumn (currentColumn s + 0) s).
Proof.
  intros H Hd. unfold parse_operand.
  rewrite (move_while_over blank buf s regex [] rest H eq_refl)
    by (destruct rest as [|r rest']; cbn in *; [reflexivity|]; destruct Hd as [->| ->]; reflexivity).
  cbn [length]. rewrite (peek_hd buf (regex + 0)), Nat.add_0_r, H.
  destruct Hd as [->| ->]; reflexivity.
Qed.

Lemma loop_step_literal cfg buf fuel regex op cur curIdx prev s bl x rest opCode regex' col :
  skipn regex buf = bl ++ x ++ rest ->
  forallb blank bl = true -> literal x = true -> wordchar (hd NUL rest) = false ->
  currentTermStart s + length x < MAX_TOTAL_TERM_LEN cfg ->
  parse_operator buf (regex + length bl + length x) (after_literal (length bl) x s)
    = (opCode, regex', with_currentColumn col (after_literal (length bl) x s)) ->
  opCode <> ZERO_OR_MORE ->
  cur < freeExprIdx s -> freeExprIdx s < MAX_NESTED_EXPRS cfg ->
  parse_body_loop (S fuel) cfg buf regex op cur curIdx prev s =
  parse_body_loop fuel cfg buf regex' (Z.of_nat (currentTermStart s))
    (freeExprIdx s) (freeExprIdx s) cur
    (after_link cur opCode col (length bl) x s).
Proof.
  intros H Hbl Hlit Hrest Hfit Hop Hnz Hcur Hcap.
  cbn [parse_body_loop].
  rewrite (parse_operand_literal cfg buf regex op s bl x rest H Hbl Hlit Hrest Hfit).
  cbn [bind OperandType_eqb]. rewrite Hop.
  unfold store_expr.
  replace (cur <? MAX_NESTED_EXPRS cfg) with true by (symmetry; apply Nat.ltb_lt; lia).
  cbn [bind].
  replace (OperatorType_eqb opCode ZERO_OR_MORE) with false
    by (destruct opCode; try reflexivity; congruence).
  cbn [bind]. unfold assert. cbn [freeExprIdx with_exprPool with_currentColumn after_literal
    with_currentTermStart with_termPool].
  replace (freeExprIdx s <? MAX_NESTED_EXPRS cfg) with true by (symmetry; apply Nat.ltb_lt; lia).
  cbn [bind].
  replace (cur <? MAX_NESTED_EXPRS cfg) with true by (symmetry; apply Nat.ltb_lt; lia).
  cbn [bind]. unfold after_link, Node, aset. cbn. rewrite Nat.eqb_refl. cbn.
  reflexivity.
Qed.

Lemma loop_exit cfg buf fuel regex op cur curIdx prev s rest :
  skipn regex buf = rest -> hd NUL rest = NUL \/ hd NUL rest = NEWLINE ->
  parse_body_loop (S fuel) cfg buf regex op cur curIdx prev s =
  Ok (regex + 0, prev, with_currentColumn (currentColumn s + 0) s).
Proof.
  intros H Hd. cbn [parse_body_loop].
  rewrite (parse_operand_nothing cfg buf regex op s rest H Hd). reflexivity.
Qed.

Lemma map_seq_ext {A} (f g : nat -> A) a n :
  (forall j, a <= j < a + n -> f j = g j) -> map f (seq a n) = map g (seq a n).
Proof.
  intro H. apply map_ext_in. intros j Hj. apply in_seq in Hj. now apply H.
Qed.

(** *** A stream that holds a single line *)

Lemma no_newline_app l1 l2 : no_newline (l1 ++ l2) = no_newline l1 && no_newline l2.
Proof. apply forallb_app. Qed.

Lemma no_newline_wordchars l : forallb wordchar l = true -> no_newline l = true.
Proof.
  apply forallb_weaken. intros a Ha. apply wordchar_parts in Ha.
  destruct Ha as (_ & _ & -> & _). reflexivity.
Qed.

Lemma no_newline_literal x : literal x = true -> no_newline x = true.
Proof.
  intro H. destruct (literal_parts _ H) as (c & x' & _ & _ & _ & Hp).
  apply no_newline_wordchars. eapply forallb_weaken; [|exact Hp].
  intros a Ha. now apply plain_parts in Ha.
Qed.

Lemma fgets_line n : forall l,
  no_newline l = true -> length l <= n -> fgets n l = (l, []).
Proof.
  induction n as [|n IH]; intros [|c l] Hl Hn; cbn in *; try reflexivity; try lia.
  apply andb_prop in Hl. destruct Hl as [Hc Hl]. apply negb_true_iff in Hc.
  rewrite Hc, IH; auto. lia.
Qed.

Lemma fgets_line_newline n : forall l rest,
  no_newline l = true -> length l < n ->
  fgets n (l ++ NEWLINE :: rest) = (l ++ [NEWLINE], rest).
Proof.
  induction n as [|n IH]; intros [|c l] rest Hl Hn; cbn in *; try reflexivity; try lia.
  apply andb_prop in Hl. destruct Hl as [Hc Hl]. apply negb_true_iff in Hc.
  rewrite Hc, IH; auto. lia.
Qed.

Lemma bind_Ok_same {A} (r : Result A) : bind r (fun a => Ok a) = r.
Proof. now destruct r. Qed.

Lemma parse_regex_spec_single cfg line eol :
  line <> [] -> no_newline line = true -> line_end eol ->
  length (line ++ eol) < MAX_REGEX_LEN cfg ->
  parse_regex_spec cfg (line ++ eol) =
  parse_regex cfg (line ++ eol ++ [NUL])
              (with_currentColumn 0 (with_currentLine 1 (initial cfg))).
Proof.
  intros Hne Hnl Heol Hlen. unfold parse_regex_spec.
  destruct line as [|c line]; [congruence|].
  cbn [app length read_lines].
  assert (Hf : fgets (MAX_REGEX_LEN cfg - 1) (c :: line ++ eol) = (c :: line ++ eol, [])).
  { rewrite length_app in Hlen. destruct Heol as [->| ->].
    - rewrite app_nil_r. apply fgets_line; [assumption|cbn in *; lia].
    - apply (fgets_line_newline (MAX_REGEX_LEN cfg - 1) (c :: line) []); [assumption|].
      cbn in *. lia. }
  rewrite Hf. unfold store_line. rewrite skipn_nil. cbn [app].
  rewrite <- app_assoc.
  destruct (parse_regex cfg _ _); cbn [bind]; try reflexivity.
  now destruct (length (line ++ eol)).
Qed.

(** *** A stream of one definition on a fresh parser, up to the loop of parse_body *)

Lemma valid_name_parts nm : valid_name nm = true -> nm <> [] /\ forallb wordchar nm = true.
Proof. destruct nm; [discriminate|]. intro H. split; [congruence|exact H]. Qed.

Lemma hd_line_end eol :
  line_end eol -> hd NUL (eol ++ [NUL]) = NUL \/ hd NUL (eol ++ [NUL]) = NEWLINE.
Proof. intros [->| ->]; cbn; auto. Qed.

Lemma parse_definition cfg nm body eol :
  valid_name nm = true -> wordchar (hd NUL body) = true -> no_newline body = true ->
  line_end eol ->
  1 < MAX_NONTERMS cfg -> 1 <= MAX_NESTED_EXPRS cfg ->
  length (line_text nm body ++ eol) < MAX_REGEX_LEN cfg ->
  S (length nm) < MAX_NONTERM_NAME cfg ->
  let buf := line_text nm body ++ eol ++ [NUL] in
  skipn (length nm + 5) buf = body ++ eol ++ [NUL]
  /\ parse cfg (line_text nm body ++ eol) =
     finish_definition cfg
       (parse_body_loop (S (length buf)) cfg buf (length nm + 5) (-1)%Z 0 0 0
                        (body_start cfg nm)).
Proof.
  intros Hnm Hbody Hnl Heol Hn He Hl Hm buf.
  destruct (valid_name_parts nm Hnm) as [Hne Hw].
  assert (H0 : skipn 0 buf
               = "$"%char :: nm ++ [" "%char] ++ ":"%char :: "="%char :: [" "%char]
                  ++ (body ++ eol ++ [NUL])).
  { subst buf. unfold line_text. cbn [skipn chars list_ascii_of_string app].
    repeat (rewrite <- app_assoc; cbn [app]). reflexivity. }
  assert (H1 : skipn (length nm + 5) buf = body ++ eol ++ [NUL]).
  { replace (length nm + 5) with (0 + length ("$"%char :: nm ++ chars " := "))
      by (cbn [length]; rewrite length_app; cbn; lia).
    apply skipn_past. rewrite H0. cbn. now rewrite <- !app_assoc. }
  split; [exact H1|].
  unfold parse. rewrite parse_regex_spec_single; auto; try discriminate.
  2:{ unfold line_text.
      change ("$"%char :: nm ++ chars " := " ++ body)
        with (["$"%char] ++ nm ++ chars " := " ++ body).
      rewrite !no_newline_app, (no_newline_wordchars nm Hw), Hnl. reflexivity. }
  fold buf. set (s0 := with_currentColumn 0 (with_currentLine 1 (initial cfg))).
  unfold parse_regex.
  rewrite (move_while_over isspace buf s0 0 [] _ H0 eq_refl) by reflexivity.
  cbn [length Nat.add]. rewrite (peek_hd buf 0), H0. cbn [hd Ascii.eqb Bool.eqb NUL].
  rewrite (parse_header_new cfg buf 0 _ nm [" "%char] [" "%char] _ H0 Hne Hw eq_refl);
    try (subst s0; cbn; auto; lia); try discriminate.
  2:{ destruct body; [discriminate Hbody|exact Hbody]. }
  cbn [bind length].
  replace (S (S (1 + length nm + 1)) + 1) with (length nm + 5) by lia.
  unfold parse_body, assert, store_nonterm.
  replace (freeExprIdx _ <? MAX_NESTED_EXPRS cfg) with true
    by (symmetry; apply Nat.ltb_lt; subst s0; cbn; lia).
  replace (currentNonterm _ <? MAX_NONTERMS cfg) with true
    by (symmetry; apply Nat.ltb_lt; subst s0; cbn; lia).
  cbn [bind]. unfold finish_definition, fmap.
  change (currentNonterm (with_currentColumn (currentColumn s0 + 0) s0)) with 0.
  change (freeExprIdx (after_header nm 1 1 (with_currentColumn (currentColumn s0 + 0) s0)))
    with 0.
  fold s0. unfold body_start. fold s0. unfold store_nonterm, assert.
  replace (0 <? MAX_NONTERMS cfg) with true by (symmetry; apply Nat.ltb_lt; lia).
  destruct (parse_body_loop _ _ _ _ _ _ _ _ _) as [[[regex prev] s]| | | |];
    cbn [bind]; try reflexivity.
  destruct (_ || _); cbn [bind]; try reflexivity.
  unfold store_expr. destruct (_ <? _); cbn [bind]; reflexivity.
Qed.

(** *** A literal with the star attached: the star is split off *)

Lemma with_currentColumn_eq a b s : a = b -> with_currentColumn a s = with_currentColumn b s.
Proof. now intros ->. Qed.

Lemma parse_operand_starred cfg buf regex res s bl tok rest :
  skipn regex buf = bl ++ tok ++ "*"%char :: rest ->
  forallb blank bl = true -> literal tok = true -> wordchar (hd NUL rest) = false ->
  currentTermStart s + length tok < MAX_TOTAL_TERM_LEN cfg ->
  parse_operand cfg buf regex res s =
  Ok (TERMINAL, Z.of_nat (currentTermStart s), regex + length bl + length tok,
      after_literal (length bl) tok s).
Proof.
  intros H Hbl Hlit Hrest Hfit.
  destruct (literal_parts _ Hlit) as (c & tok' & Etok & Hd & Hb & Hplain).
  assert (Hword : forallb wordchar (tok ++ ["*"%char]) = true).
  { rewrite forallb_app. cbn. rewrite andb_true_r.
    eapply forallb_weaken; [|exact Hplain]. intros a Ha. now apply plain_parts in Ha. }
  assert (Hesc : forallb (fun ch => negb (ch =? "@")%char) tok = true).
  { eapply forallb_weaken; [|exact Hplain]. intros a Ha. apply plain_parts in Ha.
    destruct Ha as (_ & -> & _). reflexivity. }
  pose proof (skipn_past _ _ _ _ H) as H1.
  assert (H1' : skipn (regex + length bl) buf = (tok ++ ["*"%char]) ++ rest)
    by (rewrite H1, <- app_assoc; reflexivity).
  assert (Hc : plain c = true) by (rewrite Etok in Hplain; cbn in Hplain; now apply andb_prop in Hplain).
  destruct (plain_parts _ Hc) as (Hcw & _ & Hcs).
  destruct (wordchar_parts _ Hcw) as (Hc0 & _ & Hcn & Hcb).
  unfold parse_operand.
  rewrite (move_while_over blank buf s regex bl _ H Hbl)
    by (rewrite Etok; cbn; now rewrite Hcb).
  rewrite (peek_hd buf (regex + length bl)), H1, Etok. cbn [hd app].
  rewrite Hc0, Hcn, Hb, Hcs. cbn [orb]. rewrite <- Etok.
  rewrite (move_while_over wordchar buf _ (regex + length bl) _ rest H1' Hword)
    by (destruct rest as [|r rest']; cbn in *; [reflexivity|now rewrite Hrest]).
  rewrite length_app. cbn [length].
  set (n := length tok) in *. set (p := regex + length bl) in *.
  assert (Hn : 1 <= n) by (subst n; rewrite Etok; cbn; lia).
  assert (Hlast : (peek buf (p + (n + 1) - 1) =? "*")%char = true).
  { replace (p + (n + 1) - 1) with (p + n) by lia. rewrite peek_skipn, H1.
    rewrite app_nth2 by (fold n; lia). fold n. now rewrite Nat.sub_diag. }
  assert (Hprev : (peek buf (p + (n + 1) - 2) =? "@")%char = false).
  { replace (p + (n + 1) - 2) with (p + (n - 1)) by lia. rewrite peek_skipn, H1.
    rewrite app_nth1 by (fold n; lia).
    assert (Hk : plain (nth (n - 1) tok NUL) = true)
      by (apply forallb_nth; [assumption|fold n; lia]).
    now apply plain_parts in Hk. }
  rewrite Hlast, Hprev. cbn [andb negb].
  replace (p + (n + 1) - 1 - p) with n by lia.
  rewrite Hd.
  unfold assert.
  replace (currentTermStart _ + n <=? MAX_TOTAL_TERM_LEN cfg) with true
    by (symmetry; apply Nat.leb_le; cbn; lia).
  cbn [bind]. unfold memcpy2.
  rewrite (memcpy2_loop_plain cfg buf (chars "_@|*$") (chars " @|*$") tok
             _ p n _ ("*"%char :: rest) H1 Hesc) by (cbn; fold n; lia).
  cbn [bind]. unfold store_term.
  replace (_ <? MAX_TOTAL_TERM_LEN cfg) with true
    by (symmetry; apply Nat.ltb_lt; cbn; lia).
  cbn [bind]. unfold after_literal. fold n. cbn.
  replace (currentTermStart s + (n + 1) - (n + 1)) with (currentTermStart s) by lia.
  replace (p + (n + 1) - 1) with (p + n) by lia.
  replace (currentColumn s + length bl + (n + 1) - 1)
    with (currentColumn s + length bl + n) by lia.
  reflexivity.
Qed.

(** *** Iterations of the loop of parse_body, for any operand *)

Section Step.
Variables (cfg : Config) (buf : list char) (fuel regex : nat) (op : Z).
Variables (cur curIdx prev : nat) (s : State).
Variables (opType : OperandType) (off : Z) (regex1 : nat) (s1 : State).
Hypothesis Hoperand : parse_operand cfg buf regex op s = Ok (opType, off, regex1, s1).
Hypothesis Hsome : opType <> NOTHING.

Lemma loop_step_plain opCode regex2 col :
  parse_operator buf regex1 s1 = (opCode, regex2, with_currentColumn col s1) ->
  opCode <> ZERO_OR_MORE ->
  cur < MAX_NESTED_EXPRS cfg -> freeExprIdx s1 < MAX_NESTED_EXPRS cfg ->
  parse_body_loop (S fuel) cfg buf regex op cur curIdx prev s =
  parse_body_loop fuel cfg buf regex2 off (freeExprIdx s1) (freeExprIdx s1) cur
                  (after_plain cur opType off s1 opCode col).
Proof.
  intros Hop Hnz Hcur Hcap. cbn [parse_body_loop]. rewrite Hoperand. cbn [bind].
  replace (OperandType_eqb opType NOTHING) with false
    by (destruct opType; try reflexivity; congruence).
  rewrite Hop. unfold store_expr.
  replace (cur <? MAX_NESTED_EXPRS cfg) with true by (symmetry; now apply Nat.ltb_lt).
  cbn [bind].
  replace (OperatorType_eqb opCode ZERO_OR_MORE) with false
    by (destruct opCode; try reflexivity; congruence).
  cbn [bind]. unfold assert. cbn [freeExprIdx with_exprPool with_currentColumn].
  replace (freeExprIdx s1 <? MAX_NESTED_EXPRS cfg) with true
    by (symmetry; now apply Nat.ltb_lt).
  cbn [bind].
  replace (cur <? MAX_NESTED_EXPRS cfg) with true by (symmetry; now apply Nat.ltb_lt).
  cbn [bind]. unfold after_plain, aset. cbn. rewrite Nat.eqb_refl. reflexivity.
Qed.

Lemma loop_step_star regex2 (f2 : nat -> nat) newType regex3 (f3 : nat -> nat) :
  (forall st, parse_operator buf regex1 st
              = (ZERO_OR_MORE, regex2, with_currentColumn (f2 (currentColumn st)) st)) ->
  (forall st, parse_operator buf regex2 st
              = (newType, regex3, with_currentColumn (f3 (currentColumn st)) st)) ->
  cur < MAX_NESTED_EXPRS cfg -> prev < MAX_NESTED_EXPRS cfg ->
  S (freeExprIdx s1) < MAX_NESTED_EXPRS cfg ->
  parse_body_loop (S fuel) cfg buf regex op cur curIdx prev s =
  parse_body_loop fuel cfg buf regex3 off
                  (S (freeExprIdx s1)) (S (freeExprIdx s1)) (freeExprIdx s1)
                  (after_star cur curIdx prev opType off s1 newType
                              (f3 (f2 (currentColumn s1)))).
Proof.
  intros Hop1 Hop2 Hcur Hprev Hcap. cbn [parse_body_loop]. rewrite Hoperand. cbn [bind].
  replace (OperandType_eqb opType NOTHING) with false
    by (destruct opType; try reflexivity; congruence).
  rewrite Hop1. unfold store_expr.
  replace (cur <? MAX_NESTED_EXPRS cfg) with true by (symmetry; now apply Nat.ltb_lt).
  cbn [bind OperatorType_eqb].
  replace (cur <? MAX_NESTED_EXPRS cfg) with true by (symmetry; now apply Nat.ltb_lt).
  cbn [bind]. unfold assert. cbn [freeExprIdx with_exprPool with_currentColumn].
  replace (freeExprIdx s1 <? MAX_NESTED_EXPRS cfg) with true
    by (symmetry; apply Nat.ltb_lt; lia).
  cbn [bind]. rewrite Hop2.
  cbn [freeExprIdx with_exprPool with_currentColumn].
  replace (freeExprIdx s1 <? MAX_NESTED_EXPRS cfg) with true
    by (symmetry; apply Nat.ltb_lt; lia).
  cbn [bind].
  replace (prev <? MAX_NESTED_EXPRS cfg) with true by (symmetry; now apply Nat.ltb_lt).
  cbn [bind freeExprIdx with_exprPool with_currentColumn with_freeExprIdx].
  replace (S (freeExprIdx s1) <? MAX_NESTED_EXPRS cfg) with true
    by (symmetry; now apply Nat.ltb_lt).
  cbn [bind].
  replace (freeExprIdx s1 <? MAX_NESTED_EXPRS cfg) with true
    by (symmetry; apply Nat.ltb_lt; lia).
  cbn [bind]. reflexivity.
Qed.

End Step.

(** *** memcpy2 on a token with one escape sequence *)

Lemma memcpy2_loop_prefix cfg buf te tp k : forall t dest src copied s rest,
  skipn src buf = t ++ rest -> unescaped t = true ->
  dest + length t <= MAX_TOTAL_TERM_LEN cfg ->
  memcpy2_loop cfg buf "@"%char te tp (length t + k) dest src copied s =
  memcpy2_loop cfg buf "@"%char te tp k (dest + length t) (src + length t) copied
               (with_termPool (write t dest (termPool s)) s).
Proof.
  induction t as [|c t IH]; intros dest src copied s rest H Hp Hfit;
    cbn [length write Nat.add].
  - now rewrite !Nat.add_0_r, with_termPool_same.
  - cbn in Hp, Hfit. apply andb_prop in Hp. destruct Hp as [Hc Ht].
    cbn [memcpy2_loop]. unfold load. pose proof (skipn_lt _ _ _ _ H) as Hlt.
    apply Nat.ltb_lt in Hlt. rewrite Hlt. cbn [bind].
    rewrite (peek_hd buf src), H. cbn [hd app].
    apply negb_true_iff in Hc. rewrite Hc.
    unfold store_term. replace (dest <? MAX_TOTAL_TERM_LEN cfg) with true
      by (symmetry; apply Nat.ltb_lt; lia).
    cbn [bind]. rewrite (IH (S dest) (S src) copied _ rest); auto.
    + now rewrite !Nat.add_succ_r.
    + change (S src) with (1 + src). rewrite <- skipn_skipn, H. reflexivity.
    + lia.
Qed.

(** A token [t1 @ c t2]: the byte kept for the pair [@ c] is [c] itself,
    and the loop runs one byte past the end of the token. *)
Lemma memcpy2_one_escape cfg buf t1 c t2 d rest dest src s k :
  skipn src buf = t1 ++ "@"%char :: c :: t2 ++ d :: rest ->
  unescaped t1 = true -> unescaped (t2 ++ [d]) = true ->
  strchr (chars "_@|*$") c = Some k ->
  dest + (length t1 + 2 + length t2) <= MAX_TOTAL_TERM_LEN cfg ->
  memcpy2 cfg buf dest src (length t1 + 2 + length t2) "@"%char
          (chars "_@|*$") (chars " @|*$") s =
  Ok (length t1 + 2 + length t2 - 1,
      with_termPool (write (t1 ++ c :: t2 ++ [d]) dest (termPool s)) s).
Proof.
  intros H H1 H2 Hc Hfit. unfold memcpy2.
  replace (length t1 + 2 + length t2) with (length t1 + S (length (t2 ++ [d])))
    by (rewrite length_app; cbn; lia).
  rewrite (memcpy2_loop_prefix cfg buf _ _ _ t1 dest src _ s _ H H1) by lia.
  pose proof (skipn_past _ _ _ _ H) as Ha.
  cbn [memcpy2_loop]. unfold load.
  rewrite (proj2 (Nat.ltb_lt _ _) (skipn_lt _ _ _ _ Ha)). cbn [bind].
  rewrite (peek_hd buf (src + length t1)), Ha. cbn [hd Ascii.eqb Bool.eqb].
  replace (length (t2 ++ [d]) <=? 0) with false
    by (rewrite length_app; cbn; symmetry; apply Nat.leb_gt; lia).
  assert (Hb : skipn (S (src + length t1)) buf = c :: t2 ++ d :: rest).
  { change (S ?p) with (1 + p). rewrite <- skipn_skipn, Ha. reflexivity. }
  rewrite (proj2 (Nat.ltb_lt _ _) (skipn_lt _ _ _ _ Hb)). cbn [bind].
  rewrite (peek_hd buf (S (src + length t1))), Hb. cbn [hd]. rewrite Hc.
  unfold store_term.
  replace (dest + length t1 <? MAX_TOTAL_TERM_LEN cfg) with true
    by (symmetry; apply Nat.ltb_lt; lia).
  cbn [bind].
  assert (Hd : skipn (S (S (src + length t1))) buf = (t2 ++ [d]) ++ rest).
  { change (S (S ?p)) with (2 + p). rewrite <- skipn_skipn, Ha. cbn.
    now rewrite <- app_assoc. }
  rewrite (memcpy2_loop_plain cfg buf _ _ (t2 ++ [d]) _ _ _ _ rest Hd H2)
    by (cbn; rewrite length_app; cbn; lia).
  do 2 f_equal. unfold with_termPool. cbn. f_equal.
  clear. revert dest. generalize (termPool s).
  induction t1 as [|a t1 IH]; intros pool dest; cbn [app write length].
  - now rewrite Nat.add_0_r.
  - rewrite <- IH. now rewrite Nat.add_succ_r.
Qed.

(** *** parse_operand on a literal with one escape sequence *)

Lemma forallb_plain_wordchar l : forallb plain l = true -> forallb wordchar l = true.
Proof. apply forallb_weaken. intros a Ha. now apply plain_parts in Ha. Qed.

Lemma forallb_plain_unescaped l : forallb plain l = true -> unescaped l = true.
Proof.
  apply forallb_weaken. intros a Ha. apply plain_parts in Ha.
  destruct Ha as (_ & -> & _). reflexivity.
Qed.

Lemma parse_operand_escaped cfg buf regex res s bl t1 c t2 d rest k :
  skipn regex buf = bl ++ (t1 ++ "@"%char :: c :: t2) ++ d :: rest ->
  forallb blank bl = true -> literal t1 = true -> forallb plain t2 = true ->
  wordchar c = true -> strchr (chars "_@|*$") c = Some k ->
  wordchar d = false ->
  currentTermStart s + (length t1 + 2 + length t2) <= MAX_TOTAL_TERM_LEN cfg ->
  parse_operand cfg buf regex res s =
  Ok (TERMINAL, Z.of_nat (currentTermStart s),
      regex + length bl + (length t1 + 2 + length t2),
      after_escaped (length bl) t1 c t2 d s).
Proof.
  intros H Hbl Hlit Ht2 Hcw Hc Hd Hfit.
  destruct (literal_parts _ Hlit) as (a & t1' & Et1 & Ha1 & Ha2 & Hplain).
  set (tok := t1 ++ "@"%char :: c :: t2) in *.
  assert (Hlen : length tok = length t1 + 2 + length t2)
    by (subst tok; rewrite length_app; cbn; lia).
  assert (Hword : forallb wordchar tok = true).
  { subst tok. rewrite forallb_app. cbn [forallb].
    rewrite (forallb_plain_wordchar _ Hplain), (forallb_plain_wordchar _ Ht2), Hcw.
    reflexivity. }
  pose proof (skipn_past _ _ _ _ H) as H1.
  assert (Hac : plain a = true)
    by (rewrite Et1 in Hplain; cbn in Hplain; now apply andb_prop in Hplain).
  destruct (plain_parts _ Hac) as (Haw & _ & Has).
  destruct (wordchar_parts _ Haw) as (Ha0 & _ & Han & Hab).
  assert (Htok : hd NUL (tok ++ d :: rest) = a) by (subst tok; rewrite Et1; reflexivity).
  unfold parse_operand.
  rewrite (move_while_over blank buf s regex bl _ H Hbl)
    by (destruct (tok ++ d :: rest); cbn in *; [reflexivity|subst; now rewrite Hab]).
  rewrite (peek_hd buf (regex + length bl)), H1, Htok.
  rewrite Ha0, Han, Ha2, Has. cbn [orb].
  rewrite (move_while_over wordchar buf _ (regex + length bl) tok _ H1 Hword)
    by (cbn; now rewrite Hd).
  rewrite Hlen. set (n := length t1 + 2 + length t2) in *.
  set (p := regex + length bl) in *.
  assert (Hnosplit : (peek buf (p + n - 1) =? "*")%char
                     && negb (peek buf (p + n - 2) =? "@")%char = false).
  { destruct (Nat.eq_dec (length t2) 0) as [E|E].
    - replace (p + n - 2) with (p + length t1) by (subst n; lia).
      rewrite (peek_skipn buf p (length t1)), H1. subst tok.
      rewrite <- app_assoc, app_nth2, Nat.sub_diag by lia. cbn. apply andb_false_r.
    - replace (p + n - 1) with (p + (length t1 + 2 + (length t2 - 1))) by (subst n; lia).
      rewrite (peek_skipn buf p _), H1. subst tok.
      rewrite <- app_assoc, app_nth2 by lia.
      replace (length t1 + 2 + (length t2 - 1) - length t1) with (2 + (length t2 - 1)) by lia.
      cbn [Nat.add nth app].
      rewrite app_nth1 by lia.
      assert (Hk : plain (nth (length t2 - 1) t2 NUL) = true)
        by (apply forallb_nth; [assumption|lia]).
      apply plain_parts in Hk. destruct Hk as (_ & _ & ->). reflexivity. }
  rewrite Hnosplit.
  replace (p + n - p) with n by lia.
  rewrite Ha1.
  unfold assert.
  replace (currentTermStart _ + n <=? MAX_TOTAL_TERM_LEN cfg) with true
    by (symmetry; apply Nat.leb_le; cbn; lia).
  cbn [bind].
  assert (Hdu : unescaped (t2 ++ [d]) = true).
  { unfold unescaped. rewrite forallb_app. fold (unescaped t2).
    rewrite (forallb_plain_unescaped _ Ht2). cbn.
    destruct (Ascii.eqb_spec d "@"%char) as [->|]; [discriminate Hd|reflexivity]. }
  assert (H1' : skipn p buf = t1 ++ "@"%char :: c :: t2 ++ d :: rest)
    by (rewrite H1; subst tok; now rewrite <- app_assoc).
  subst n.
  rewrite (memcpy2_one_escape cfg buf t1 c t2 d rest _ p _ k H1'
             (forallb_plain_unescaped _ Hplain) Hdu Hc) by (cbn; lia).
  cbn [bind]. unfold store_term.
  replace (_ <? MAX_TOTAL_TERM_LEN cfg) with true
    by (symmetry; apply Nat.ltb_lt; cbn; lia).
  cbn [bind]. unfold after_escaped. cbn.
  replace (currentTermStart s + (length t1 + 2 + length t2 + 1) - (length t1 + 2 + length t2 + 1))
    with (currentTermStart s) by lia.
  reflexivity.
Qed.

Lemma write_app t1 t2 : forall dest pool,
  write (t1 ++ t2) dest pool = write t2 (dest + length t1) (write t1 dest pool).
Proof.
  induction t1 as [|a t1 IH]; intros dest pool; cbn [app write length].
  - now rewrite Nat.add_0_r.
  - rewrite IH. now rewrite Nat.add_succ_r.
Qed.

Lemma termPool_after_escaped bl t1 c t2 d s :
  map (termPool (after_escaped bl t1 c t2 d s))
      (seq (currentTermStart s) (length t1 + 2 + length t2 + 1))
  = (t1 ++ c :: t2) ++ [NUL; termPool s (currentTermStart s + (length t1 + 2 + length t2))].
Proof.
  set (n := length t1 + 2 + length t2).
  assert (Hn : n - 1 = length (t1 ++ c :: t2)) by (rewrite length_app; cbn; lia).
  replace (n + 1) with (length (t1 ++ c :: t2) + 2) by lia.
  rewrite seq_app, map_app. f_equal.
  - transitivity (map (write (t1 ++ c :: t2) (currentTermStart s) (termPool s))
                      (seq (currentTermStart s) (length (t1 ++ c :: t2))));
      [|apply write_read].
    apply map_seq_ext. intros j Hj. cbn. fold n. unfold aset.
    destruct (Nat.eqb_spec j (currentTermStart s + (n - 1))); [lia|].
    replace (t1 ++ c :: t2 ++ [d]) with ((t1 ++ c :: t2) ++ [d])
      by (now rewrite <- app_assoc).
    rewrite write_app. cbn [write]. unfold aset.
    destruct (Nat.eqb_spec j (currentTermStart s + length (t1 ++ c :: t2))); [lia|].
    reflexivity.
  - cbn [seq map]. cbn. fold n. unfold aset. rewrite <- Hn, Nat.eqb_refl.
    destruct (Nat.eqb_spec (S (currentTermStart s + (n - 1))) (currentTermStart s + (n - 1)));
      [lia|].
    rewrite write_above; [do 3 f_equal; lia|].
    rewrite !length_app. cbn. rewrite length_app. cbn. lia.
Qed.

(** ** Bodies without a star: literals joined by juxtaposition or by a bar *)

Lemma literal_hd y :
  literal y = true ->
  wordchar (hd NUL y) = true /\ (hd NUL y =? "|")%char = false
  /\ (hd NUL y =? "*")%char = false.
Proof.
  intro H. destruct (literal_parts _ H) as (c & y' & -> & _ & Hb & Hp).
  cbn in Hp |- *. apply andb_prop in Hp. destruct Hp as [Hc _].
  apply plain_parts in Hc. tauto.
Qed.

Lemma hd_body_text x rest : x <> [] -> hd NUL (body_text x rest) = hd NUL x.
Proof. destruct x; [congruence|]. destruct rest as [|[j y] rest]; reflexivity. Qed.

Lemma hd_body_text_app x rest tail :
  x <> [] -> hd NUL (body_text x rest ++ tail) = hd NUL x.
Proof. destruct x; [congruence|]. destruct rest as [|[j y] rest]; reflexivity. Qed.

Lemma literal_nonempty x : literal x = true -> x <> [].
Proof. destruct x; [discriminate|congruence]. Qed.

Lemma freeExprIdx_chain_state rest : forall cur bl x s,
  freeExprIdx (chain_state cur bl x rest s) = freeExprIdx s + S (length rest).
Proof.
  induction rest as [|[[|] y] rest IH]; intros cur bl x s; cbn [chain_state length].
  - cbn. lia.
  - rewrite IH. cbn. lia.
  - rewrite IH. cbn. lia.
Qed.

Lemma currentTermStart_chain_state rest : forall cur bl x s,
  currentTermStart (chain_state cur bl x rest s)
  = currentTermStart s + length (term_bytes x rest).
Proof.
  induction rest as [|[[|] y] rest IH]; intros cur bl x s; cbn [chain_state term_bytes].
  - cbn. rewrite length_app. reflexivity.
  - rewrite IH. cbn. rewrite length_app. cbn. lia.
  - rewrite IH. cbn. rewrite length_app. cbn. lia.
Qed.

Lemma parse_body_loop_chain cfg buf tail : forall rest fuel regex op cur curIdx prev s bl x,
  skipn regex buf = bl ++ body_text x rest ++ tail ->
  hd NUL tail = NUL \/ hd NUL tail = NEWLINE ->
  forallb blank bl = true -> literal x = true -> literals rest = true ->
  currentTermStart s + length (term_bytes x rest) <= MAX_TOTAL_TERM_LEN cfg ->
  cur < freeExprIdx s -> freeExprIdx s + length rest < MAX_NESTED_EXPRS cfg ->
  length rest + 2 <= fuel ->
  exists regex' col,
    parse_body_loop fuel cfg buf regex op cur curIdx prev s =
    Ok (regex', chain_last cur rest s,
        with_currentColumn col (chain_state cur (length bl) x rest s)).
Proof.
  induction rest as [|[j y] rest IH];
    intros fuel regex op cur curIdx prev s bl x H Htail Hbl Hx Hrest Hfit Hcur Hcap Hfuel.
  - destruct fuel as [|[|fuel]]; cbn in Hfuel; try lia.
    cbn [body_text] in H. cbn [term_bytes] in Hfit. rewrite length_app in Hfit. cbn in Hfit.
    assert (Htw : wordchar (hd NUL tail) = false) by (destruct Htail as [->| ->]; reflexivity).
    pose proof (skipn_past _ _ _ _ H) as H1. pose proof (skipn_past _ _ _ _ H1) as H2.
    rewrite (loop_step_literal cfg buf (S fuel) regex op cur curIdx prev s bl x tail NO_OP
               (regex + length bl + length x + 0)
               (currentColumn (after_literal (length bl) x s) + 0) H Hbl Hx Htw);
      try lia; try discriminate.
    + rewrite Nat.add_0_r in *.
      rewrite (loop_exit cfg buf fuel _ _ _ _ _ _ tail H2 Htail).
      eexists _, _. reflexivity.
    + apply (parse_operator_end buf _ _ [] tail); auto.
  - destruct fuel as [|fuel]; cbn in Hfuel; try lia.
    cbn [literals forallb snd] in Hrest. apply andb_prop in Hrest. destruct Hrest as [Hy Hrest].
    fold (literals rest) in Hrest.
    cbn [body_text] in H. cbn [term_bytes] in Hfit. rewrite length_app in Hfit.
    cbn [length] in Hfit, Hcap.
    destruct (literal_hd _ Hy) as (Hyw & Hyb & Hys).
    pose proof (literal_nonempty _ Hy) as Hyne.
    rewrite <- !app_assoc in H.
    pose proof (skipn_past _ _ _ _ H) as H1. pose proof (skipn_past _ _ _ _ H1) as H2.
    destruct j; cbn [joiner_text chars list_ascii_of_string app] in H, H1, H2.
    + (* x y *)
      rewrite (loop_step_literal cfg buf fuel regex op cur curIdx prev s bl x _ AND
                 (regex + length bl + length x + 1)
                 (currentColumn (after_literal (length bl) x s) + 1) H Hbl Hx eq_refl);
        try lia; try discriminate.
      * assert (H3 : skipn (regex + length bl + length x + 1) buf
                     = [] ++ body_text y rest ++ tail).
        { rewrite Nat.add_comm, <- skipn_skipn, H2. reflexivity. }
        destruct (IH fuel (regex + length bl + length x + 1)
                    (Z.of_nat (currentTermStart s)) (freeExprIdx s) (freeExprIdx s) cur
                    (after_link cur AND (currentColumn (after_literal (length bl) x s) + 1)
                                (length bl) x s) [] y H3 Htail eq_refl Hy Hrest)
          as (regex' & col & ->); cbn; try lia.
        exists regex', col. cbn [chain_state chain_last]. do 3 f_equal.
        destruct rest; cbn; lia.
      * apply (parse_operator_and buf _ _ [" "%char] (body_text y rest ++ tail) H2 eq_refl).
        -- now rewrite hd_body_text_app.
        -- now rewrite hd_body_text_app.
        -- now rewrite hd_body_text_app.
    + (* x | y *)
      rewrite (loop_step_literal cfg buf fuel regex op cur curIdx prev s bl x _ OR
                 (S (regex + length bl + length x + 1))
                 (S (currentColumn (after_literal (length bl) x s) + 1)) H Hbl Hx eq_refl);
        try lia; try discriminate.
      * assert (H3 : skipn (S (regex + length bl + length x + 1)) buf
                     = [" "%char] ++ body_text y rest ++ tail).
        { replace (S (regex + length bl + length x + 1))
            with (2 + (regex + length bl + length x)) by lia.
          rewrite <- skipn_skipn, H2. reflexivity. }
        destruct (IH fuel (S (regex + length bl + length x + 1))
                    (Z.of_nat (currentTermStart s)) (freeExprIdx s) (freeExprIdx s) cur
                    (after_link cur OR (S (currentColumn (after_literal (length bl) x s) + 1))
                                (length bl) x s) [" "%char] y H3 Htail eq_refl Hy Hrest)
          as (regex' & col & ->); cbn; try lia.
        exists regex', col. cbn [chain_state chain_last]. do 3 f_equal.
        destruct rest; cbn; lia.
      * apply (parse_operator_or buf _ _ [" "%char] _ H2 eq_refl). reflexivity.
Qed.

(** *** What [chain_state] holds *)

Lemma nonterms_chain_state rest : forall cur bl x s,
  nonterms (chain_state cur bl x rest s) = nonterms s
  /\ currentNonterm (chain_state cur bl x rest s) = currentNonterm s
  /\ currentLine (chain_state cur bl x rest s) = currentLine s
  /\ warnings (chain_state cur bl x rest s) = warnings s.
Proof.
  induction rest as [|[[|] y] rest IH]; intros cur bl x s; cbn [chain_state].
  - now cbn.
  - destruct (IH (freeExprIdx s) 0 y
                (after_link cur AND (currentColumn (after_literal bl x s) + 1) bl x s))
      as (-> & -> & -> & ->). now cbn.
  - destruct (IH (freeExprIdx s) 1 y
                (after_link cur OR (S (currentColumn (after_literal bl x s) + 1)) bl x s))
      as (-> & -> & -> & ->). now cbn.
Qed.

Lemma exprPool_after_link cur opCode col bl x s j :
  exprPool (after_link cur opCode col bl x s) j =
  if j =? cur
  then Node opCode (TERMINAL, Z.of_nat (currentTermStart s))
            (NESTED_EXPRESSION, Z.of_nat (freeExprIdx s))
  else exprPool s j.
Proof. cbn. unfold aset. now destruct (j =? cur). Qed.

Lemma termPool_after_link cur opCode col bl x s j :
  termPool (after_link cur opCode col bl x s) j =
  if j =? currentTermStart s + length x then NUL
  else write x (currentTermStart s) (termPool s) j.
Proof. cbn. unfold aset. reflexivity. Qed.

Lemma exprPool_chain_state_below rest : forall cur bl x s j,
  cur < freeExprIdx s -> j < cur ->
  exprPool (chain_state cur bl x rest s) j = exprPool s j.
Proof.
  induction rest as [|[[|] y] rest IH]; intros cur bl x s j Hcur Hj; cbn [chain_state].
  - rewrite exprPool_after_link. destruct (Nat.eqb_spec j cur); [lia|reflexivity].
  - rewrite IH by (cbn; lia). rewrite exprPool_after_link.
    destruct (Nat.eqb_spec j cur); [lia|reflexivity].
  - rewrite IH by (cbn; lia). rewrite exprPool_after_link.
    destruct (Nat.eqb_spec j cur); [lia|reflexivity].
Qed.

Lemma exprPool_chain_state rest : forall cur bl x s,
  freeExprIdx s = S cur ->
  map (exprPool (chain_state cur bl x rest s)) (seq cur (S (length rest)))
  = linked_nodes cur (currentTermStart s) x rest.
Proof.
  induction rest as [|[[|] y] rest IH]; intros cur bl x s Hfree;
    cbn [chain_state length seq map linked_nodes joiner_op].
  - rewrite exprPool_after_link, Nat.eqb_refl, Hfree. reflexivity.
  - rewrite exprPool_chain_state_below by (cbn; lia).
    rewrite exprPool_after_link, Nat.eqb_refl, Hfree. f_equal.
    specialize (IH (S cur) 0 y (after_link cur AND (currentColumn (after_literal bl x s) + 1) bl x s)).
    cbn [length seq map] in IH. rewrite IH by (cbn; lia).
    f_equal. cbn. lia.
  - rewrite exprPool_chain_state_below by (cbn; lia).
    rewrite exprPool_after_link, Nat.eqb_refl, Hfree. f_equal.
    specialize (IH (S cur) 1 y (after_link cur OR (S (currentColumn (after_literal bl x s) + 1)) bl x s)).
    cbn [length seq map] in IH. rewrite IH by (cbn; lia).
    f_equal. cbn. lia.
Qed.

Lemma termPool_chain_state_below rest : forall cur bl x s j,
  j < currentTermStart s ->
  termPool (chain_state cur bl x rest s) j = termPool s j.
Proof.
  induction rest as [|[[|] y] rest IH]; intros cur bl x s j Hj; cbn [chain_state].
  - rewrite termPool_after_link, write_below by lia.
    destruct (Nat.eqb_spec j (currentTermStart s + length x)); [lia|reflexivity].
  - rewrite IH by (cbn; lia). rewrite termPool_after_link, write_below by lia.
    destruct (Nat.eqb_spec j (currentTermStart s + length x)); [lia|reflexivity].
  - rewrite IH by (cbn; lia). rewrite termPool_after_link, write_below by lia.
    destruct (Nat.eqb_spec j (currentTermStart s + length x)); [lia|reflexivity].
Qed.

Lemma termPool_literal_bytes cur opCode col bl x s :
  map (termPool (after_link cur opCode col bl x s))
      (seq (currentTermStart s) (length x + 1)) = x ++ [NUL].
Proof.
  rewrite seq_app, map_app. f_equal.
  - transitivity (map (write x (currentTermStart s) (termPool s))
                      (seq (currentTermStart s) (length x))); [|apply write_read].
    apply map_seq_ext. intros j Hj. rewrite termPool_after_link.
    destruct (Nat.eqb_spec j (currentTermStart s + length x)); [lia|reflexivity].
  - cbn [seq map]. rewrite termPool_after_link, Nat.eqb_refl. reflexivity.
Qed.

Lemma termPool_chain_state rest : forall cur bl x s,
  map (termPool (chain_state cur bl x rest s))
      (seq (currentTermStart s) (length (term_bytes x rest)))
  = term_bytes x rest.
Proof.
  induction rest as [|[j y] rest IH]; intros cur bl x s; cbn [term_bytes].
  - rewrite length_app. cbn [chain_state length]. apply termPool_literal_bytes.
  - change (x ++ NUL :: term_bytes y rest) with (x ++ [NUL] ++ term_bytes y rest).
    rewrite app_assoc, length_app, seq_app, map_app. f_equal.
    + rewrite length_app. cbn [length].
      destruct j; cbn [chain_state];
        (erewrite map_seq_ext;
         [apply termPool_literal_bytes
         |intros k Hk; apply termPool_chain_state_below; cbn; lia]).
    + rewrite length_app. cbn [length].
      destruct j; cbn [chain_state].
      * specialize (IH (freeExprIdx s) 0 y
                      (after_link cur AND (currentColumn (after_literal bl x s) + 1) bl x s)).
        cbn [currentTermStart after_link with_freeExprIdx with_exprPool with_currentColumn
             after_literal with_currentTermStart] in IH. exact IH.
      * specialize (IH (freeExprIdx s) 1 y
                      (after_link cur OR (S (currentColumn (after_literal bl x s) + 1)) bl x s)).
        cbn [currentTermStart after_link with_freeExprIdx with_exprPool with_currentColumn
             after_literal with_currentTermStart] in IH. exact IH.
Qed.

Lemma exprPool_chain_state_last rest : forall cur bl x s,
  freeExprIdx s = S cur ->
  type (exprPool (chain_state cur bl x rest s) (cur + length rest)) = NO_OP.
Proof.
  induction rest as [|[[|] y] rest IH]; intros cur bl x s Hfree; cbn [chain_state length].
  - rewrite (Nat.add_0_r cur), exprPool_after_link, Nat.eqb_refl. reflexivity.
  - rewrite Hfree. replace (cur + S (length rest)) with (S cur + length rest) by lia.
    apply IH. cbn. lia.
  - rewrite Hfree. replace (cur + S (length rest)) with (S cur + length rest) by lia.
    apply IH. cbn. lia.
Qed.

Lemma chain_nodes_finished rest : forall cur bl x s,
  freeExprIdx s = S cur ->
  map (aset (exprPool (chain_state cur bl x rest s)) (cur + length rest)
            (set_op2 (-1) NOTHING (exprPool (chain_state cur bl x rest s) (cur + length rest))))
      (seq cur (S (length rest)))
  = chain_nodes cur (currentTermStart s) x rest.
Proof.
  induction rest as [|[j y] rest IH]; intros cur bl x s Hfree.
  - cbn [length seq map chain_nodes chain_state]. rewrite (Nat.add_0_r cur).
    unfold aset at 1. rewrite Nat.eqb_refl, exprPool_after_link, Nat.eqb_refl. reflexivity.
  - cbn [length chain_nodes]. change (seq cur (S (S (length rest))))
      with (cur :: seq (S cur) (S (length rest))). cbn [map]. f_equal.
    + unfold aset. destruct (Nat.eqb_spec cur (cur + S (length rest))); [lia|].
      destruct j; cbn [chain_state joiner_op];
        rewrite exprPool_chain_state_below by (cbn; lia);
        rewrite exprPool_after_link, Nat.eqb_refl, Hfree; reflexivity.
    + replace (cur + S (length rest)) with (S cur + length rest) by lia.
      destruct j; cbn [chain_state]; rewrite Hfree; rewrite IH by (cbn; lia);
        f_equal; cbn; lia.
Qed.

Lemma length_body_text x rest :
  literal x = true -> literals rest = true -> S (length rest) <= length (body_text x rest).
Proof.
  revert x. induction rest as [|[j y] rest IH]; intros x Hx Hrest; cbn [body_text length].
  - destruct x; [discriminate|cbn; lia].
  - cbn [literals forallb snd] in Hrest. apply andb_prop in Hrest. destruct Hrest as [Hy Hrest].
    specialize (IH y Hy Hrest). rewrite !length_app. destruct j; cbn; lia.
Qed.

Theorem parse_body_chain cfg buf regex i s x rest tail :
  skipn regex buf = body_text x rest ++ tail ->
  hd NUL tail = NUL \/ hd NUL tail = NEWLINE ->
  literal x = true -> literals rest = true ->
  i < MAX_NONTERMS cfg ->
  currentTermStart s + length (term_bytes x rest) <= MAX_TOTAL_TERM_LEN cfg ->
  freeExprIdx s + length rest + 1 < MAX_NESTED_EXPRS cfg ->
  exists regex' s',
    parse_body cfg buf regex i s = Ok (regex', s')
    /\ body_parsed i (chain_nodes (freeExprIdx s) (currentTermStart s) x rest)
                   (term_bytes x rest) s s'.
Proof.
  intros H Htail Hx Hrest Hi Hfit Hcap.
  unfold parse_body, assert, store_nonterm.
  replace (freeExprIdx s <? MAX_NESTED_EXPRS cfg) with true by (symmetry; apply Nat.ltb_lt; lia).
  replace (i <? MAX_NONTERMS cfg) with true by (symmetry; apply Nat.ltb_lt; lia).
  cbn [bind].
  set (s1 := with_freeExprIdx _ _).
  assert (Hlen : length rest + 2 <= S (length buf)).
  { pose proof (length_body_text x rest Hx Hrest) as Hb.
    assert (length (skipn regex buf) <= length buf) by (rewrite length_skipn; lia).
    rewrite H, length_app in *. lia. }
  destruct (parse_body_loop_chain cfg buf tail rest (S (length buf)) regex (-1)%Z
              (freeExprIdx s) (freeExprIdx s) (freeExprIdx s) s1 [] x H Htail eq_refl Hx Hrest)
    as (regex' & col & ->); try (subst s1; cbn; lia).
  cbn [bind length].
  assert (Hfree1 : freeExprIdx s1 = S (freeExprIdx s)) by reflexivity.
  assert (Hlast : chain_last (freeExprIdx s) rest s1 = freeExprIdx s + length rest)
    by (destruct rest; cbn; lia).
  rewrite Hlast.
  change (exprPool (with_currentColumn col ?t)) with (exprPool t).
  rewrite (exprPool_chain_state_last rest (freeExprIdx s) 0 x s1 Hfree1).
  cbn [OperatorType_eqb orb bind]. unfold store_expr.
  replace (freeExprIdx s + length rest <? MAX_NESTED_EXPRS cfg) with true
    by (symmetry; apply Nat.ltb_lt; lia).
  cbn [bind]. eexists _, _. split; [reflexivity|].
  destruct (nonterms_chain_state rest (freeExprIdx s) 0 x s1) as (Hn & Hc & Hl & Hw).
  unfold body_parsed. cbn [nonterms currentNonterm currentLine warnings with_exprPool
    with_freeExprIdx with_currentColumn].
  rewrite Hn, Hc, Hl, Hw. repeat split.
  - cbn [tables exprTable exprPool freeExprIdx with_exprPool with_freeExprIdx
         with_currentColumn].
    rewrite freeExprIdx_chain_state, Hfree1.
    replace (S (freeExprIdx s) + S (length rest) - 1)
      with (freeExprIdx s + S (length rest)) by lia.
    rewrite seq_app, map_app. f_equal.
    + apply map_seq_ext. intros j Hj. unfold aset.
      destruct (Nat.eqb_spec j (freeExprIdx s + length rest)); [lia|].
      rewrite exprPool_chain_state_below by (cbn; lia). reflexivity.
    + cbn [Nat.add]. apply (chain_nodes_finished rest (freeExprIdx s) 0 x s1 Hfree1).
  - cbn [tables termTable termPool currentTermStart with_exprPool with_freeExprIdx
         with_currentColumn].
    rewrite currentTermStart_chain_state.
    change (currentTermStart s1) with (currentTermStart s).
    rewrite seq_app, map_app. f_equal.
    + apply map_seq_ext. intros j Hj.
      rewrite termPool_chain_state_below by (cbn; lia). reflexivity.
    + cbn [Nat.add]. apply (termPool_chain_state rest (freeExprIdx s) 0 x s1).
Qed.

(** *** A whole line [$name := x j1 y1 ...] *)

Theorem parse_regex_chain cfg buf s nm x rest tail :
  buf = definition_text nm x rest ++ tail ->
  hd NUL tail = NUL \/ hd NUL tail = NEWLINE ->
  valid_name nm = true -> literal x = true -> literals rest = true ->
  (forall j, j < currentNonterm s -> name (nonterms s j) <> "$"%char :: nm) ->
  S (currentNonterm s) < MAX_NONTERMS cfg ->
  S (length nm) < MAX_NONTERM_NAME cfg ->
  currentTermStart s + length (term_bytes x rest) <= MAX_TOTAL_TERM_LEN cfg ->
  freeExprIdx s + length rest + 1 < MAX_NESTED_EXPRS cfg ->
  exists s',
    parse_regex cfg buf s = Ok s'
    /\ currentLine s' = currentLine s /\ warnings s' = warnings s
    /\ tables s' =
       {| nontermTable :=
            nontermTable (tables s)
            ++ [ {| name := "$"%char :: nm; idx := Z.of_nat (currentNonterm s);
                    expr := Z.of_nat (freeExprIdx s); complete := true |} ];
          exprTable :=
            exprTable (tables s) ++ chain_nodes (freeExprIdx s) (currentTermStart s) x rest;
          termTable := termTable (tables s) ++ term_bytes x rest |}.
Proof.
  intros Hbuf Htail Hnm Hx Hrest Hfresh Hcn Hcm Hct Hce.
  destruct (valid_name_parts nm Hnm) as [Hne Hw].
  destruct (literal_hd x Hx) as (Hxw & _ & _).
  pose proof (literal_nonempty x Hx) as Hxne.
  assert (H0 : skipn 0 buf
               = "$"%char :: nm ++ [" "%char] ++ ":"%char :: "="%char :: [" "%char]
                  ++ (body_text x rest ++ tail)).
  { rewrite Hbuf. unfold definition_text, line_text. cbn [skipn chars list_ascii_of_string app].
    now rewrite <- !app_assoc. }
  unfold parse_regex.
  rewrite (move_while_over isspace buf s 0 [] _ H0 eq_refl) by reflexivity.
  cbn [length Nat.add]. rewrite (peek_hd buf 0), H0. cbn [hd Ascii.eqb Bool.eqb NUL].
  set (s0 := with_currentColumn (currentColumn s + 0) s).
  rewrite (parse_header_new cfg buf 0 s0 nm [" "%char] [" "%char] (body_text x rest ++ tail) H0
             Hne Hw eq_refl); try (subst s0; cbn; auto; lia); try discriminate.
  2: now rewrite hd_body_text_app.
  cbn [bind length].
  set (sh := after_header nm 1 1 s0).
  assert (H1 : skipn (S (S (1 + length nm + 1)) + 1) buf = body_text x rest ++ tail).
  { replace (S (S (1 + length nm + 1)) + 1) with (0 + length ("$"%char :: nm ++ chars " := "))
      by (cbn [length]; rewrite length_app; cbn; lia).
    apply skipn_past. rewrite H0. cbn. now rewrite <- !app_assoc. }
  destruct (parse_body_chain cfg buf _ (currentNonterm s0) sh x rest tail H1 Htail Hx Hrest)
    as (regex' & sb & -> & Hn & Hc & Hl & Hwn & He & Ht);
    try (subst sh s0; cbn; lia).
  cbn [bind]. unfold store_nonterm.
  replace (currentNonterm s0 <? MAX_NONTERMS cfg) with true
    by (symmetry; apply Nat.ltb_lt; subst s0; cbn; lia).
  eexists. split; [reflexivity|].
  cbn [currentLine warnings with_nonterms]. rewrite Hl, Hwn.
  split; [reflexivity|]. split; [reflexivity|].
  unfold tables at 1.
  cbn [nonterms currentNonterm exprPool freeExprIdx termPool currentTermStart with_nonterms].
  change (map (exprPool sb) (seq 0 (freeExprIdx sb))) with (exprTable (tables sb)).
  change (map (termPool sb) (seq 0 (currentTermStart sb))) with (termTable (tables sb)).
  rewrite He, Ht, Hc, Hn. f_equal.
  subst sh s0. cbn [currentNonterm after_header with_currentColumn with_nonterms
    with_currentNonterm nonterms freeExprIdx].
  rewrite seq_S, map_app. cbn [Nat.add map]. f_equal.
  - apply map_seq_ext. intros j Hj. unfold aset.
    destruct (Nat.eqb_spec j (currentNonterm s)); [lia|reflexivity].
  - unfold aset. rewrite Nat.eqb_refl. cbn. rewrite ?Nat.eqb_refl. reflexivity.
Qed.

Lemma no_newline_body_text x rest :
  literal x = true -> literals rest = true -> no_newline (body_text x rest) = true.
Proof.
  revert x. induction rest as [|[j y] rest IH]; intros x Hx Hrest; cbn [body_text].
  - now apply no_newline_literal.
  - cbn [literals forallb snd] in Hrest. apply andb_prop in Hrest. destruct Hrest as [Hy Hrest].
    rewrite !no_newline_app, (no_newline_literal x Hx), (IH y Hy Hrest).
    now destruct j.
Qed.

Lemma no_newline_definition_text nm x rest :
  valid_name nm = true -> literal x = true -> literals rest = true ->
  no_newline (definition_text nm x rest) = true.
Proof.
  intros Hnm Hx Hrest. destruct (valid_name_parts nm Hnm) as [_ Hw].
  unfold definition_text, line_text.
  change ("$"%char :: nm ++ chars " := " ++ body_text x rest)
    with (["$"%char] ++ nm ++ chars " := " ++ body_text x rest).
  rewrite !no_newline_app, (no_newline_wordchars nm Hw), (no_newline_body_text x rest Hx Hrest).
  reflexivity.
Qed.

(** A stream of one definition whose body has no star, on a fresh parser. *)
Theorem parse_chain cfg nm x rest eol :
  valid_name nm = true -> literal x = true -> literals rest = true -> line_end eol ->
  roomy 1 (length (term_bytes x rest)) (length rest + 2)
        (length (definition_text nm x rest ++ eol)) (S (length nm)) cfg ->
  parse cfg (definition_text nm x rest ++ eol) =
  Ok {| nontermTable :=
          [ {| name := "$"%char :: nm; idx := 0; expr := 0; complete := true |} ];
        exprTable := chain_nodes 0 0 x rest;
        termTable := term_bytes x rest |}.
Proof.
  intros Hnm Hx Hrest Heol (Hn & Ht & He & Hl & Hm).
  unfold parse.
  rewrite parse_regex_spec_single; auto.
  2: discriminate.
  2: now apply no_newline_definition_text.
  destruct (parse_regex_chain cfg (definition_text nm x rest ++ eol ++ [NUL])
              (with_currentColumn 0 (with_currentLine 1 (initial cfg)))
              nm x rest (eol ++ [NUL]) eq_refl (hd_line_end eol Heol) Hnm Hx Hrest)
    as (s' & -> & _ & _ & Htab); cbn; try lia.
  unfold fmap. cbn [bind]. now rewrite Htab.
Qed.

Example parse_chain_example :
  parse (mkConfig 8 64 16 80 16 NO_OP NOTHING) (chars "$Sum := a | bc d") =
  Ok {| nontermTable :=
          [ {| name := chars "$Sum"; idx := 0; expr := 0; complete := true |} ];
        exprTable :=
          [ Node OR (TERMINAL, 0%Z) (NESTED_EXPRESSION, 1%Z);
            Node AND (TERMINAL, 2%Z) (NESTED_EXPRESSION, 2%Z);
            Node NO_OP (TERMINAL, 5%Z) (NOTHING, (-1)%Z) ];
        termTable := chars "a" ++ NUL :: chars "bc" ++ NUL :: chars "d" ++ [NUL] |}.
Proof.
  apply (parse_chain (mkConfig 8 64 16 80 16 NO_OP NOTHING) (chars "Sum") (chars "a")
           [(Barred, chars "bc"); (Juxtaposed, chars "d")] []); try reflexivity.
  - now left.
  - unfold roomy. cbn. lia.
Qed.

(** ** Lines with a star, an escape or a dangling operator *)

Lemma termPool_after_literal bl x s :
  map (termPool (after_literal bl x s)) (seq (currentTermStart s) (length x + 1))
  = x ++ [NUL].
Proof.
  rewrite seq_app, map_app. f_equal.
  - transitivity (map (write x (currentTermStart s) (termPool s))
                      (seq (currentTermStart s) (length x))); [|apply write_read].
    apply map_seq_ext. intros j Hj. cbn. unfold aset.
    destruct (Nat.eqb_spec j (currentTermStart s + length x)); [lia|reflexivity].
  - cbn. unfold aset. now rewrite Nat.eqb_refl.
Qed.

Lemma blank_not_wordchar sp rest :
  forallb blank sp = true -> sp <> [] ->
  wordchar (hd NUL (sp ++ rest)) = false.
Proof.
  destruct sp as [|b sp]; cbn; [congruence|]. intros H _. apply andb_prop in H.
  destruct H as [Hb _]. unfold blank in Hb. apply andb_prop in Hb. destruct Hb as [Hb _].
  unfold wordchar. rewrite Hb. apply andb_false_r.
Qed.

Lemma no_newline_blanks sp : forallb blank sp = true -> no_newline sp = true.
Proof.
  apply forallb_weaken. intros a Ha. unfold blank in Ha. apply andb_prop in Ha. tauto.
Qed.

Lemma hd_app_nonempty (x rest : list char) : x <> [] -> hd NUL (x ++ rest) = hd NUL x.
Proof. destruct x; [congruence|reflexivity]. Qed.

Lemma length_tl_buf (a : char) (l : list char) : length (a :: l) = S (length l).
Proof. reflexivity. Qed.

Ltac cap := symmetry; first [apply Nat.ltb_lt | apply Nat.leb_le]; cbn; lia.

(** [$nm := t*] and [$nm := t *], with any run of blanks before the star. *)
Theorem parse_starred_literal cfg nm t sp eol :
  valid_name nm = true -> literal t = true -> forallb blank sp = true -> line_end eol ->
  roomy 1 (length t + 1) 3
        (length (line_text nm (t ++ sp ++ ["*"%char]) ++ eol)) (S (length nm)) cfg ->
  parse cfg (line_text nm (t ++ sp ++ ["*"%char]) ++ eol) =
  Ok {| nontermTable :=
          [ {| name := "$"%char :: nm; idx := 0; expr := 0; complete := true |} ];
        exprTable :=
          [ Node ZERO_OR_MORE (TERMINAL, 0%Z) (NESTED_EXPRESSION, 1%Z);
            Node NO_OP (NESTED_EXPRESSION, 0%Z) (NOTHING, (-1)%Z) ];
        termTable := t ++ [NUL] |}.
Proof.
  intros Hnm Ht Hsp Heol (Hn & Hp & He & Hl & Hm).
  destruct (literal_hd t Ht) as (Htw & _ & _).
  pose proof (literal_nonempty t Ht) as Htne.
  pose proof (hd_line_end eol Heol) as Htail.
  assert (Htw' : wordchar (hd NUL (eol ++ [NUL])) = false)
    by (destruct Htail as [->| ->]; reflexivity).
  destruct (parse_definition cfg nm (t ++ sp ++ ["*"%char]) eol) as [H1 ->]; auto; try lia.
  { now rewrite hd_app_nonempty. }
  { rewrite !no_newline_app, (no_newline_literal t Ht), (no_newline_blanks sp Hsp).
    reflexivity. }
  set (buf := line_text nm _ ++ eol ++ [NUL]) in *.
  set (p := length nm + 5) in *. set (sb := body_start cfg nm).
  set (tail := eol ++ [NUL]) in *.
  assert (H1' : skipn p buf = [] ++ t ++ sp ++ "*"%char :: tail).
  { rewrite H1. repeat (rewrite <- app_assoc; cbn [app]). reflexivity. }
  assert (Hoperand : parse_operand cfg buf p (-1)%Z sb
                     = Ok (TERMINAL, Z.of_nat (currentTermStart sb), p + 0 + length t,
                           after_literal 0 t sb)).
  { destruct sp as [|b sp'].
    - apply (parse_operand_starred cfg buf p (-1)%Z sb [] t tail H1' eq_refl Ht Htw').
      cbn. lia.
    - apply (parse_operand_literal cfg buf p (-1)%Z sb [] t _ H1' eq_refl Ht).
      + apply (blank_not_wordchar (b :: sp') _ Hsp). discriminate.
      + cbn. lia. }
  pose proof (skipn_past _ _ _ _ H1') as H2. cbn [length] in H2.
  pose proof (skipn_past _ _ _ _ H2) as H3.
  assert (H4 : skipn (S (p + 0 + length t + length sp)) buf = [] ++ tail).
  { change (S ?q) with (1 + q). rewrite <- skipn_skipn.
    rewrite (skipn_past _ _ _ _ H3). reflexivity. }
  rewrite (loop_step_star cfg buf (length buf) p (-1)%Z _ _ _ sb
             TERMINAL _ _ _ Hoperand ltac:(discriminate)
             (S (p + 0 + length t + length sp)) (fun c => S (c + length sp))
             NO_OP (S (p + 0 + length t + length sp) + 0) (fun c => c + 0));
    try (cbn; lia).
  2:{ intro st. apply (parse_operator_star buf _ st sp _ H3 Hsp). reflexivity. }
  2:{ intro st. apply (parse_operator_end buf _ st [] tail H4 eq_refl Htail). }
  assert (Hlen : length buf = S (length (tl buf))) by (subst buf; reflexivity).
  rewrite Hlen, (Nat.add_0_r (S (p + 0 + length t + length sp))).
  rewrite (loop_exit cfg buf _ _ _ _ _ _ _ tail H4 Htail).
  unfold finish_definition, fmap. cbn [bind].
  match goal with |- context [OperatorType_eqb ?ty NO_OP] =>
    replace ty with NO_OP by reflexivity end.
  cbn [OperatorType_eqb orb bind assert]. unfold store_expr, store_nonterm.
  match goal with |- context [?a <? MAX_NESTED_EXPRS cfg] =>
    replace (a <? MAX_NESTED_EXPRS cfg) with true by cap end.
  cbn [bind].
  replace (0 <? MAX_NONTERMS cfg) with true by cap.
  cbn [bind]. f_equal. unfold tables. f_equal.
  exact (termPool_after_literal 0 t sb).
Qed.

Lemma line_end_cases eol :
  line_end eol ->
  exists d rest, eol ++ [NUL] = d :: rest /\ (d = NUL \/ d = NEWLINE).
Proof. intros [->| ->]; cbn; eauto. Qed.

(** [$nm := t1@ct2]: one operand, kept in one piece. *)
Theorem parse_escaped_literal cfg nm t1 c t2 k eol :
  valid_name nm = true -> literal t1 = true -> forallb plain t2 = true ->
  wordchar c = true -> strchr (chars "_@|*$") c = Some k -> line_end eol ->
  roomy 1 (length t1 + 2 + length t2 + 1) 2
        (length (line_text nm (t1 ++ "@"%char :: c :: t2) ++ eol)) (S (length nm)) cfg ->
  parse cfg (line_text nm (t1 ++ "@"%char :: c :: t2) ++ eol) =
  Ok {| nontermTable :=
          [ {| name := "$"%char :: nm; idx := 0; expr := 0; complete := true |} ];
        exprTable := [ Node NO_OP (TERMINAL, 0%Z) (NOTHING, (-1)%Z) ];
        termTable := (t1 ++ c :: t2) ++ [NUL; NUL] |}.
Proof.
  intros Hnm Ht1 Ht2 Hcw Hc Heol (Hn & Hp & He & Hl & Hm).
  destruct (literal_hd t1 Ht1) as (Htw & _ & _).
  pose proof (literal_nonempty t1 Ht1) as Htne.
  pose proof (hd_line_end eol Heol) as Htail.
  destruct (line_end_cases eol Heol) as (d & rest & Etail & Hd).
  assert (Hdw : wordchar d = false) by (destruct Hd as [->| ->]; reflexivity).
  destruct (parse_definition cfg nm (t1 ++ "@"%char :: c :: t2) eol) as [H1 ->];
    auto; try lia.
  { now rewrite hd_app_nonempty. }
  { change (t1 ++ "@"%char :: c :: t2) with (t1 ++ ["@"%char; c] ++ t2).
    rewrite !no_newline_app, (no_newline_literal t1 Ht1),
      (no_newline_wordchars t2 (forallb_plain_wordchar t2 Ht2)).
    cbn. apply wordchar_parts in Hcw. destruct Hcw as (_ & _ & -> & _). reflexivity. }
  set (buf := line_text nm _ ++ eol ++ [NUL]) in *.
  set (p := length nm + 5) in *. set (sb := body_start cfg nm).
  set (n := length t1 + 2 + length t2) in *.
  assert (H1' : skipn p buf = [] ++ (t1 ++ "@"%char :: c :: t2) ++ d :: rest)
    by (rewrite H1, Etail; reflexivity).
  pose proof (parse_operand_escaped cfg buf p (-1)%Z sb [] t1 c t2 d rest k H1' eq_refl
                Ht1 Ht2 Hcw Hc Hdw ltac:(cbn; lia)) as Hoperand.
  cbn [length] in Hoperand. fold n in Hoperand.
  assert (H2 : skipn (p + 0 + n) buf = [] ++ eol ++ [NUL]).
  { rewrite Etail. replace n with (length (t1 ++ "@"%char :: c :: t2))
      by (rewrite length_app; cbn; subst n; lia).
    apply skipn_past. apply (skipn_past _ _ _ _ H1'). }
  rewrite (loop_step_plain cfg buf (length buf) p (-1)%Z _ _ _ sb
             TERMINAL _ _ _ Hoperand ltac:(discriminate) NO_OP (p + 0 + n + 0)
             (currentColumn (after_escaped 0 t1 c t2 d sb) + 0));
    try discriminate; try (cbn; lia).
  2:{ apply (parse_operator_end buf _ _ [] _ H2 eq_refl Htail). }
  assert (Hlen : length buf = S (length (tl buf))) by (subst buf; reflexivity).
  rewrite Hlen, (Nat.add_0_r (p + 0 + n)).
  rewrite (loop_exit cfg buf _ _ _ _ _ _ _ _ H2 Htail).
  unfold finish_definition, fmap. cbn [bind].
  match goal with |- context [OperatorType_eqb ?ty NO_OP] =>
    replace ty with NO_OP by reflexivity end.
  cbn [OperatorType_eqb orb bind assert]. unfold store_expr, store_nonterm.
  match goal with |- context [?a <? MAX_NESTED_EXPRS cfg] =>
    replace (a <? MAX_NESTED_EXPRS cfg) with true by cap end.
  cbn [bind].
  replace (0 <? MAX_NONTERMS cfg) with true by cap.
  cbn [bind]. f_equal. unfold tables. f_equal.
  exact (termPool_after_escaped 0 t1 c t2 d sb).
Qed.

Lemma termPool_after_literal_below bl x s j :
  j < currentTermStart s -> termPool (after_literal bl x s) j = termPool s j.
Proof.
  intro Hj. cbn. unfold aset.
  destruct (Nat.eqb_spec j (currentTermStart s + length x)); [lia|].
  now apply write_below.
Qed.

(** [$nm := x* y]. *)
Theorem parse_starred_then_literal cfg nm x y eol :
  valid_name nm = true -> literal x = true -> literal y = true -> line_end eol ->
  roomy 1 (length x + 1 + (length y + 1)) 4
        (length (line_text nm (x ++ chars "* " ++ y) ++ eol)) (S (length nm)) cfg ->
  parse cfg (line_text nm (x ++ chars "* " ++ y) ++ eol) =
  Ok {| nontermTable :=
          [ {| name := "$"%char :: nm; idx := 0; expr := 0; complete := true |} ];
        exprTable :=
          [ Node ZERO_OR_MORE (TERMINAL, 0%Z) (NESTED_EXPRESSION, 1%Z);
            Node AND (NESTED_EXPRESSION, 0%Z) (NESTED_EXPRESSION, 2%Z);
            Node NO_OP (TERMINAL, Z.of_nat (length x + 1)) (NOTHING, (-1)%Z) ];
        termTable := x ++ NUL :: y ++ [NUL] |}.
Proof.
  intros Hnm Hx Hy Heol (Hn & Hp & He & Hl & Hm).
  destruct (literal_hd x Hx) as (Hxw & _ & _).
  destruct (literal_hd y Hy) as (Hyw & Hyb & Hys).
  pose proof (literal_nonempty x Hx) as Hxne.
  pose proof (literal_nonempty y Hy) as Hyne.
  pose proof (hd_line_end eol Heol) as Htail.
  assert (Htw' : wordchar (hd NUL (eol ++ [NUL])) = false)
    by (destruct Htail as [->| ->]; reflexivity).
  destruct (parse_definition cfg nm (x ++ chars "* " ++ y) eol) as [H1 ->]; auto; try lia.
  { now rewrite hd_app_nonempty. }
  { rewrite !no_newline_app, (no_newline_literal x Hx), (no_newline_literal y Hy).
    reflexivity. }
  set (buf := line_text nm _ ++ eol ++ [NUL]) in *.
  set (p := length nm + 5) in *. set (sb := body_start cfg nm).
  set (tail := eol ++ [NUL]) in *.
  assert (H1' : skipn p buf = [] ++ x ++ "*"%char :: " "%char :: y ++ tail).
  { rewrite H1. repeat (rewrite <- app_assoc; cbn [app]). reflexivity. }
  pose proof (parse_operand_starred cfg buf p (-1)%Z sb [] x _ H1' eq_refl Hx eq_refl
                ltac:(cbn; lia)) as Hoperand.
  cbn [length] in Hoperand.
  pose proof (skipn_past _ _ _ _ H1') as H2. cbn [length] in H2.
  pose proof (skipn_past _ _ _ _ H2) as H3.
  assert (H3' : skipn (p + 0 + length x) buf = [] ++ "*"%char :: " "%char :: y ++ tail)
    by exact H3.
  assert (H4 : skipn (S (p + 0 + length x + 0)) buf = [" "%char] ++ y ++ tail).
  { rewrite Nat.add_0_r. change (S ?q) with (1 + q). rewrite <- skipn_skipn, H3.
    reflexivity. }
  rewrite (loop_step_star cfg buf (length buf) p (-1)%Z _ _ _ sb
             TERMINAL _ _ _ Hoperand ltac:(discriminate)
             (S (p + 0 + length x + 0)) (fun c => S (c + 0))
             AND (S (p + 0 + length x + 0) + 1) (fun c => c + 1));
    try (cbn; lia).
  2:{ intro st. apply (parse_operator_star buf _ st [] _ H3' eq_refl). reflexivity. }
  2:{ intro st. apply (parse_operator_and buf _ st [" "%char] _ H4 eq_refl);
        now rewrite hd_app_nonempty. }
  set (s1 := after_star _ _ _ _ _ _ _ _).
  assert (H5 : skipn (S (p + 0 + length x + 0) + 1) buf = [] ++ y ++ tail)
    by (apply (skipn_past _ _ _ _ H4)).
  assert (Hlen : length buf = S (S (length (tl (tl buf))))).
  { subst buf. unfold line_text. cbn [app length tl]. destruct nm; [discriminate|].
    reflexivity. }
  rewrite Hlen.
  pose proof (parse_operand_literal cfg buf _ (Z.of_nat (currentTermStart sb)) s1 [] y tail
                H5 eq_refl Hy Htw' ltac:(cbn; lia)) as Hoperand2.
  cbn [length] in Hoperand2.
  assert (H6 : skipn (S (p + 0 + length x + 0) + 1 + 0 + length y) buf = [] ++ tail)
    by (apply (skipn_past _ _ _ _ (skipn_past _ _ _ _ H5))).
  rewrite (loop_step_plain cfg buf _ _ _ _ _ _ s1
             TERMINAL _ _ _ Hoperand2 ltac:(discriminate) NO_OP
             (S (p + 0 + length x + 0) + 1 + 0 + length y + 0)
             (currentColumn (after_literal 0 y s1) + 0));
    try discriminate; try (cbn; lia).
  2:{ apply (parse_operator_end buf _ _ [] _ H6 eq_refl Htail). }
  rewrite (Nat.add_0_r (S (p + 0 + length x + 0) + 1 + 0 + length y)).
  rewrite (loop_exit cfg buf _ _ _ _ _ _ _ _ H6 Htail).
  unfold finish_definition, fmap. cbn [bind].
  match goal with |- context [OperatorType_eqb ?ty NO_OP] =>
    replace ty with NO_OP by reflexivity end.
  cbn [OperatorType_eqb orb bind assert]. unfold store_expr, store_nonterm.
  match goal with |- context [?a <? MAX_NESTED_EXPRS cfg] =>
    replace (a <? MAX_NESTED_EXPRS cfg) with true by cap end.
  cbn [bind].
  replace (0 <? MAX_NONTERMS cfg) with true by cap.
  cbn [bind]. f_equal. unfold tables. f_equal.
  change (x ++ NUL :: y ++ [NUL]) with (x ++ [NUL] ++ y ++ [NUL]).
  rewrite app_assoc.
  change (map _ (seq 0 _))
    with (map (termPool (after_literal 0 y s1)) (seq 0 ((length x + 1) + (length y + 1)))).
  rewrite seq_app, map_app. f_equal.
  - erewrite map_seq_ext; [exact (termPool_after_literal 0 x sb)|].
    intros j Hj. rewrite termPool_after_literal_below by (cbn; lia). reflexivity.
  - exact (termPool_after_literal 0 y s1).
Qed.

(** [$nm := x |]: nothing follows the bar. *)
Theorem parse_dangling_bar cfg nm x eol :
  valid_name nm = true -> literal x = true -> line_end eol ->
  roomy 1 (length x + 1) 2
        (length (line_text nm (x ++ chars " |") ++ eol)) (S (length nm)) cfg ->
  parse cfg (line_text nm (x ++ chars " |") ++ eol) = AssertionFailed LastNotNoOp.
Proof.
  intros Hnm Hx Heol (Hn & Hp & He & Hl & Hm).
  destruct (literal_hd x Hx) as (Hxw & _ & _).
  pose proof (literal_nonempty x Hx) as Hxne.
  pose proof (hd_line_end eol Heol) as Htail.
  destruct (parse_definition cfg nm (x ++ chars " |") eol) as [H1 ->]; auto; try lia.
  { now rewrite hd_app_nonempty. }
  { rewrite !no_newline_app, (no_newline_literal x Hx). reflexivity. }
  set (buf := line_text nm _ ++ eol ++ [NUL]) in *.
  set (p := length nm + 5) in *. set (sb := body_start cfg nm).
  set (tail := eol ++ [NUL]) in *.
  assert (H1' : skipn p buf = [] ++ x ++ " "%char :: "|"%char :: tail).
  { rewrite H1. repeat (rewrite <- app_assoc; cbn [app]). reflexivity. }
  pose proof (parse_operand_literal cfg buf p (-1)%Z sb [] x _ H1' eq_refl Hx eq_refl
                ltac:(cbn; lia)) as Hoperand.
  cbn [length] in Hoperand.
  pose proof (skipn_past _ _ _ _ (skipn_past _ _ _ _ H1')) as H2. cbn [length] in H2.
  assert (H2' : skipn (p + 0 + length x) buf = [" "%char] ++ "|"%char :: tail) by exact H2.
  assert (H3 : skipn (S (p + 0 + length x + 1)) buf = tail).
  { replace (S (p + 0 + length x + 1)) with (2 + (p + 0 + length x)) by lia.
    rewrite <- skipn_skipn, H2. reflexivity. }
  rewrite (loop_step_plain cfg buf (length buf) p (-1)%Z _ _ _ sb
             TERMINAL _ _ _ Hoperand ltac:(discriminate) OR
             (S (p + 0 + length x + 1))
             (S (currentColumn (after_literal 0 x sb) + 1)));
    try discriminate; try (cbn; lia).
  2:{ apply (parse_operator_or buf _ _ [" "%char] _ H2' eq_refl). reflexivity. }
  assert (Hlen : length buf = S (length (tl buf))) by (subst buf; reflexivity).
  rewrite Hlen.
  rewrite (loop_exit cfg buf _ _ _ _ _ _ _ _ H3 Htail).
  reflexivity.
Qed.

(** *** A literal that fills the terminal pool to its last byte *)

Lemma parse_operand_literal_overrun cfg buf regex res s bl tok rest :
  skipn regex buf = bl ++ tok ++ rest ->
  forallb blank bl = true -> literal tok = true -> wordchar (hd NUL rest) = false ->
  currentTermStart s + length tok = MAX_TOTAL_TERM_LEN cfg ->
  parse_operand cfg buf regex res s =
  Undefined (StoreOutsideTermPool (MAX_TOTAL_TERM_LEN cfg)).
Proof.
  intros H Hbl Hlit Hrest Hfit.
  destruct (literal_parts _ Hlit) as (c & tok' & Etok & Hd & Hb & Hplain).
  assert (Hword : forallb wordchar tok = true) by now apply forallb_plain_wordchar.
  assert (Hesc : unescaped tok = true) by now apply forallb_plain_unescaped.
  pose proof (skipn_past _ _ _ _ H) as H1.
  assert (Hc : plain c = true)
    by (rewrite Etok in Hplain; cbn in Hplain; now apply andb_prop in Hplain).
  destruct (plain_parts _ Hc) as (Hcw & _ & Hcs).
  destruct (wordchar_parts _ Hcw) as (Hc0 & _ & Hcn & Hcb).
  unfold parse_operand.
  rewrite (move_while_over blank buf s regex bl (tok ++ rest) H Hbl)
    by (rewrite Etok; cbn; now rewrite Hcb).
  rewrite (peek_hd buf (regex + length bl)), H1, Etok. cbn [hd app].
  rewrite Hc0, Hcn, Hb, Hcs. cbn [orb].
  rewrite (move_while_over wordchar buf _ (regex + length bl) tok rest H1 Hword)
    by (destruct rest as [|r rest']; cbn in *; [reflexivity|now rewrite Hrest]).
  set (n := length tok) in *. set (p := regex + length bl) in *.
  assert (Hn : 1 <= n) by (subst n; rewrite Etok; cbn; lia).
  assert (Hlast : (peek buf (p + n - 1) =? "*")%char = false).
  { replace (p + n - 1) with (p + (n - 1)) by lia. rewrite peek_skipn, H1.
    rewrite app_nth1 by (fold n; lia).
    assert (Hk : plain (nth (n - 1) tok NUL) = true)
      by (apply forallb_nth; [assumption|fold n; lia]).
    now apply plain_parts in Hk. }
  rewrite Hlast. cbn [andb].
  replace (p + n - p) with n by lia.
  rewrite Hd.
  unfold assert.
  replace (currentTermStart _ + n <=? MAX_TOTAL_TERM_LEN cfg) with true
    by (symmetry; apply Nat.leb_le; cbn; lia).
  cbn [bind]. unfold memcpy2.
  rewrite (memcpy2_loop_plain cfg buf (chars "_@|*$") (chars " @|*$") tok
             _ p n _ rest H1 Hesc) by (cbn; fold n; lia).
  cbn [bind]. unfold store_term. cbn [currentTermStart with_termPool with_currentColumn].
  rewrite Hfit, Nat.ltb_irrefl. reflexivity.
Qed.

Theorem parse_literal_filling_pool cfg nm x eol :
  valid_name nm = true -> literal x = true -> line_end eol ->
  length x = MAX_TOTAL_TERM_LEN cfg ->
  roomy 1 0 1 (length (line_text nm x ++ eol)) (S (length nm)) cfg ->
  parse cfg (line_text nm x ++ eol) =
  Undefined (StoreOutsideTermPool (MAX_TOTAL_TERM_LEN cfg)).
Proof.
  intros Hnm Hx Heol Hfull (Hn & Hp & He & Hl & Hm).
  destruct (literal_hd x Hx) as (Hxw & _ & _).
  pose proof (hd_line_end eol Heol) as Htail.
  assert (Htw' : wordchar (hd NUL (eol ++ [NUL])) = false)
    by (destruct Htail as [->| ->]; reflexivity).
  destruct (parse_definition cfg nm x eol) as [H1 ->]; auto; try lia.
  { now apply no_newline_literal. }
  set (buf := line_text nm _ ++ eol ++ [NUL]) in *.
  cbn [parse_body_loop].
  rewrite (parse_operand_literal_overrun cfg buf _ _ _ [] x _ H1 eq_refl Hx Htw');
    [reflexivity|exact Hfull].
Qed.

(** ** Runs on a given text *)

Lemma le_as_sum {n m : nat} : n <= m -> exists d, m = n + d.
Proof. intro H. exists (m - n). lia. Qed.

Lemma roomy_as_sums {n t e l m cfg} :
  roomy n t e l m cfg ->
  exists dn dt de dl dm,
    cfg = mkConfig (S n + dn) (t + dt) (e + de) (S l + dl) (S m + dm)
                   (OPERATOR_ZERO cfg) (OPERAND_ZERO cfg).
Proof.
  intros (Hn & Ht & He & Hl & Hm). destruct cfg as [a b c d e' z1 z2]; cbn in *.
  destruct (le_as_sum Hn) as [dn ->], (le_as_sum Ht) as [dt ->],
           (le_as_sum He) as [de ->], (le_as_sum Hl) as [dl ->],
           (le_as_sum Hm) as [dm ->].
  now exists dn, dt, de, dl, dm.
Qed.

(** Runs on a given text: the bounds become sums with an unknown rest, on
    which every capacity check of the run computes. *)
Ltac run_with H :=
  destruct (roomy_as_sums H) as (?dn & ?dt & ?de & ?dl & ?dm & ->); clear H;
  vm_compute; reflexivity.

Lemma roomy_weaken n t e l m n' t' e' l' m' cfg :
  roomy n t e l m cfg -> n' <= n -> t' <= t -> e' <= e -> l' <= l -> m' <= m ->
  roomy n' t' e' l' m' cfg.
Proof. unfold roomy. intros (? & ? & ? & ? & ?) ? ? ? ? ?. repeat split; lia. Qed.

Ltac fits H :=
  apply (roomy_weaken _ _ _ _ _ _ _ _ _ _ _ H);
  unfold definition_text, line_text;
  repeat (progress (rewrite ?length_app; cbn [length chars list_ascii_of_string body_text
                      term_bytes joiner_text app]));
  lia.

(** The table of non-terminals is guarded by its assertion: with room for
    two entries the second allocation stops the run. *)
Lemma second_nonterm_is_refused :
  parse (mkConfig 2 64 16 80 16 NO_OP NOTHING) (chars "$A := $B")
  = AssertionFailed TooManyNonterms.
Proof. vm_compute. reflexivity. Qed.

(** * The claims *)

(** C1: for [$A := x* y] the claim has the root, the starred node, end with
    no right operand.  In the code the root is the starred node, and its
    right operand is the wrapping node: [prevExpr] and [currentExpr] are
    the same node on the first iteration, so the store through [prevExpr]
    undoes [currentExpr->op2Type = NOTHING].  The wrapping node holds the
    starred node as its nested left operand and is joined to [y] by AND. *)
Theorem star_on_first_operand cfg x y :
  literal x = true -> literal y = true ->
  roomy 1 (length x + length y + 2) 4 (length x + length y + 8) 2 cfg ->
  parse cfg (chars "$A := " ++ x ++ chars "* " ++ y) =
  Ok {| nontermTable :=
          [ {| name := chars "$A"; idx := 0; expr := 0; complete := true |} ];
        exprTable :=
          [ Node ZERO_OR_MORE (TERMINAL, 0%Z) (NESTED_EXPRESSION, 1%Z);
            Node AND (NESTED_EXPRESSION, 0%Z) (NESTED_EXPRESSION, 2%Z);
            Node NO_OP (TERMINAL, Z.of_nat (length x + 1)) (NOTHING, (-1)%Z) ];
        termTable := x ++ NUL :: y ++ [NUL] |}.
Proof.
  intros Hx Hy H.
  pose proof (parse_starred_then_literal cfg (chars "A") x y [] eq_refl Hx Hy
                (or_introl eq_refl)) as P.
  rewrite app_nil_r in P. apply P. fits H.
Qed.

Lemma star_on_first_operand_witness :
  literal (chars "x") = true /\ literal (chars "y") = true
  /\ roomy 1 4 4 10 2 sample
  /\ parse sample (chars "$A := x* y") =
     Ok {| nontermTable :=
             [ {| name := chars "$A"; idx := 0; expr := 0; complete := true |} ];
           exprTable :=
             [ Node ZERO_OR_MORE (TERMINAL, 0%Z) (NESTED_EXPRESSION, 1%Z);
               Node AND (NESTED_EXPRESSION, 0%Z) (NESTED_EXPRESSION, 2%Z);
               Node NO_OP (TERMINAL, 2%Z) (NOTHING, (-1)%Z) ];
           termTable := chars "x" ++ NUL :: chars "y" ++ [NUL] |}.
Proof.
  assert (hx : literal (chars "x") = true) by reflexivity.
  assert (hy : literal (chars "y") = true) by reflexivity.
  assert (hr : roomy 1 4 4 10 2 sample) by (unfold roomy; cbn; lia).
  exact (conj hx (conj hy (conj hr
           (star_on_first_operand sample (chars "x") (chars "y") hx hy hr)))).
Defined.

(** C2: the claim has [@_] stored as a space, so that [a@_b] becomes the
    bytes [a b].  memcpy2 looks the replacement up, but the byte it stores
    is the one behind the escape character: [t1@_t2] is stored as
    [t1_t2].  The token takes one byte more in the pool than it fills. *)
Theorem escaped_underscore_is_kept cfg t1 t2 :
  literal t1 = true -> forallb plain t2 = true ->
  roomy 1 (length t1 + length t2 + 3) 2 (length t1 + length t2 + 8) 2 cfg ->
  parse cfg (chars "$A := " ++ t1 ++ chars "@_" ++ t2) =
  Ok {| nontermTable :=
          [ {| name := chars "$A"; idx := 0; expr := 0; complete := true |} ];
        exprTable := [ Node NO_OP (TERMINAL, 0%Z) (NOTHING, (-1)%Z) ];
        termTable := (t1 ++ chars "_" ++ t2) ++ [NUL; NUL] |}.
Proof.
  intros H1 H2 H.
  pose proof (parse_escaped_literal cfg (chars "A") t1 "_"%char t2 0 [] eq_refl H1 H2
                eq_refl eq_refl (or_introl eq_refl)) as P.
  rewrite app_nil_r in P. apply P. fits H.
Qed.

Lemma escaped_underscore_is_kept_witness :
  literal (chars "a") = true /\ forallb plain (chars "b") = true
  /\ roomy 1 5 2 10 2 sample
  /\ parse sample (chars "$A := a@_b") =
     Ok {| nontermTable :=
             [ {| name := chars "$A"; idx := 0; expr := 0; complete := true |} ];
           exprTable := [ Node NO_OP (TERMINAL, 0%Z) (NOTHING, (-1)%Z) ];
           termTable := chars "a_b" ++ [NUL; NUL] |}.
Proof.
  assert (h1 : literal (chars "a") = true) by reflexivity.
  assert (h2 : forallb plain (chars "b") = true) by reflexivity.
  assert (hr : roomy 1 5 2 10 2 sample) by (unfold roomy; cbn; lia).
  exact (conj h1 (conj h2 (conj hr
           (escaped_underscore_is_kept sample (chars "a") (chars "b") h1 h2 hr)))).
Defined.

(** C3: the claim has a reference resolved by its full name.  The loop of
    parse_operand compares only as many bytes as the reference has, so
    [$ab] resolves to the entry [$abc] declared before it (index 0) and no
    entry is made for [$ab]; the loop of parse_header compares whole
    names, and a header [$ab] gets an entry of its own. *)
Theorem reference_matches_a_prefix cfg :
  roomy 2 4 3 10 4 cfg ->
  parse cfg (chars "$abc := x" ++ NEWLINE :: chars "$A := $ab") =
  Ok {| nontermTable :=
          [ {| name := chars "$abc"; idx := 0; expr := 0; complete := true |};
            {| name := chars "$A"; idx := 1; expr := 1; complete := true |} ];
        exprTable :=
          [ Node NO_OP (TERMINAL, 0%Z) (NOTHING, (-1)%Z);
            Node NO_OP (NON_TERMINAL, 0%Z) (NOTHING, (-1)%Z) ];
        termTable := chars "x" ++ [NUL] |}
  /\ parse cfg (chars "$abc := x" ++ NEWLINE :: chars "$ab := y") =
     Ok {| nontermTable :=
             [ {| name := chars "$abc"; idx := 0; expr := 0; complete := true |};
               {| name := chars "$ab"; idx := 1; expr := 1; complete := true |} ];
           exprTable :=
             [ Node NO_OP (TERMINAL, 0%Z) (NOTHING, (-1)%Z);
               Node NO_OP (TERMINAL, 2%Z) (NOTHING, (-1)%Z) ];
           termTable := chars "x" ++ NUL :: chars "y" ++ [NUL] |}.
Proof. intro H. split; run_with H. Qed.

Lemma reference_matches_a_prefix_witness :
  roomy 2 4 3 10 4 sample
  /\ parse sample (chars "$abc := x" ++ NEWLINE :: chars "$A := $ab") =
     Ok {| nontermTable :=
             [ {| name := chars "$abc"; idx := 0; expr := 0; complete := true |};
               {| name := chars "$A"; idx := 1; expr := 1; complete := true |} ];
           exprTable :=
             [ Node NO_OP (TERMINAL, 0%Z) (NOTHING, (-1)%Z);
               Node NO_OP (NON_TERMINAL, 0%Z) (NOTHING, (-1)%Z) ];
           termTable := chars "x" ++ [NUL] |}.
Proof.
  assert (hr : roomy 2 4 3 10 4 sample) by (unfold roomy; cbn; lia).
  exact (conj hr (proj1 (reference_matches_a_prefix sample hr))).
Defined.

(** A body of plain literals becomes a chain that leans to the right.
    For all literals [x] and [y]: [$A := x] gives the single node
    (x NO_OP nothing); [$A := x y] gives (x AND node 1) and
    (y NO_OP nothing); [$A := x | y] gives (x OR node 1) and
    (y NO_OP nothing).  [parse_chain] has the chain for any number of
    literals. *)
Theorem chains_without_star cfg x y :
  literal x = true -> literal y = true ->
  roomy 1 (length x + length y + 2) 3 (length x + length y + 9) 2 cfg ->
  parse cfg (chars "$A := " ++ x) =
  Ok {| nontermTable :=
          [ {| name := chars "$A"; idx := 0; expr := 0; complete := true |} ];
        exprTable := [ Node NO_OP (TERMINAL, 0%Z) (NOTHING, (-1)%Z) ];
        termTable := x ++ [NUL] |}
  /\ parse cfg (chars "$A := " ++ x ++ chars " " ++ y) =
     Ok {| nontermTable :=
             [ {| name := chars "$A"; idx := 0; expr := 0; complete := true |} ];
           exprTable :=
             [ Node AND (TERMINAL, 0%Z) (NESTED_EXPRESSION, 1%Z);
               Node NO_OP (TERMINAL, Z.of_nat (length x + 1)) (NOTHING, (-1)%Z) ];
           termTable := x ++ NUL :: y ++ [NUL] |}
  /\ parse cfg (chars "$A := " ++ x ++ chars " | " ++ y) =
     Ok {| nontermTable :=
             [ {| name := chars "$A"; idx := 0; expr := 0; complete := true |} ];
           exprTable :=
             [ Node OR (TERMINAL, 0%Z) (NESTED_EXPRESSION, 1%Z);
               Node NO_OP (TERMINAL, Z.of_nat (length x + 1)) (NOTHING, (-1)%Z) ];
           termTable := x ++ NUL :: y ++ [NUL] |}.
Proof.
  intros Hx Hy H. repeat split.
  - pose proof (parse_chain cfg (chars "A") x [] [] eq_refl Hx eq_refl
                  (or_introl eq_refl)) as P.
    rewrite app_nil_r in P. apply P. fits H.
  - pose proof (parse_chain cfg (chars "A") x [(Juxtaposed, y)] [] eq_refl Hx) as P.
    rewrite app_nil_r in P. apply P; [cbn; now rewrite Hy|now left|fits H].
  - pose proof (parse_chain cfg (chars "A") x [(Barred, y)] [] eq_refl Hx) as P.
    rewrite app_nil_r in P. apply P; [cbn; now rewrite Hy|now left|fits H].
Qed.

Lemma chains_without_star_witness :
  literal (chars "x") = true /\ literal (chars "y") = true
  /\ roomy 1 4 3 11 2 sample
  /\ parse sample (chars "$A := x") =
     Ok {| nontermTable :=
             [ {| name := chars "$A"; idx := 0; expr := 0; complete := true |} ];
           exprTable := [ Node NO_OP (TERMINAL, 0%Z) (NOTHING, (-1)%Z) ];
           termTable := chars "x" ++ [NUL] |}
  /\ parse sample (chars "$A := x y") =
     Ok {| nontermTable :=
             [ {| name := chars "$A"; idx := 0; expr := 0; complete := true |} ];
           exprTable :=
             [ Node AND (TERMINAL, 0%Z) (NESTED_EXPRESSION, 1%Z);
               Node NO_OP (TERMINAL, 2%Z) (NOTHING, (-1)%Z) ];
           termTable := chars "x" ++ NUL :: chars "y" ++ [NUL] |}
  /\ parse sample (chars "$A := x | y") =
     Ok {| nontermTable :=
             [ {| name := chars "$A"; idx := 0; expr := 0; complete := true |} ];
           exprTable :=
             [ Node OR (TERMINAL, 0%Z) (NESTED_EXPRESSION, 1%Z);
               Node NO_OP (TERMINAL, 2%Z) (NOTHING, (-1)%Z) ];
           termTable := chars "x" ++ NUL :: chars "y" ++ [NUL] |}.
Proof.
  assert (hx : literal (chars "x") = true) by reflexivity.
  assert (hy : literal (chars "y") = true) by reflexivity.
  assert (hr : roomy 1 4 3 11 2 sample) by (unfold roomy; cbn; lia).
  exact (conj hx (conj hy (conj hr
           (chains_without_star sample (chars "x") (chars "y") hx hy hr)))).
Defined.

(** C4: the claim has every star-free body of valid operands become a
    chain.  [@_@_ @@] is such a body, of the operands [@_@_] and [@@],
    and the run on it is fatal.  memcpy2 makes [numBytes] iterations and
    an escape sequence takes two bytes of the source in one of them, so
    for a token with escapes the last iterations read behind the token:
    for [@_@_] the third reads the blank and the fourth the [@] of the
    next operand, with no iteration left, which is reported as "An
    incomplete escape sequence at the end of a string". *)
Theorem escapes_break_the_chain cfg :
  roomy 1 4 1 14 2 cfg ->
  parse cfg (chars "$A := @_@_ @@") = Fatal 1 10 IncompleteEscape.
Proof. intro H. run_with H. Qed.

Lemma escapes_break_the_chain_witness :
  roomy 1 4 1 14 2 sample
  /\ parse sample (chars "$A := @_@_ @@") = Fatal 1 10 IncompleteEscape.
Proof.
  assert (hr : roomy 1 4 1 14 2 sample) by (unfold roomy; cbn; lia).
  exact (conj hr (escapes_break_the_chain sample hr)).
Defined.



(** C6: [$ := x] stops the run with "Empty non-terminal name", [$A := | x]
    with "An operator without an operand", and a second [$A := x] with
    "Re-definition of a non-terminal"; each is reported at its line and
    column, and whatever follows in the stream is not read. *)
Theorem malformed_lines_are_fatal cfg rest :
  roomy 1 2 2 10 2 cfg ->
  parse cfg (chars "$ := x") = Fatal 1 1 EmptyName
  /\ parse cfg (chars "$ := x" ++ NEWLINE :: rest) = Fatal 1 1 EmptyName
  /\ parse cfg (chars "$A := | x") = Fatal 1 6 OperatorWithoutOperand
  /\ parse cfg (chars "$A := | x" ++ NEWLINE :: rest) = Fatal 1 6 OperatorWithoutOperand
  /\ parse cfg (chars "$A := x" ++ NEWLINE :: chars "$A := x") = Fatal 2 2 Redefinition
  /\ parse cfg (chars "$A := x" ++ NEWLINE :: chars "$A := x" ++ NEWLINE :: rest)
     = Fatal 2 2 Redefinition.
Proof. intro H. repeat split; run_with H. Qed.

Lemma malformed_lines_are_fatal_witness :
  roomy 1 2 2 10 2 sample
  /\ parse sample (chars "$ := x") = Fatal 1 1 EmptyName
  /\ parse sample (chars "$A := | x") = Fatal 1 6 OperatorWithoutOperand
  /\ parse sample (chars "$A := x" ++ NEWLINE :: chars "$A := x") = Fatal 2 2 Redefinition.
Proof.
  assert (hr : roomy 1 2 2 10 2 sample) by (unfold roomy; cbn; lia).
  pose proof (malformed_lines_are_fatal sample [] hr) as (h1 & _ & h2 & _ & h3 & _).
  exact (conj hr (conj h1 (conj h2 h3))).
Defined.

(** C7: the claim has the check on the last node never fire on a body that
    met no fatal error.  [$A := x |] meets none: behind the bar
    parse_operand finds the end of the line and returns NOTHING, the loop
    is left with the last node an OR, and the assertion "Last expression
    should be a no op" stops the run. *)
Theorem dangling_bar_trips_the_assertion cfg x :
  literal x = true ->
  roomy 1 (length x + 1) 2 (length x + 8) 2 cfg ->
  parse cfg (chars "$A := " ++ x ++ chars " |") = AssertionFailed LastNotNoOp.
Proof.
  intros Hx H.
  pose proof (parse_dangling_bar cfg (chars "A") x [] eq_refl Hx (or_introl eq_refl)) as P.
  rewrite app_nil_r in P. apply P. fits H.
Qed.

Lemma dangling_bar_trips_the_assertion_witness :
  literal (chars "x") = true /\ roomy 1 2 2 9 2 sample
  /\ parse sample (chars "$A := x |") = AssertionFailed LastNotNoOp.
Proof.
  assert (hx : literal (chars "x") = true) by reflexivity.
  assert (hr : roomy 1 2 2 9 2 sample) by (unfold roomy; cbn; lia).
  exact (conj hx (conj hr (dangling_bar_trips_the_assertion sample (chars "x") hx hr))).
Defined.

(** When a literal ends in a star that no escape character precedes, the
    operand is the literal without the star, the cursor and the column
    stand on the star, and parse_operator returns ZERO_OR_MORE there; so
    [t*] and [t *] give the same tables.  In [t@*] the star stays in the
    token, and the terminal stored is [t*]. *)
Theorem suffix_star_split cfg t :
  literal t = true ->
  roomy 1 (length t + 3) 3 (length t + 8) 2 cfg ->
  (forall buf regex res s rest,
      skipn regex buf = t ++ "*"%char :: rest -> wordchar (hd NUL rest) = false ->
      currentTermStart s + length t < MAX_TOTAL_TERM_LEN cfg ->
      exists s',
        parse_operand cfg buf regex res s
        = Ok (TERMINAL, Z.of_nat (currentTermStart s), regex + length t, s')
        /\ currentColumn s' = currentColumn s + length t
        /\ peek buf (regex + length t) = "*"%char
        /\ parse_operator buf (regex + length t) s'
           = (ZERO_OR_MORE, S (regex + length t),
              with_currentColumn (S (currentColumn s')) s'))
  /\ parse cfg (chars "$A := " ++ t ++ chars "*")
     = parse cfg (chars "$A := " ++ t ++ chars " *")
  /\ parse cfg (chars "$A := " ++ t ++ chars "*") =
     Ok {| nontermTable :=
             [ {| name := chars "$A"; idx := 0; expr := 0; complete := true |} ];
           exprTable :=
             [ Node ZERO_OR_MORE (TERMINAL, 0%Z) (NESTED_EXPRESSION, 1%Z);
               Node NO_OP (NESTED_EXPRESSION, 0%Z) (NOTHING, (-1)%Z) ];
           termTable := t ++ [NUL] |}
  /\ parse cfg (chars "$A := " ++ t ++ chars "@*") =
     Ok {| nontermTable :=
             [ {| name := chars "$A"; idx := 0; expr := 0; complete := true |} ];
           exprTable := [ Node NO_OP (TERMINAL, 0%Z) (NOTHING, (-1)%Z) ];
           termTable := (t ++ chars "*") ++ [NUL; NUL] |}.
Proof.
  intros Ht H.
  assert (Pa : parse cfg (chars "$A := " ++ t ++ chars "*") =
     Ok {| nontermTable :=
             [ {| name := chars "$A"; idx := 0; expr := 0; complete := true |} ];
           exprTable :=
             [ Node ZERO_OR_MORE (TERMINAL, 0%Z) (NESTED_EXPRESSION, 1%Z);
               Node NO_OP (NESTED_EXPRESSION, 0%Z) (NOTHING, (-1)%Z) ];
           termTable := t ++ [NUL] |}).
  { pose proof (parse_starred_literal cfg (chars "A") t [] [] eq_refl Ht eq_refl
                  (or_introl eq_refl)) as P.
    rewrite app_nil_r in P. apply P. fits H. }
  assert (Pb : parse cfg (chars "$A := " ++ t ++ chars " *") =
     Ok {| nontermTable :=
             [ {| name := chars "$A"; idx := 0; expr := 0; complete := true |} ];
           exprTable :=
             [ Node ZERO_OR_MORE (TERMINAL, 0%Z) (NESTED_EXPRESSION, 1%Z);
               Node NO_OP (NESTED_EXPRESSION, 0%Z) (NOTHING, (-1)%Z) ];
           termTable := t ++ [NUL] |}).
  { pose proof (parse_starred_literal cfg (chars "A") t (chars " ") [] eq_refl Ht eq_refl
                  (or_introl eq_refl)) as P.
    rewrite app_nil_r in P. apply P. fits H. }
  split; [|split; [|split]].
  - intros buf regex res s rest Hbuf Hrest Hfit.
    pose proof (parse_operand_starred cfg buf regex res s [] t rest Hbuf eq_refl Ht
                  Hrest Hfit) as Po.
    cbn [length] in Po. rewrite Nat.add_0_r in Po.
    assert (Hs : skipn (regex + length t) buf = [] ++ "*"%char :: rest)
      by (apply (skipn_past buf regex t _ Hbuf)).
    eexists. split; [exact Po|]. split; [cbn; lia|]. split.
    + rewrite peek_hd, Hs. reflexivity.
    + rewrite (parse_operator_star buf _ _ [] _ Hs eq_refl eq_refl).
      cbn [length]. now rewrite !Nat.add_0_r.
  - now rewrite Pa, Pb.
  - exact Pa.
  - pose proof (parse_escaped_literal cfg (chars "A") t "*"%char [] 3 [] eq_refl Ht eq_refl
                  eq_refl eq_refl (or_introl eq_refl)) as P.
    rewrite app_nil_r in P. apply P. fits H.
Qed.

Lemma suffix_star_split_witness :
  literal (chars "term") = true /\ roomy 1 7 3 12 2 sample
  /\ parse sample (chars "$A := term*") = parse sample (chars "$A := term *")
  /\ parse sample (chars "$A := term@*") =
     Ok {| nontermTable :=
             [ {| name := chars "$A"; idx := 0; expr := 0; complete := true |} ];
           exprTable := [ Node NO_OP (TERMINAL, 0%Z) (NOTHING, (-1)%Z) ];
           termTable := chars "term*" ++ [NUL; NUL] |}.
Proof.
  assert (ht : literal (chars "term") = true) by reflexivity.
  assert (hr : roomy 1 7 3 12 2 sample) by (unfold roomy; cbn; lia).
  pose proof (suffix_star_split sample (chars "term") ht hr) as (_ & h1 & _ & h2).
  exact (conj ht (conj hr (conj h1 h2))).
Defined.

(** C8: the claim has [term*] and [term *] parse to the same structure.
    With the token [@_@_@_] they do not: [@_@_@_* @@] is fatal and
    [@_@_@_ * @@] gives tables.  The star is split off in the first and
    stands apart in the second, as the claim says, and the operand is the
    same six bytes; memcpy2 makes six iterations on them, three of which
    take an escape sequence of two bytes, so the last three read what
    stands behind the token: [* @] in the first, where the [@] is met with
    no iteration left, and [ * ] in the second. *)
Theorem star_apart_differs_after_escapes cfg :
  roomy 1 10 4 17 2 cfg ->
  parse cfg (chars "$A := @_@_@_* @@") = Fatal 1 12 IncompleteEscape
  /\ parse cfg (chars "$A := @_@_@_ * @@") =
     Ok {| nontermTable :=
             [ {| name := chars "$A"; idx := 0; expr := 0; complete := true |} ];
           exprTable :=
             [ Node ZERO_OR_MORE (TERMINAL, 0%Z) (NESTED_EXPRESSION, 1%Z);
               Node AND (NESTED_EXPRESSION, 0%Z) (NESTED_EXPRESSION, 2%Z);
               Node NO_OP (TERMINAL, 7%Z) (NOTHING, (-1)%Z) ];
           termTable := chars "___" ++ NUL :: chars "* " ++ NUL :: chars "@" ++ [NUL; NUL] |}.
Proof.
  intro H. destruct (roomy_as_sums H) as (dn & dt & de & dl & dm & ->). clear H.
  split; vm_compute; reflexivity.
Qed.

Lemma star_apart_differs_after_escapes_witness :
  roomy 1 10 4 17 2 sample
  /\ parse sample (chars "$A := @_@_@_* @@") = Fatal 1 12 IncompleteEscape
  /\ parse sample (chars "$A := @_@_@_* @@") <> parse sample (chars "$A := @_@_@_ * @@").
Proof.
  assert (hr : roomy 1 10 4 17 2 sample) by (unfold roomy; cbn; lia).
  pose proof (star_apart_differs_after_escapes sample hr) as [h1 h2].
  refine (conj hr (conj h1 _)).
  rewrite h1, h2. discriminate.
Defined.

(** C9: the claim has every allocation fail with the capacity assertion
    once its bound is reached.  The terminal pool is checked with
    [currentTermStart + operandNameSize <= MAX_TOTAL_TERM_LEN], which
    leaves no room for the terminator: a literal that ends on the last
    byte of the pool passes the assertion, and its terminator is stored at
    index [MAX_TOTAL_TERM_LEN], behind the array. *)
Theorem literal_filling_the_pool_overruns_it cfg x :
  literal x = true -> length x = MAX_TOTAL_TERM_LEN cfg ->
  roomy 1 0 1 (length x + 6) 2 cfg ->
  (forall buf regex res s tok rest,
      skipn regex buf = tok ++ rest -> literal tok = true ->
      wordchar (hd NUL rest) = false ->
      currentTermStart s + length tok = MAX_TOTAL_TERM_LEN cfg ->
      parse_operand cfg buf regex res s
      = Undefined (StoreOutsideTermPool (MAX_TOTAL_TERM_LEN cfg)))
  /\ parse cfg (chars "$A := " ++ x)
     = Undefined (StoreOutsideTermPool (MAX_TOTAL_TERM_LEN cfg)).
Proof.
  intros Hx Hlen H. split.
  - intros buf regex res s tok rest Hbuf Htok Hrest Hfull.
    exact (parse_operand_literal_overrun cfg buf regex res s [] tok rest Hbuf eq_refl
             Htok Hrest Hfull).
  - pose proof (parse_literal_filling_pool cfg (chars "A") x [] eq_refl Hx
                  (or_introl eq_refl) Hlen) as P.
    rewrite app_nil_r in P. apply P. fits H.
Qed.

Lemma literal_filling_the_pool_overruns_it_witness :
  literal (chars "abc") = true /\ length (chars "abc") = MAX_TOTAL_TERM_LEN tiny_pool
  /\ roomy 1 0 1 9 2 tiny_pool
  /\ parse tiny_pool (chars "$A := abc") = Undefined (StoreOutsideTermPool 3).
Proof.
  assert (hx : literal (chars "abc") = true) by reflexivity.
  assert (hl : length (chars "abc") = MAX_TOTAL_TERM_LEN tiny_pool) by reflexivity.
  assert (hr : roomy 1 0 1 9 2 tiny_pool) by (unfold roomy; cbn; lia).
  exact (conj hx (conj hl (conj hr
           (proj2 (literal_filling_the_pool_overruns_it tiny_pool (chars "abc") hx hl hr))))).
Defined.

(** C10: in the table of every run that ends normally, each name starts
    with the [$] of its spelling, whether a header or a reference made the
    entry, and each [idx] is the position of its record. *)
Theorem names_keep_dollar_and_idx_is_position cfg input t :
  parse cfg input = Ok t ->
  forall i nt, nth_error (nontermTable t) i = Some nt ->
    hd_error (name nt) = Some "$"%char /\ idx nt = Z.of_nat i.
Proof. exact (names_keep_dollar cfg input t). Qed.

Lemma names_keep_dollar_and_idx_is_position_witness :
  parse sample (chars "$A := $B x") =
    Ok {| nontermTable :=
            [ {| name := chars "$A"; idx := 0; expr := 0; complete := true |};
              {| name := chars "$B"; idx := 1; expr := 0; complete := false |} ];
          exprTable :=
            [ Node AND (NON_TERMINAL, 1%Z) (NESTED_EXPRESSION, 1%Z);
              Node NO_OP (TERMINAL, 0%Z) (NOTHING, (-1)%Z) ];
          termTable := chars "x" ++ [NUL] |}
  /\ hd_error (chars "$B") = Some "$"%char /\ 1%Z = Z.of_nat 1.
Proof.
  assert (hp : parse sample (chars "$A := $B x") =
    Ok {| nontermTable :=
            [ {| name := chars "$A"; idx := 0; expr := 0; complete := true |};
              {| name := chars "$B"; idx := 1; expr := 0; complete := false |} ];
          exprTable :=
            [ Node AND (NON_TERMINAL, 1%Z) (NESTED_EXPRESSION, 1%Z);
              Node NO_OP (TERMINAL, 0%Z) (NOTHING, (-1)%Z) ];
          termTable := chars "x" ++ [NUL] |}) by (vm_compute; reflexivity).
  exact (conj hp (names_keep_dollar_and_idx_is_position sample _ _ hp 1
                    {| name := chars "$B"; idx := 1; expr := 0; complete := false |}
                    eq_refl)).
Defined.

(** * Further properties of the code *)

(** ** What a run never does *)

(** *** The rules of [sat] *)

Lemma sat_bind {A B} bad (P : A -> Prop) (Q : B -> Prop) (r : Result A) (k : A -> Result B) :
  sat bad P r -> (forall a, P a -> sat bad Q (k a)) -> sat bad Q (bind r k).
Proof. destruct r; cbn; auto. Qed.

Lemma sat_weaken {A} (bad bad' : Stop -> Prop) (P Q : A -> Prop) (r : Result A) :
  sat bad P r -> (forall st, bad' st -> bad st) -> (forall a, P a -> Q a) -> sat bad' Q r.
Proof. destruct r; cbn; auto. Qed.

Lemma sat_Ok {A} bad (Q : A -> Prop) (r : Result A) a : sat bad Q r -> r = Ok a -> Q a.
Proof. intros H ->. exact H. Qed.

Lemma sat_assert {B} bad (Q : B -> Prop) b a (k : Result B) :
  ~ bad (StopAssert a) -> (b = true -> sat bad Q k) -> sat bad Q (assert b a ;;; k).
Proof. destruct b; cbn; auto. Qed.

Lemma sat_name_store {B} bad cfg i n (Q : B -> Prop) (k : Result B) :
  ~ bad (StopUndefined (StoreOutsideName i n)) ->
  (n < MAX_NONTERM_NAME cfg -> sat bad Q k) -> sat bad Q (name_store cfg i n ;;; k).
Proof.
  intros Hb H. unfold name_store. destruct (Nat.ltb_spec n (MAX_NONTERM_NAME cfg)); cbn; auto.
Qed.

Lemma unsafe_name i n : ~ unsafe (StopUndefined (StoreOutsideName i n)).
Proof. cbn. tauto. Qed.

Lemma unsafe_assert a : ~ unsafe (StopAssert a).
Proof. cbn. tauto. Qed.

Lemma unsafe_fatal l c e : ~ unsafe (StopFatal l c e).
Proof. cbn. tauto. Qed.

Lemma sat_fatal {A} (Q : A -> Prop) s e : sat unsafe Q (fatal_error s e).
Proof. cbn. tauto. Qed.

Lemma sat_store_nonterm {B} cfg i f s (Q : B -> Prop) (k : State -> Result B) :
  i < MAX_NONTERMS cfg ->
  sat unsafe Q (k (with_nonterms (aset (nonterms s) i (f (nonterms s i))) s)) ->
  sat unsafe Q (bind (store_nonterm cfg i f s) k).
Proof.
  intros Hi H. unfold store_nonterm.
  replace (i <? MAX_NONTERMS cfg) with true by (symmetry; now apply Nat.ltb_lt). exact H.
Qed.

Lemma sat_store_expr {B} cfg i f s (Q : B -> Prop) (k : State -> Result B) :
  i < MAX_NESTED_EXPRS cfg ->
  sat unsafe Q (k (with_exprPool (aset (exprPool s) i (f (exprPool s i))) s)) ->
  sat unsafe Q (bind (store_expr cfg i f s) k).
Proof.
  intros Hi H. unfold store_expr.
  replace (i <? MAX_NESTED_EXPRS cfg) with true by (symmetry; now apply Nat.ltb_lt). exact H.
Qed.

Lemma sat_store_term {B} cfg i ch s (Q : B -> Prop) (k : State -> Result B) :
  sat unsafe Q (k (with_termPool (aset (termPool s) i ch) s)) ->
  sat unsafe Q (bind (store_term cfg i ch s) k).
Proof. intro H. unfold store_term. destruct (_ <? _); [exact H|cbn; tauto]. Qed.

(** *** The cursor stays on the line *)

Lemma run_length_le p (l : list char) : run_length p l <= length l.
Proof. induction l as [|c l IH]; cbn; [lia|]. destruct (p c); lia. Qed.

Lemma move_while_within p (buf : list char) regex :
  regex <= length buf -> regex + run_length p (skipn regex buf) <= length buf.
Proof. intro H. pose proof (run_length_le p (skipn regex buf)). rewrite length_skipn in *. lia. Qed.

Lemma peek_within (buf : list char) p : peek buf p <> NUL -> p < length buf.
Proof.
  intro H. destruct (Nat.lt_ge_cases p (length buf)) as [|Hge]; [assumption|].
  unfold peek in H. rewrite nth_overflow in H by assumption. congruence.
Qed.

Lemma eqb_peek_within (buf : list char) p c :
  (peek buf p =? c)%char = true -> c <> NUL -> p < length buf.
Proof. intros H Hc. apply Ascii.eqb_eq in H. apply peek_within. congruence. Qed.

(** *** memcpy2 *)

Lemma sat_load {B} buf p (Q : B -> Prop) (k : char -> Result B) :
  (p < length buf -> sat unsafe Q (k (peek buf p))) -> sat unsafe Q (bind (load buf p) k).
Proof.
  intro H. unfold load. destruct (Nat.ltb_spec p (length buf)); [now apply H|cbn; tauto].
Qed.

Lemma memcpy2_loop_safe cfg buf ec te tp : forall n dest src copied s (Q : nat * State -> Prop),
  (forall c s', nonterms s' = nonterms s -> currentNonterm s' = currentNonterm s ->
                exprPool s' = exprPool s -> freeExprIdx s' = freeExprIdx s ->
                currentTermStart s' = currentTermStart s -> Q (c, s')) ->
  sat unsafe Q (memcpy2_loop cfg buf ec te tp n dest src copied s).
Proof.
  induction n as [|n IH]; intros dest src copied s Q HQ; cbn [memcpy2_loop].
  - apply HQ; reflexivity.
  - apply sat_load. intros _.
    destruct (peek buf src =? ec)%char.
    + destruct (n <=? 0); [apply sat_fatal|].
      apply sat_load. intros _.
      destruct (strchr te (peek buf (S src))).
      * apply sat_store_term. apply IH. intros; apply HQ; cbn in *; congruence.
      * apply sat_store_term. apply IH. intros; apply HQ; cbn in *; congruence.
    + apply sat_store_term. apply IH. intros; apply HQ; cbn in *; congruence.
Qed.

Lemma run_length_end p (l : list char) : p NUL = false -> p (nth (run_length p l) l NUL) = false.
Proof.
  intro H. induction l as [|c l IH]; cbn; [exact H|].
  destruct (p c) eqn:E; [exact IH|exact E].
Qed.

Lemma move_while_end p buf regex :
  p NUL = false -> p (peek buf (regex + run_length p (skipn regex buf))) = false.
Proof. intro H. rewrite peek_skipn. now apply run_length_end. Qed.

Lemma not_blank_wordchar ch :
  blank ch = false -> (ch =? NUL)%char = false -> (ch =? NEWLINE)%char = false ->
  wordchar ch = true.
Proof.
  unfold blank, wordchar. intros Hb Hn Hl. rewrite Hn, Hl in *. cbn in *.
  rewrite andb_true_r in Hb. now rewrite Hb.
Qed.

(** *** parse_operator only moves the cursor *)

Lemma parse_operator_cursor buf regex s op regex' s' :
  parse_operator buf regex s = (op, regex', s') -> regex <= length buf ->
  regex <= regex' <= length buf
  /\ s' = with_currentColumn (currentColumn s + (regex' - regex)) s.
Proof.
  unfold parse_operator, move_while, moveRegexPtr.
  set (n := run_length blank (skipn regex buf)). intros H Hr.
  pose proof (move_while_within blank buf regex Hr) as Hn. fold n in Hn.
  destruct (_ || _).
  - inversion H; subst. split; [lia|]. f_equal. lia.
  - destruct (peek buf (regex + n) =? "|")%char eqn:E1.
    + apply eqb_peek_within in E1; [|discriminate].
      inversion H; subst. split; [lia|]. destruct s; unfold with_currentColumn; cbn -[Nat.sub]. f_equal. lia.
    + destruct (peek buf (regex + n) =? "*")%char eqn:E2.
      * apply eqb_peek_within in E2; [|discriminate].
        inversion H; subst. split; [lia|]. destruct s; unfold with_currentColumn; cbn -[Nat.sub].
        f_equal. lia.
      * inversion H; subst. split; [lia|]. f_equal. lia.
Qed.

(** *** parse_operand *)

Lemma find_referenced_bound s buf st sz : forall n i j,
  find_referenced s buf st sz i n = Some j -> i <= j < i + n.
Proof.
  induction n as [|n IH]; intros i j H; cbn in H; [discriminate|].
  destruct (memcmp_eq _ _ _ _).
  - inversion H; subst. lia.
  - apply IH in H. lia.
Qed.

Lemma parse_operand_safe cfg buf regex res s :
  nonterms_within cfg s -> regex <= length buf ->
  sat unsafe
      (fun '(opType, op, regex', s') =>
         nonterms_within cfg s' /\ currentNonterm s <= currentNonterm s'
         /\ freeExprIdx s' = freeExprIdx s
         /\ regex' <= length buf /\ (opType <> NOTHING -> regex < regex'))
      (parse_operand cfg buf regex res s).
Proof.
  intros W Hr. unfold parse_operand, move_while.
  set (n1 := run_length blank (skipn regex buf)).
  pose proof (move_while_within blank buf regex Hr) as Hn1. fold n1 in Hn1.
  pose proof (move_while_end blank buf regex eq_refl) as Hb. fold n1 in Hb.
  destruct (peek buf (regex + n1) =? NUL)%char eqn:E0; cbn [orb].
  { cbn. repeat split; auto; try lia. congruence. }
  destruct (peek buf (regex + n1) =? NEWLINE)%char eqn:E1; cbn [orb].
  { cbn. repeat split; auto; try lia. congruence. }
  destruct (peek buf (regex + n1) =? "|")%char eqn:E2; cbn [orb]; [apply sat_fatal|].
  destruct (peek buf (regex + n1) =? "*")%char eqn:E3; [apply sat_fatal|].
  pose proof (not_blank_wordchar _ Hb E0 E1) as Hw.
  apply run_length_wordchar_pos in Hw.
  set (n2 := run_length wordchar (skipn (regex + n1) buf)) in *.
  pose proof (move_while_within wordchar buf (regex + n1) Hn1) as Hn2. fold n2 in Hn2.
  cbn [currentColumn with_currentColumn].
  match goal with |- context [let '(_, _) := ?e in _] =>
    assert (Hsplit : exists s0 regex0,
      e = (s0, regex0) /\ regex + n1 < regex0 <= length buf
      /\ nonterms s0 = nonterms s /\ currentNonterm s0 = currentNonterm s
      /\ freeExprIdx s0 = freeExprIdx s) end.
  { destruct (peek buf (regex + n1 + n2 - 1) =? "*")%char eqn:E4; cbn [andb].
    - destruct (negb _).
      + eexists _, _. split; [reflexivity|]. split; [|now cbn].
        destruct (Nat.eq_dec n2 1) as [E|]; [|lia].
        rewrite E in E4. replace (regex + n1 + 1 - 1) with (regex + n1) in E4 by lia.
        congruence.
      + eexists _, _. split; [reflexivity|]. split; [lia|now cbn].
    - eexists _, _. split; [reflexivity|]. split; [lia|now cbn]. }
  destruct Hsplit as (s0 & regex0 & -> & Hlt & Hnt & Hcn & Hfe).
  assert (W0 : nonterms_within cfg s0) by (unfold nonterms_within in *; now rewrite Hcn).
  destruct (peek buf (regex + n1) =? "$")%char.
  - destruct (_ =? 1); [apply sat_fatal|].
    destruct (find_referenced _ _ _ _ _ _) as [opIdx|] eqn:Ef.
    + cbn. rewrite Hcn, Hfe. repeat split; auto; lia.
    + apply sat_assert; [apply unsafe_assert|]. cbn [currentNonterm with_currentNonterm].
      intro Hlt'. apply Nat.ltb_lt in Hlt'.
      apply sat_name_store; [apply unsafe_name|]. intros _.
      apply sat_store_nonterm; [lia|].
      cbn. unfold nonterms_within. cbn. repeat split; auto; try lia.
  - apply sat_assert; [apply unsafe_assert|]. intros _.
    unfold memcpy2. eapply sat_bind.
    + apply memcpy2_loop_safe with
        (Q := fun '(c, s') => nonterms s' = nonterms s0 /\ currentNonterm s' = currentNonterm s0
                              /\ freeExprIdx s' = freeExprIdx s0).
      intros; auto.
    + intros [size s1] (H1 & H2 & H3).
      apply sat_store_term. cbn. unfold nonterms_within; cbn.
      rewrite H2, H3, Hcn, Hfe. repeat split; auto; lia.
Qed.

(** *** parse_header *)

Lemma find_declared_safe s nm : forall n i,
  sat unsafe (fun found => match found with Some j => i <= j < i + n | None => True end)
      (find_declared s nm i n).
Proof.
  induction n as [|n IH]; intro i; cbn [find_declared]; [exact I|].
  destruct (strcmp_eq _ _).
  - destruct (complete _); [apply sat_fatal|]. cbn. lia.
  - eapply sat_weaken; [apply (IH (S i))|auto|]. intros [j|]; [lia|auto].
Qed.

Lemma parse_header_safe cfg buf regex s :
  nonterms_within cfg s -> regex <= length buf ->
  sat unsafe
      (fun '(i, regex', s') =>
         nonterms_within cfg s' /\ i < currentNonterm s'
         /\ freeExprIdx s' = freeExprIdx s /\ regex' <= length buf)
      (parse_header cfg buf regex s).
Proof.
  intros W Hr. unfold parse_header, moveRegexPtr, move_while.
  destruct (peek buf regex =? "$")%char eqn:E0; cbn [negb]; [|apply sat_fatal].
  apply eqb_peek_within in E0; [|discriminate].
  cbn [currentColumn with_currentColumn].
  set (n1 := run_length wordchar (skipn (S regex) buf)).
  pose proof (move_while_within wordchar buf (S regex) E0) as Hn1. fold n1 in Hn1.
  destruct (_ =? regex + 1); [apply sat_fatal|].
  destruct (_ || _); [apply sat_fatal|].
  apply sat_assert; [apply unsafe_assert|]. intros _.
  match goal with |- sat _ _ (bind (if ?c then _ else _) _) => destruct c end;
    [|cbn; tauto].
  cbn [bind].
  set (nm := bytes_at _ _ _).
  set (s1 := with_currentColumn _ _).
  assert (W1 : nonterms_within cfg s1) by exact W.
  eapply sat_bind with
    (P := fun found => match found with Some i => i < currentNonterm s1 | None => True end).
  { eapply sat_weaken; [apply (find_declared_safe s1 nm (currentNonterm s1) 0)|auto|].
    intros [j|]; [lia|auto]. }
  intros found Hfound.
  eapply sat_bind with
    (P := fun '(i, s2) => nonterms_within cfg s2 /\ i < currentNonterm s2
                          /\ freeExprIdx s2 = freeExprIdx s).
  { destruct found as [i|].
    - cbn. auto.
    - apply sat_assert; [apply unsafe_assert|]. cbn [currentNonterm with_currentNonterm].
      intro Hlt. apply Nat.ltb_lt in Hlt. cbn. unfold nonterms_within. cbn.
      repeat split; auto; lia. }
  intros [i s2] (W2 & Hi & Hf).
  apply sat_name_store; [apply unsafe_name|]. intros _.
  apply sat_store_nonterm.
  { destruct W2; lia. }
  cbn [currentColumn with_currentColumn with_nonterms].
  set (s3 := with_nonterms _ _).
  set (n2 := run_length isspace _).
  pose proof (move_while_within isspace buf (S regex + n1) Hn1) as Hn2. fold n2 in Hn2.
  destruct (peek buf (S regex + n1 + n2) =? ":")%char eqn:E1; cbn [negb]; [|apply sat_fatal].
  apply eqb_peek_within in E1; [|discriminate].
  destruct (peek buf (S (S regex + n1 + n2)) =? "=")%char eqn:E2; cbn [negb];
    [|apply sat_fatal].
  apply eqb_peek_within in E2; [|discriminate].
  set (n3 := run_length blank _).
  pose proof (move_while_within blank buf (S (S (S regex + n1 + n2))) E2) as Hn3.
  fold n3 in Hn3.
  destruct (_ || _); [apply sat_fatal|].
  cbn. unfold nonterms_within in *. cbn. repeat split; auto.
Qed.

(** *** parse_body *)

Lemma OperandType_eqb_neq a b : OperandType_eqb a b = false -> a <> b.
Proof. intros H ->. now destruct b. Qed.

Lemma parse_body_loop_safe cfg buf : forall fuel regex op cur curIdx prev s,
  length buf - regex < fuel -> regex <= length buf ->
  nonterms_within cfg s ->
  cur < MAX_NESTED_EXPRS cfg -> prev < MAX_NESTED_EXPRS cfg ->
  freeExprIdx s <= MAX_NESTED_EXPRS cfg ->
  sat unsafe
      (fun '(regex', prev', s') =>
         nonterms_within cfg s' /\ prev' < MAX_NESTED_EXPRS cfg
         /\ freeExprIdx s' <= MAX_NESTED_EXPRS cfg /\ regex' <= length buf)
      (parse_body_loop fuel cfg buf regex op cur curIdx prev s).
Proof.
  induction fuel as [|fuel IH]; intros regex op cur curIdx prev s Hfuel Hr W Hc Hp Hf;
    [lia|].
  cbn [parse_body_loop].
  eapply sat_bind; [apply (parse_operand_safe cfg buf regex op s W Hr)|].
  intros [[[opType op1] regex1] s1] (W1 & _ & Hf1 & Hr1 & Hprog).
  destruct (OperandType_eqb opType NOTHING) eqn:Et.
  { cbn. repeat split; auto. lia. }
  apply OperandType_eqb_neq in Et. specialize (Hprog Et).
  destruct (parse_operator buf regex1 s1) as [[opCode regex2] s2] eqn:Eo.
  destruct (parse_operator_cursor _ _ _ _ _ _ Eo Hr1) as (Hr2 & ->). clear Eo.
  apply sat_store_expr; [assumption|].
  set (s3 := with_exprPool _ _).
  eapply sat_bind with
    (P := fun '(regex3, cur', s4) =>
            regex2 <= regex3 <= length buf /\ cur' < MAX_NESTED_EXPRS cfg
            /\ nonterms_within cfg s4 /\ freeExprIdx s4 <= MAX_NESTED_EXPRS cfg).
  { destruct (OperatorType_eqb opCode ZERO_OR_MORE).
    - apply sat_store_expr; [assumption|].
      apply sat_assert; [apply unsafe_assert|].
      cbn [freeExprIdx with_exprPool with_currentColumn s3].
      intro Hlt. apply Nat.ltb_lt in Hlt.
      match goal with |- context [parse_operator buf regex2 ?st] =>
        destruct (parse_operator buf regex2 st) as [[newType regex3] s5] eqn:Eo;
        destruct (parse_operator_cursor _ _ _ _ _ _ Eo (proj2 Hr2)) as (Hr3 & ->); clear Eo
      end.
      apply sat_store_expr; [exact Hlt|].
      apply sat_store_expr; [assumption|].
      cbn. unfold nonterms_within in *. cbn. repeat split; auto; lia.
    - cbn. unfold nonterms_within in *. cbn. repeat split; auto; lia. }
  intros [[regex3 cur'] s4] (Hr3 & Hc' & W4 & Hf4).
  apply sat_assert; [apply unsafe_assert|]. intro Hlt. apply Nat.ltb_lt in Hlt.
  apply sat_store_expr; [assumption|].
  apply IH; cbn; auto; lia.
Qed.

Lemma parse_body_safe cfg buf regex nontermIdx s :
  within cfg s -> nontermIdx < MAX_NONTERMS cfg -> regex <= length buf ->
  sat unsafe (fun '(regex', s') => within cfg s') (parse_body cfg buf regex nontermIdx s).
Proof.
  intros [W We] Hi Hr. unfold parse_body.
  apply sat_assert; [apply unsafe_assert|]. intro Hlt. apply Nat.ltb_lt in Hlt.
  apply sat_store_nonterm; [assumption|].
  eapply sat_bind.
  { apply parse_body_loop_safe; cbn; auto; lia. }
  intros [[regex' prev] s1] (W1 & Hp & Hf & _).
  apply sat_assert; [apply unsafe_assert|]. intros _.
  apply sat_store_expr; [assumption|].
  cbn. split; [exact W1|]. cbn. lia.
Qed.

Lemma parse_regex_safe cfg buf s :
  within cfg s -> sat unsafe (within cfg) (parse_regex cfg buf s).
Proof.
  intros W. unfold parse_regex, move_while.
  set (n := run_length isspace _).
  pose proof (move_while_within isspace buf 0 (Nat.le_0_l _)) as Hn. fold n in Hn.
  destruct (_ =? NUL)%char; [exact W|].
  destruct (_ =? "!")%char; [exact W|].
  eapply sat_bind.
  { apply parse_header_safe; [exact (proj1 W)|exact Hn]. }
  intros [[i regex1] s1] (W1 & Hi & Hf & Hr1).
  assert (Hi' : i < MAX_NONTERMS cfg) by (destruct W1; lia).
  eapply sat_bind.
  { apply parse_body_safe; auto. split; [exact W1|]. rewrite Hf. exact (proj2 W). }
  intros [regex2 s2] W2.
  unfold store_nonterm.
  replace (i <? MAX_NONTERMS cfg) with true by (symmetry; now apply Nat.ltb_lt).
  exact W2.
Qed.

(** *** The loop over the lines *)

Lemma read_lines_stores_inside cfg : forall fuel input buf s,
  within cfg s -> sat outside_tables (within cfg) (read_lines fuel cfg input buf s).
Proof.
  induction fuel as [|fuel IH]; intros input buf s W; destruct input as [|c input];
    cbn [read_lines]; try exact W; [cbn; tauto|].
  destruct (fgets _ _) as [line rest].
  eapply sat_bind.
  - eapply sat_weaken; [apply parse_regex_safe; exact W| |intros a Ha; exact Ha].
    intros st Hst. destruct st; cbn in *; auto.
  - intros s1 W1. now apply IH.
Qed.

Lemma fgets_shorter : forall input n c,
  length (snd (fgets (S n) (c :: input))) <= length input.
Proof.
  assert (H : forall input n, length (snd (fgets n input)) <= length input).
  { induction input as [|d input IH]; intros [|n]; cbn [fgets snd length]; try lia.
    destruct (d =? NEWLINE)%char; cbn [snd]; [lia|].
    specialize (IH n). destruct (fgets n input) as [l r]. cbn [snd] in *. lia. }
  intros input n c. cbn [fgets].
  destruct (c =? NEWLINE)%char; cbn [snd]; [lia|].
  specialize (H input n). destruct (fgets n input) as [l r]. exact H.
Qed.

Lemma read_lines_safe cfg : 2 <= MAX_REGEX_LEN cfg -> forall fuel input buf s,
  length input <= fuel -> within cfg s ->
  sat unsafe (within cfg) (read_lines fuel cfg input buf s).
Proof.
  intro Hmax.
  induction fuel as [|fuel IH]; intros input buf s Hfuel W; destruct input as [|c input];
    cbn [read_lines]; try exact W; [cbn in Hfuel; lia|].
  pose proof (fgets_shorter input (MAX_REGEX_LEN cfg - 2) c) as Hs.
  replace (S (MAX_REGEX_LEN cfg - 2)) with (MAX_REGEX_LEN cfg - 1) in Hs by lia.
  destruct (fgets _ _) as [line rest]. cbn [snd] in Hs.
  eapply sat_bind; [apply parse_regex_safe; exact W|].
  intros s1 W1. apply IH; [cbn in Hfuel; lia|exact W1].
Qed.

Lemma within_initial cfg : within cfg (initial cfg).
Proof. split; left; reflexivity. Qed.

(** *** A reference longer than a name *)

Lemma memcmp_eq_longer nm buf start n :
  length nm < n -> peek buf (start + length nm) <> NUL ->
  memcmp_eq nm buf start n = false.
Proof.
  intros Hlen Hp. unfold memcmp_eq.
  destruct (forallb _ _) eqn:E; [|reflexivity].
  rewrite forallb_forall in E. specialize (E (length nm)).
  rewrite in_seq, nth_overflow in E by lia.
  assert (Hin : 0 <= length nm < 0 + n) by lia.
  apply E, Ascii.eqb_eq in Hin. congruence.
Qed.

Lemma find_referenced_none s buf start size : forall n i,
  (forall j, i <= j < i + n -> memcmp_eq (name (nonterms s j)) buf start size = false) ->
  find_referenced s buf start size i n = None.
Proof.
  induction n as [|n IH]; intros i H; cbn [find_referenced]; [reflexivity|].
  rewrite H by lia. apply IH. intros j Hj. apply H. lia.
Qed.

Lemma parse_operand_long_reference cfg buf regex res s ref rest :
  skipn regex buf = ("$"%char :: ref) ++ rest ->
  ref <> [] -> forallb plain ref = true -> wordchar (hd NUL rest) = false ->
  (forall j, j < currentNonterm s -> length (name (nonterms s j)) < S (length ref)) ->
  S (currentNonterm s) < MAX_NONTERMS cfg ->
  MAX_NONTERM_NAME cfg <= S (length ref) ->
  parse_operand cfg buf regex res s
  = Undefined (StoreOutsideName (currentNonterm s) (S (length ref))).
Proof.
  intros H Hne Hplain Hrest Hshort Hcap Hlong.
  assert (Hword : forallb wordchar ("$"%char :: ref) = true).
  { cbn [forallb]. apply andb_true_intro. split; [reflexivity|].
    eapply forallb_weaken; [|exact Hplain]. intros a Ha. now apply plain_parts in Ha. }
  assert (H0 : skipn regex buf = [] ++ ("$"%char :: ref) ++ rest) by exact H.
  unfold parse_operand.
  rewrite (move_while_over blank buf s regex [] _ H0 eq_refl) by reflexivity.
  cbn [length]. rewrite !Nat.add_0_r.
  rewrite (peek_hd buf regex), H. cbn [hd app Ascii.eqb Bool.eqb NUL NEWLINE orb].
  rewrite (move_while_over wordchar buf _ regex ("$"%char :: ref) rest H Hword)
    by (destruct rest as [|r rest']; cbn in *; [reflexivity|now rewrite Hrest]).
  set (n := length ("$"%char :: ref)).
  assert (Hn : n = S (length ref)) by reflexivity.
  assert (Hn2 : 2 <= n) by (destruct ref; [congruence|cbn in *; lia]).
  assert (Hlast : (peek buf (regex + n - 1) =? "*")%char = false).
  { replace (regex + n - 1) with (regex + (n - 1)) by lia. rewrite peek_skipn, H.
    rewrite app_nth1 by (fold n; lia).
    replace (n - 1) with (S (length ref - 1)) by lia. cbn [nth].
    assert (Hk : plain (nth (length ref - 1) ref NUL) = true)
      by (apply forallb_nth; [assumption|lia]).
    now apply plain_parts in Hk. }
  rewrite Hlast. cbn [andb].
  replace (regex + n - regex) with n by lia.
  replace (n =? 1) with false by (symmetry; apply Nat.eqb_neq; lia).
  rewrite find_referenced_none.
  2:{ intros j Hj. cbn [currentNonterm with_currentColumn] in Hj.
      apply memcmp_eq_longer.
      - cbn [nonterms with_currentColumn]. rewrite Hn. apply Hshort. lia.
      - cbn [nonterms with_currentColumn]. rewrite peek_skipn, H.
        assert (Hl : length (name (nonterms s j)) < n) by (rewrite Hn; apply Hshort; lia).
        rewrite app_nth1 by (fold n; lia).
        assert (Hk : wordchar (nth (length (name (nonterms s j))) ("$"%char :: ref) NUL) = true)
          by (apply forallb_nth; [assumption|fold n; lia]).
        intro E. rewrite E in Hk. discriminate. }
  unfold assert. cbn [currentNonterm with_currentNonterm with_currentColumn].
  replace (S (currentNonterm s) <? MAX_NONTERMS cfg) with true
    by (symmetry; apply Nat.ltb_lt; lia).
  cbn [bind]. unfold name_store.
  replace (n <? MAX_NONTERM_NAME cfg) with false by (symmetry; apply Nat.ltb_ge; lia).
  cbn [bind]. now rewrite Hn.
Qed.

Lemma parse_long_reference cfg nm ref eol :
  valid_name nm = true -> ref <> [] -> forallb plain ref = true -> line_end eol ->
  2 < MAX_NONTERMS cfg -> 1 <= MAX_NESTED_EXPRS cfg ->
  length (line_text nm ("$"%char :: ref) ++ eol) < MAX_REGEX_LEN cfg ->
  S (length nm) < MAX_NONTERM_NAME cfg ->
  MAX_NONTERM_NAME cfg <= S (length ref) ->
  parse cfg (line_text nm ("$"%char :: ref) ++ eol)
  = Undefined (StoreOutsideName 1 (S (length ref))).
Proof.
  intros Hnm Hne Hplain Heol Hn He Hl Hm Hlong.
  pose proof (hd_line_end eol Heol) as Htail.
  assert (Htw : wordchar (hd NUL (eol ++ [NUL])) = false)
    by (destruct Htail as [->| ->]; reflexivity).
  assert (Hw : forallb wordchar ref = true).
  { eapply forallb_weaken; [|exact Hplain]. intros a Ha. now apply plain_parts in Ha. }
  destruct (parse_definition cfg nm ("$"%char :: ref) eol) as [H1 ->]; auto; try lia.
  { change ("$"%char :: ref) with (["$"%char] ++ ref).
    rewrite no_newline_app, (no_newline_wordchars ref Hw). reflexivity. }
  set (buf := line_text nm _ ++ eol ++ [NUL]) in *.
  cbn [parse_body_loop].
  rewrite (parse_operand_long_reference cfg buf _ _ _ ref _ H1 Hne Hplain Htw); try lia.
  - reflexivity.
  - intros j Hj. cbn in Hj. assert (j = 0) by lia. subst j. cbn. lia.
  - cbn. lia.
Qed.

(** X1: no store into the table of non-terminals uses the index of a
    record outside the table: every index was found in the table or has
    passed the assertion on [currentNonterm].  The bytes of a name are
    another matter.  parse_operand copies the name of a reference it has
    not met before into the record with no check of its length: on
    [$nm := $ref], with a reference of MAX_NONTERM_NAME characters or
    more, the [$] counted, the copy runs over the end of the name array
    of record 1. *)
Theorem nonterms_overrun_only_by_a_name cfg :
  (forall input i, parse cfg input <> Undefined (StoreOutsideNonterms i))
  /\ (forall nm ref eol,
        valid_name nm = true -> ref <> [] -> forallb plain ref = true -> line_end eol ->
        2 < MAX_NONTERMS cfg -> 1 <= MAX_NESTED_EXPRS cfg ->
        length (line_text nm ("$"%char :: ref) ++ eol) < MAX_REGEX_LEN cfg ->
        S (length nm) < MAX_NONTERM_NAME cfg ->
        MAX_NONTERM_NAME cfg <= S (length ref) ->
        parse cfg (line_text nm ("$"%char :: ref) ++ eol)
        = Undefined (StoreOutsideName 1 (S (length ref)))).
Proof.
  split.
  - intros input i. unfold parse, parse_regex_spec, fmap.
    pose proof (read_lines_stores_inside cfg (length input) input [] (initial cfg)
                  (within_initial cfg)) as H.
    destruct (read_lines _ _ _ _ _); cbn in *; try discriminate.
    intro E. inversion E; subst. apply H. exact I.
  - intros nm ref eol. apply parse_long_reference.
Qed.

Lemma nonterms_overrun_only_by_a_name_witness :
  parse (mkConfig 8 64 16 80 4 NO_OP NOTHING) (chars "$A := $long")
  = Undefined (StoreOutsideName 1 5).
Proof.
  exact (proj2 (nonterms_overrun_only_by_a_name (mkConfig 8 64 16 80 4 NO_OP NOTHING))
           (chars "A") (chars "long") [] eq_refl ltac:(discriminate) eq_refl
           (or_introl eq_refl) ltac:(cbn; lia) ltac:(cbn; lia) ltac:(cbn; lia)
           ltac:(cbn; lia) ltac:(cbn; lia)).
Defined.

(** X2: no run stores outside the expression pool: each node is written only
    after [freeExprIdx < MAX_NESTED_EXPRS] was asserted for its index. *)
Theorem exprPool_never_overrun cfg input i :
  parse cfg input <> Undefined (StoreOutsideExprPool i).
Proof.
  unfold parse, parse_regex_spec, fmap.
  pose proof (read_lines_stores_inside cfg (length input) input [] (initial cfg)
                (within_initial cfg)) as H.
  destruct (read_lines _ _ _ _ _); cbn in *; try discriminate.
  intro E. inversion E; subst. apply H. exact I.
Qed.

(** X3: with a line buffer of two bytes or more every run comes to an end: each
    [fgets] takes a character off the stream, and each iteration of the
    loop of parse_body moves the cursor forward on the line. *)
Theorem every_run_ends cfg input :
  2 <= MAX_REGEX_LEN cfg -> parse cfg input <> OutOfFuel.
Proof.
  intro Hmax. unfold parse, parse_regex_spec, fmap.
  pose proof (read_lines_safe cfg Hmax (length input) input [] (initial cfg)
                (Nat.le_refl _) (within_initial cfg)) as H.
  destruct (read_lines _ _ _ _ _); cbn in *; try discriminate.
  intros _. apply H. exact I.
Qed.

Lemma every_run_ends_witness :
  2 <= MAX_REGEX_LEN sample /\ parse sample (chars "$A := x* | $B") <> OutOfFuel.
Proof.
  assert (h : 2 <= MAX_REGEX_LEN sample) by (cbn; lia).
  exact (conj h (every_run_ends sample (chars "$A := x* | $B") h)).
Defined.

(** X4: the assertions are made on the counter after it was advanced, and the
    loop of parse_body holds one node in reserve: a run that goes through
    never fills either table to its last slot. *)
Theorem last_slot_stays_free cfg input t :
  parse cfg input = Ok t ->
  (nontermTable t = [] \/ length (nontermTable t) < MAX_NONTERMS cfg)
  /\ (exprTable t = [] \/ length (exprTable t) < MAX_NESTED_EXPRS cfg).
Proof.
  unfold parse, parse_regex_spec, fmap.
  pose proof (read_lines_stores_inside cfg (length input) input [] (initial cfg)
                (within_initial cfg)) as H.
  destruct (read_lines _ _ _ _ _) as [s| | | |]; cbn in *; try discriminate.
  intro E. inversion E; subst. clear E. cbn. rewrite !length_map, !length_seq.
  destruct H as [[->| ] [->| ]]; auto.
Qed.

Lemma last_slot_stays_free_witness :
  parse (mkConfig 2 8 3 16 4 NO_OP NOTHING) (chars "$A := x y") =
    Ok {| nontermTable := [ {| name := chars "$A"; idx := 0; expr := 0; complete := true |} ];
          exprTable := [ Node AND (TERMINAL, 0%Z) (NESTED_EXPRESSION, 1%Z);
                         Node NO_OP (TERMINAL, 2%Z) (NOTHING, (-1)%Z) ];
          termTable := chars "x" ++ NUL :: chars "y" ++ [NUL] |}
  /\ 1 < 2 /\ 2 < 3.
Proof.
  assert (hp : parse (mkConfig 2 8 3 16 4 NO_OP NOTHING) (chars "$A := x y") =
    Ok {| nontermTable := [ {| name := chars "$A"; idx := 0; expr := 0; complete := true |} ];
          exprTable := [ Node AND (TERMINAL, 0%Z) (NESTED_EXPRESSION, 1%Z);
                         Node NO_OP (TERMINAL, 2%Z) (NOTHING, (-1)%Z) ];
          termTable := chars "x" ++ NUL :: chars "y" ++ [NUL] |}) by (vm_compute; reflexivity).
  pose proof (last_slot_stays_free _ _ _ hp) as [[h1|h1] [h2|h2]];
    try discriminate h1; try discriminate h2.
  exact (conj hp (conj h1 h2)).
Defined.

(** ** The shape of the tables *)

(** *** Runs that go through *)

Lemma sat_through {A} (Q : A -> Prop) (r : Result A) :
  (forall a, r = Ok a -> Q a) -> sat no_stop Q r.
Proof. destruct r; cbn; unfold no_stop; auto. Qed.

Lemma sat_fatal_any {A} (Q : A -> Prop) s e : sat no_stop Q (fatal_error s e).
Proof. cbn. unfold no_stop. tauto. Qed.

Lemma through_assert {B} (Q : B -> Prop) b a (k : Result B) :
  (b = true -> sat no_stop Q k) -> sat no_stop Q (assert b a ;;; k).
Proof. apply sat_assert. unfold no_stop. tauto. Qed.

Lemma through_name_store {B} cfg i n (Q : B -> Prop) (k : Result B) :
  (n < MAX_NONTERM_NAME cfg -> sat no_stop Q k) -> sat no_stop Q (name_store cfg i n ;;; k).
Proof. apply sat_name_store. unfold no_stop. tauto. Qed.

Lemma through_store_nonterm {B} cfg i f s (Q : B -> Prop) (k : State -> Result B) :
  sat no_stop Q (k (with_nonterms (aset (nonterms s) i (f (nonterms s i))) s)) ->
  sat no_stop Q (bind (store_nonterm cfg i f s) k).
Proof. intro H. unfold store_nonterm. destruct (_ <? _); [exact H|cbn; unfold no_stop; tauto]. Qed.

Lemma through_store_expr {B} cfg i f s (Q : B -> Prop) (k : State -> Result B) :
  sat no_stop Q (k (with_exprPool (aset (exprPool s) i (f (exprPool s i))) s)) ->
  sat no_stop Q (bind (store_expr cfg i f s) k).
Proof. intro H. unfold store_expr. destruct (_ <? _); [exact H|cbn; unfold no_stop; tauto]. Qed.

Lemma through_store_term {B} cfg i ch s (Q : B -> Prop) (k : State -> Result B) :
  sat no_stop Q (k (with_termPool (aset (termPool s) i ch) s)) ->
  sat no_stop Q (bind (store_term cfg i ch s) k).
Proof. intro H. unfold store_term. destruct (_ <? _); [exact H|cbn; unfold no_stop; tauto]. Qed.

Lemma through_load {B} buf p (Q : B -> Prop) (k : char -> Result B) :
  sat no_stop Q (k (peek buf p)) -> sat no_stop Q (bind (load buf p) k).
Proof. intro H. unfold load. destruct (_ <? _); [exact H|cbn; unfold no_stop; tauto]. Qed.

Lemma aset_eq {T} (a : nat -> T) i v : aset a i v i = v.
Proof. unfold aset. now rewrite Nat.eqb_refl. Qed.

Lemma aset_neq {T} (a : nat -> T) i v j : j <> i -> aset a i v j = a j.
Proof. unfold aset. intro H. now destruct (Nat.eqb_spec j i). Qed.

Ltac asets := repeat (rewrite aset_eq || rewrite aset_neq by lia).

(** *** Tables that only grow *)

Lemma grows_refl s : grows s s.
Proof. repeat split; auto. Qed.

Lemma grows_trans s1 s2 s3 : grows s1 s2 -> grows s2 s3 -> grows s1 s3.
Proof.
  intros (a1 & b1 & c1) (a2 & b2 & c2). repeat split; try lia.
  intros j Hj. rewrite c2 by lia. now apply c1.
Qed.

Lemma exprs_kept_trans s1 s2 s3 :
  exprs_kept s1 s2 -> exprs_kept s2 s3 -> currentNonterm s1 <= currentNonterm s2 ->
  exprs_kept s1 s3.
Proof. intros H1 H2 Hle i Hi. rewrite H2 by lia. now apply H1. Qed.

Lemma roots_kept_refl s : roots_kept s s.
Proof. intros i H. auto. Qed.

Lemma roots_kept_trans s1 s2 s3 : roots_kept s1 s2 -> roots_kept s2 s3 -> roots_kept s1 s3.
Proof.
  intros H1 H2 i H. destruct (H2 i H) as [Hc He]. destruct (H1 i Hc) as [Hc' He'].
  split; congruence.
Qed.

Lemma terminated_grows s s' v : terminated s v -> grows s s' -> terminated s' v.
Proof.
  intros [Hv (j & Hj & Hn)] (_ & Hc & Hp). split; [exact Hv|].
  exists j. split; [lia|]. rewrite Hp by lia. exact Hn.
Qed.

Lemma operand_ok_grows s s' b b' t v :
  operand_ok s b t v -> grows s s' -> b <= b' -> operand_ok s' b' t v.
Proof.
  intros H G Hb. destruct t; cbn in *; auto; try lia.
  - destruct G as (Hn & _). lia.
  - eapply terminated_grows; eauto.
Qed.

Lemma node_ok_grows s s' b1 b2 b1' b2' e :
  node_ok s b1 b2 e -> grows s s' -> b1 <= b1' -> b2 <= b2' -> node_ok s' b1' b2' e.
Proof.
  intros (H1 & H2 & H3 & H4) G Hb1 Hb2. repeat split; auto;
    eapply operand_ok_grows; eauto.
Qed.

(** *** memcpy2 stores from [dest] upwards *)

Lemma memcpy2_loop_frame cfg buf ec te tp : forall n dest src copied s,
  sat no_stop
      (fun '(copied', s') =>
         nonterms s' = nonterms s /\ currentNonterm s' = currentNonterm s
         /\ exprPool s' = exprPool s /\ freeExprIdx s' = freeExprIdx s
         /\ currentTermStart s' = currentTermStart s
         /\ copied' <= copied
         /\ forall j, j < dest \/ dest + n <= j -> termPool s' j = termPool s j)
      (memcpy2_loop cfg buf ec te tp n dest src copied s).
Proof.
  induction n as [|n IH]; intros dest src copied s; cbn [memcpy2_loop].
  - cbn. repeat split; auto.
  - apply through_load.
    assert (Hstep : forall ch src' copied' s0,
      nonterms s0 = nonterms s -> currentNonterm s0 = currentNonterm s ->
      exprPool s0 = exprPool s -> freeExprIdx s0 = freeExprIdx s ->
      currentTermStart s0 = currentTermStart s -> termPool s0 = termPool s ->
      copied' <= copied ->
      sat no_stop
        (fun '(copied'0, s') =>
           nonterms s' = nonterms s /\ currentNonterm s' = currentNonterm s
           /\ exprPool s' = exprPool s /\ freeExprIdx s' = freeExprIdx s
           /\ currentTermStart s' = currentTermStart s
           /\ copied'0 <= copied
           /\ forall j, j < dest \/ dest + S n <= j -> termPool s' j = termPool s j)
        (s1 <- store_term cfg dest ch s0 ;;
         memcpy2_loop cfg buf ec te tp n (S dest) src' copied' s1)).
    { intros ch src' copied' s0 E1 E2 E3 E4 E5 E6 Hc.
      apply through_store_term.
      eapply sat_weaken; [apply IH|auto|].
      intros [c' s'] (F1 & F2 & F3 & F4 & F5 & F6 & F7). cbn in *.
      repeat split; try congruence; try lia.
      intros j Hj. rewrite F7 by lia. unfold aset.
      destruct (Nat.eqb_spec j dest); [lia|]. now rewrite E6. }
    destruct (peek buf src =? ec)%char.
    + destruct (n <=? 0); [apply sat_fatal_any|].
      apply through_load.
      destruct (strchr te (peek buf (S src))).
      * apply Hstep; auto. lia.
      * apply Hstep; cbn; auto. lia.
    + apply Hstep; auto.
Qed.

(** *** parse_operand *)

Lemma parse_operand_shape cfg buf regex res s :
  sat no_stop
      (fun '(opType, op, regex', s') =>
         grows s s' /\ roots_kept s s' /\ exprs_kept s s'
         /\ exprPool s' = exprPool s /\ freeExprIdx s' = freeExprIdx s
         /\ opType <> NESTED_EXPRESSION /\ operand_ok s' 0 opType op
         /\ (starts_operand buf regex -> opType <> NOTHING))
      (parse_operand cfg buf regex res s).
Proof.
  unfold parse_operand, move_while.
  assert (Hs : starts_operand buf regex ->
               (peek buf (regex + run_length blank (skipn regex buf)) =? NUL)%char
               || (peek buf (regex + run_length blank (skipn regex buf)) =? NEWLINE)%char
               = false) by (intro H; exact H).
  set (n1 := run_length blank (skipn regex buf)) in *.
  destruct ((peek buf (regex + n1) =? NUL)%char || (peek buf (regex + n1) =? NEWLINE)%char)
    eqn:E0.
  { cbn. repeat split; auto; try apply grows_refl; try apply roots_kept_refl;
      try discriminate. intro H. apply Hs in H. discriminate. }
  clear Hs.
  destruct ((peek buf (regex + n1) =? "|")%char || (peek buf (regex + n1) =? "*")%char);
    [apply sat_fatal_any|].
  set (n2 := run_length wordchar (skipn (regex + n1) buf)).
  cbn [currentColumn with_currentColumn].
  match goal with |- context [let '(_, _) := ?e in _] =>
    assert (Hsplit : exists c regex0, e = (with_currentColumn c s, regex0)) end.
  { destruct (_ && _); eexists _, _; destruct s; reflexivity. }
  destruct Hsplit as (c & regex0 & ->).
  set (size := regex0 - (regex + n1)).
  destruct (peek buf (regex + n1) =? "$")%char.
  - destruct (_ =? 1); [apply sat_fatal_any|].
    destruct (find_referenced _ _ _ _ _ _) as [opIdx|] eqn:Ef.
    + apply find_referenced_bound in Ef. cbn in *.
      repeat split; auto; try apply grows_refl; try apply roots_kept_refl;
        try discriminate; try lia.
    + apply through_assert. intros _. apply through_name_store. intros _.
      apply through_store_nonterm.
      set (s' := with_nonterms _ _).
      assert (G : grows s s') by (repeat split; cbn; auto).
      assert (K : exprs_kept s s').
      { intros i Hi. cbn. rewrite aset_neq by lia. reflexivity. }
      assert (R : roots_kept s s').
      { intros i Hi. cbn in Hi |- *. unfold aset in *.
        destruct (i =? currentNonterm s); [discriminate|auto]. }
      cbn [sat]. split; [exact G|]. split; [exact R|]. split; [exact K|].
      cbn -[Z.of_nat]. repeat split; auto; try discriminate; lia.
  - apply through_assert. intros _.
    unfold memcpy2. eapply sat_bind; [apply memcpy2_loop_frame|].
    intros [copied s1] (F1 & F2 & F3 & F4 & F5 & F6 & F7). cbn in F1, F2, F3, F4, F5, F7.
    apply through_store_term.
    set (s' := with_currentTermStart _ _).
    assert (G : grows s s').
    { repeat split; cbn; try lia.
      intros j Hj. rewrite aset_neq by lia. apply F7. lia. }
    assert (K : exprs_kept s s') by (intros i Hi; cbn; now rewrite F1).
    assert (R : roots_kept s s').
    { intros i Hi. cbn in Hi |- *. rewrite F1 in *. auto. }
    cbn [sat]. split; [exact G|]. split; [exact R|]. split; [exact K|].
    cbn -[Z.of_nat]. repeat split; try congruence; try discriminate; try lia.
    exists (currentTermStart s1 + copied). cbn. split; [lia|].
    unfold aset. now rewrite Nat.eqb_refl.
Qed.

(** *** parse_body *)

Lemma parse_operator_column buf regex s :
  exists c, snd (parse_operator buf regex s) = with_currentColumn c s.
Proof.
  unfold parse_operator, move_while, moveRegexPtr.
  destruct (_ || _); [eexists; reflexivity|].
  destruct (_ =? "|")%char; [eexists; destruct s; reflexivity|].
  destruct (_ =? "*")%char; eexists; destruct s; reflexivity.
Qed.

Lemma OperatorType_eqb_eq a b : OperatorType_eqb a b = true -> a = b.
Proof. destruct a, b; cbn; congruence. Qed.

Lemma parse_body_loop_shape cfg buf : forall fuel regex op cur curIdx prev s,
  loop_inv cur curIdx prev s ->
  sat no_stop
      (fun '(regex', prev', s') =>
         exists cur',
           loop_inv cur' cur' prev' s' /\ grows s s' /\ roots_kept s s'
           /\ exprs_kept s s'
           /\ ((cur' = cur /\ prev' = prev) \/ (cur < cur' /\ S prev' = cur'))
           /\ (starts_operand buf regex -> cur < cur'))
      (parse_body_loop fuel cfg buf regex op cur curIdx prev s).
Proof.
  induction fuel as [|fuel IH]; intros regex op cur curIdx prev s Inv;
    [cbn; unfold no_stop; tauto|].
  cbn [parse_body_loop].
  eapply sat_bind; [apply parse_operand_shape|].
  intros [[[opType op1v] regex1] s1] (G1 & R1 & K1 & Ep & Ef & Hnn & Hop & Hst).
  destruct Inv as (Hfree & -> & Hprev & Hnodes).
  destruct (OperandType_eqb opType NOTHING) eqn:Et.
  { cbn [sat]. exists cur. split; [|split; [exact G1|split; [exact R1|split; [exact K1|split]]]].
    - split; [congruence|]. split; [reflexivity|]. split; [exact Hprev|].
      intros k Hk. rewrite Ep. eapply node_ok_grows; eauto.
    - left. auto.
    - intro H. apply Hst in H. destruct opType; cbn in Et; congruence. }
  apply OperandType_eqb_neq in Et.
  destruct (parse_operator_column buf regex1 s1) as [c Hc].
  destruct (parse_operator buf regex1 s1) as [[opCode regex2] s2]. cbn [snd] in Hc. subst s2.
  apply through_store_expr.
  cbn [exprPool with_exprPool with_currentColumn].
  eapply sat_bind with
    (P := fun '(regex3, cur', s4) =>
            grows s s4 /\ roots_kept s s4 /\ exprs_kept s s4
            /\ freeExprIdx s4 = S cur' /\ cur <= cur'
            /\ (forall k, k < cur' -> node_ok s4 (S cur') (S cur') (exprPool s4 k))
            /\ op1Type (exprPool s4 cur') <> NOTHING
            /\ operand_ok s4 (S cur') (op1Type (exprPool s4 cur')) (op1 (exprPool s4 cur'))).
  { destruct (OperatorType_eqb opCode ZERO_OR_MORE) eqn:Eo.
    - apply through_store_expr. apply through_assert. intros _.
      cbn [freeExprIdx with_exprPool with_currentColumn]. rewrite Ef, Hfree.
      match goal with |- context [parse_operator buf regex2 ?st] =>
        destruct (parse_operator_column buf regex2 st) as [c' Hc'];
        destruct (parse_operator buf regex2 st) as [[newType regex3] s3] end.
      cbn [snd] in Hc'. subst s3.
      apply through_store_expr. apply through_store_expr.
      cbn [freeExprIdx with_exprPool with_currentColumn]. rewrite Ef, Hfree.
      set (s4 := with_freeExprIdx _ _).
      assert (G14 : grows s1 s4) by (repeat split; auto).
      cbn [sat]. split; [exact (grows_trans _ _ _ G1 G14)|].
      split; [intros i Hi; apply R1; exact Hi|].
      split; [intros i Hi; apply K1; exact Hi|].
      split; [reflexivity|]. split; [lia|].
      assert (Hop4 : operand_ok s4 (S (S cur)) opType op1v)
        by (eapply operand_ok_grows; [exact Hop|exact G14|lia]).
      split; [|split].
      + intros k Hk. cbn [s4 exprPool with_exprPool with_freeExprIdx with_currentColumn].
        rewrite Ep.
        destruct (Nat.eq_dec k cur) as [->|Hkc]; [destruct (Nat.eq_dec prev cur) as [->|Hpc]|
          destruct (Nat.eq_dec k prev) as [->|Hkp]]; asets.
        * split; [exact Et|]. split; [exact Hop4|]. split; [now right|]. cbn -[Z.of_nat]. lia.
        * split; [exact Et|]. split; [exact Hop4|]. split; [now left|exact I].
        * assert (Hp : prev < cur) by lia. specialize (Hnodes prev Hp).
          rewrite Nat.eqb_refl in Hnodes. destruct Hnodes as (N1 & N2 & _ & _).
          split; [exact N1|]. split; [|split; [now right|cbn -[Z.of_nat]; lia]].
          eapply operand_ok_grows; [exact N2|exact (grows_trans _ _ _ G1 G14)|lia].
        * eapply node_ok_grows; [apply Hnodes; lia|exact (grows_trans _ _ _ G1 G14)|lia|].
          destruct (k =? prev); lia.
      + cbn [s4 exprPool with_exprPool with_freeExprIdx with_currentColumn]. asets.
        discriminate.
      + cbn [s4 exprPool with_exprPool with_freeExprIdx with_currentColumn]. asets.
        cbn -[Z.of_nat]. lia.
    - cbn [sat]. split; [exact G1|]. split; [exact R1|]. split; [exact K1|].
      cbn -[Z.of_nat Nat.sub]. split; [congruence|]. split; [lia|].
      split; [|split].
      + intros k Hk. unfold aset. destruct (Nat.eqb_spec k cur); [lia|].
        rewrite Ep. eapply node_ok_grows; [apply Hnodes; lia|exact G1|lia|].
        destruct (k =? prev); lia.
      + unfold aset. rewrite Nat.eqb_refl. exact Et.
      + unfold aset. rewrite Nat.eqb_refl. cbn. eapply operand_ok_grows; [exact Hop| |lia]. repeat split; auto. }
  intros [[regex3 cur'] s4] (G4 & R4 & K4 & Hf4 & Hle & Hn4 & Ht4 & Ho4).
  apply through_assert. intros _.
  apply through_store_expr.
  cbn [freeExprIdx with_exprPool]. rewrite Hf4.
  set (s5 := with_freeExprIdx _ _).
  assert (G5 : grows s4 s5) by (repeat split; auto).
  assert (Inv5 : loop_inv (S cur') (S cur') cur' s5).
  { split; [reflexivity|]. split; [reflexivity|]. split; [lia|].
    intros k Hk. cbn [s5 exprPool with_exprPool with_freeExprIdx]. unfold aset.
    destruct (Nat.eqb_spec k cur') as [->|Hne].
    - split; [exact Ht4|]. split; [|split; [now right|]].
      + eapply operand_ok_grows; [exact Ho4|exact G5|lia].
      + cbn -[Z.of_nat]. lia.
    - eapply node_ok_grows; [apply Hn4; lia|exact G5|lia|lia]. }
  eapply sat_weaken; [apply (IH regex3 op1v _ _ _ _ Inv5)|auto|].
  intros [[regex' prev'] s'] (cur'' & Inv' & G' & R' & K' & Hcases & _).
  exists cur''. split; [exact Inv'|].
  split; [exact (grows_trans _ _ _ G4 (grows_trans _ _ _ G5 G'))|].
  split; [eapply roots_kept_trans; [exact R4|intros i Hi; apply R' in Hi; exact Hi]|].
  split; [apply (exprs_kept_trans _ s4); [exact K4| |apply G4];
          intros i Hi; apply K'; exact Hi|].
  split; [right|intros _]; destruct Hcases as [[-> ->]|[? ?]]; try split; lia.
Qed.

Lemma parse_body_shape cfg buf regex nontermIdx s :
  well_formed s -> nontermIdx < currentNonterm s -> starts_operand buf regex ->
  sat no_stop
      (fun '(regex', s') =>
         well_formed s' /\ grows s s'
         /\ (0 <= expr (nonterms s' nontermIdx) < Z.of_nat (freeExprIdx s'))%Z)
      (parse_body cfg buf regex nontermIdx s).
Proof.
  intros (Wn & Wr & Wc) Hidx Hstart. unfold parse_body.
  apply through_assert. intros _. apply through_store_nonterm.
  cbn [freeExprIdx with_nonterms].
  set (first := freeExprIdx s).
  set (s0 := with_freeExprIdx _ _).
  assert (G0 : grows s s0) by (repeat split; auto).
  assert (Inv0 : loop_inv first first first s0).
  { split; [reflexivity|]. split; [reflexivity|]. split; [lia|].
    intros k Hk.
    eapply node_ok_grows; [apply Wn; exact Hk|exact G0|lia|destruct (k =? first); lia]. }
  eapply sat_bind; [apply (parse_body_loop_shape cfg buf _ regex _ _ _ _ _ Inv0)|].
  intros [[regex' prev'] sL] (cur' & InvL & GL & RL & KL & Hcases & Hprog).
  specialize (Hprog Hstart).
  destruct Hcases as [[? _]|[_ Hprev]]; [lia|].
  destruct InvL as (HfL & _ & _ & HnL).
  apply through_assert. intro Hty.
  unfold store_expr. destruct (_ <? _); [|cbn; unfold no_stop; tauto].
  cbn [sat freeExprIdx with_freeExprIdx].
  set (s' := with_exprPool _ _).
  assert (G' : grows sL s') by (repeat split; auto).
  assert (Hroot : expr (nonterms sL nontermIdx) = Z.of_nat first).
  { rewrite KL by (cbn; lia). cbn. now rewrite aset_eq. }
  assert (Hf' : freeExprIdx s' = cur') by (cbn; lia).
  split; [|split].
  - split; [|split].
    + intros k Hk. rewrite Hf' in *. cbn [s' exprPool with_exprPool].
      destruct (Nat.eq_dec k prev') as [->|Hkp]; asets.
      * specialize (HnL prev' Hk). rewrite Nat.eqb_refl in HnL.
        destruct HnL as (N1 & N2 & _ & _).
        split; [exact N1|]. split; [|split; [now left|exact I]].
        eapply operand_ok_grows; [exact N2|exact G'|lia].
      * specialize (HnL k Hk). destruct (Nat.eqb_spec k prev'); [lia|].
        eapply node_ok_grows; [exact HnL|exact G'|lia|lia].
    + intros i Hi. rewrite Hf'. cbn in Hi.
      destruct (RL i Hi) as [Hc He]. cbn [s' nonterms with_exprPool with_freeExprIdx].
      rewrite He. cbn in Hc |- *. unfold aset in *.
      destruct (Nat.eqb_spec i nontermIdx); cbn in *; [lia|].
      specialize (Wr i Hc). fold first in Wr. lia.
    + right. rewrite Hf'. replace (cur' - 1) with prev' by lia.
      cbn [s' exprPool with_exprPool]. asets. cbn.
      apply orb_prop in Hty. repeat split; auto.
      destruct Hty as [H|H]; apply OperatorType_eqb_eq in H; auto.
  - exact (grows_trans _ _ _ G0 (grows_trans _ _ _ GL G')).
  - rewrite Hf'. cbn [s' nonterms with_exprPool with_freeExprIdx]. rewrite Hroot. lia.
Qed.

(** *** parse_header *)

Lemma find_declared_through s nm : forall n i,
  sat no_stop (fun found => match found with Some j => i <= j < i + n | None => True end)
      (find_declared s nm i n).
Proof.
  induction n as [|n IH]; intro i; cbn [find_declared]; [exact I|].
  destruct (strcmp_eq _ _).
  - destruct (complete _); [apply sat_fatal_any|]. cbn. lia.
  - eapply sat_weaken; [apply (IH (S i))|auto|]. intros [j|]; [lia|auto].
Qed.

Lemma parse_header_shape cfg buf regex s :
  well_formed s ->
  sat no_stop
      (fun '(i, regex', s') =>
         well_formed s' /\ i < currentNonterm s' /\ starts_operand buf regex')
      (parse_header cfg buf regex s).
Proof.
  intros (Wn & Wr & Wc). unfold parse_header, moveRegexPtr, move_while.
  destruct (peek buf regex =? "$")%char; cbn [negb]; [|apply sat_fatal_any].
  cbn [currentColumn with_currentColumn].
  destruct (_ =? regex + 1); [apply sat_fatal_any|].
  destruct (_ || _); [apply sat_fatal_any|].
  apply through_assert. intros _.
  match goal with |- sat _ _ (bind (if ?c then _ else _) _) => destruct c end;
    [|cbn; unfold no_stop; tauto].
  cbn [bind].
  set (nm := bytes_at _ _ _).
  set (s1 := with_currentColumn _ _).
  eapply sat_bind; [apply (find_declared_through s1 nm (currentNonterm s1) 0)|].
  intros found Hfound.
  eapply sat_bind with
    (P := fun '(i, s2) =>
            i < currentNonterm s2 /\ currentNonterm s <= currentNonterm s2
            /\ nonterms s2 = nonterms s /\ termPool s2 = termPool s
            /\ currentTermStart s2 = currentTermStart s
            /\ exprPool s2 = exprPool s /\ freeExprIdx s2 = freeExprIdx s).
  { destruct found as [i|].
    - cbn in *. repeat split; auto; lia.
    - apply through_assert. intros _. cbn. repeat split; auto. }
  intros [i s2] (Hi & Hle & E1 & E2 & E3 & E4 & E5).
  apply through_name_store. intros _. apply through_store_nonterm.
  cbn [currentColumn with_currentColumn with_nonterms].
  set (s3 := with_nonterms _ _).
  destruct (negb _); [apply sat_fatal_any|].
  destruct (negb _); [apply sat_fatal_any|].
  match goal with |- context [run_length blank (skipn ?p buf)] =>
    pose proof (move_while_end blank buf p eq_refl) as Hb;
    set (n3 := run_length blank (skipn p buf)) in *;
    set (p3 := p) in * end.
  destruct ((peek buf (p3 + n3) =? NUL)%char || (peek buf (p3 + n3) =? NEWLINE)%char) eqn:E0;
    [apply sat_fatal_any|].
  cbn [sat]. split; [|split; [exact Hi|]].
  - assert (G : grows s s3) by (repeat split; cbn; auto; try lia; intros; congruence).
    split; [|split].
    + intros k Hk. cbn in Hk |- *. rewrite E5 in *. rewrite E4.
      eapply node_ok_grows; [apply Wn; exact Hk|exact G|lia|lia].
    + intros j Hj. cbn in Hj |- *. rewrite E5. rewrite E1 in *. unfold aset in *.
      destruct (j =? i); cbn in *; auto.
    + cbn. rewrite E5, E4. exact Wc.
  - unfold starts_operand. cbv zeta.
    assert (Hz : run_length blank (skipn (p3 + n3) buf) = 0).
    { apply run_length_stop; [|reflexivity]. rewrite <- peek_hd. exact Hb. }
    rewrite Hz, Nat.add_0_r. exact E0.
Qed.

(** *** The lines of a run *)

Lemma parse_regex_shape cfg buf s :
  well_formed s -> sat no_stop well_formed (parse_regex cfg buf s).
Proof.
  intros W. unfold parse_regex, move_while.
  destruct (_ =? NUL)%char; [exact W|].
  destruct (_ =? "!")%char; [exact W|].
  eapply sat_bind; [apply parse_header_shape; exact W|].
  intros [[i regex1] s1] (W1 & Hi & Hst).
  eapply sat_bind; [apply parse_body_shape; eauto|].
  intros [regex2 s2] ((Wn & Wr & Wc) & G2 & Hroot).
  unfold store_nonterm. destruct (_ <? _); [|cbn; unfold no_stop; tauto].
  cbn [sat]. split; [|split].
  - intros k Hk. cbn in Hk |- *.
    eapply node_ok_grows; [apply Wn; exact Hk| |lia|lia]. repeat split; auto.
  - intros j Hj. cbn in Hj |- *. unfold aset in *.
    destruct (j =? i); cbn in *; auto.
  - exact Wc.
Qed.

Lemma read_lines_shape cfg : forall fuel input buf s,
  well_formed s -> sat no_stop well_formed (read_lines fuel cfg input buf s).
Proof.
  induction fuel as [|fuel IH]; intros input buf s W; destruct input as [|c input];
    cbn [read_lines]; try exact W; [cbn; unfold no_stop; tauto|].
  destruct (fgets _ _) as [line rest].
  eapply sat_bind; [apply parse_regex_shape; exact W|].
  intros s1 W1. now apply IH.
Qed.

Lemma well_formed_initial cfg : well_formed (initial cfg).
Proof.
  split; [|split].
  - intros k Hk. cbn in Hk. lia.
  - intros i Hi. cbn in Hi. discriminate.
  - now left.
Qed.

Lemma parse_well_formed cfg input t :
  parse cfg input = Ok t ->
  exists s, t = tables s /\ well_formed s.
Proof.
  unfold parse, parse_regex_spec, fmap.
  pose proof (read_lines_shape cfg (length input) input [] (initial cfg)
                (well_formed_initial cfg)) as H.
  destruct (read_lines _ _ _ _ _) as [s| | | |]; cbn in *; try discriminate.
  intro E. inversion E; subst. eauto.
Qed.

Lemma operand_in_range s ty v :
  operand_ok s (freeExprIdx s) ty v -> in_range (tables s) ty v.
Proof.
  destruct ty; cbn; rewrite ?length_map, ?length_seq; auto.
  intros [Hv (j & Hj & _)]. lia.
Qed.

(** X5: in the tables of a run that went through, every operand of every node
    points into the table it names: a nested expression at a node, a
    non-terminal at a record, a terminal at a byte of the terminal
    pool.  A left operand is never missing, a right operand is a nested
    expression or missing. *)
Theorem operands_stay_in_the_tables cfg input t :
  parse cfg input = Ok t ->
  forall k e, nth_error (exprTable t) k = Some e ->
    op1Type e <> NOTHING /\ in_range t (op1Type e) (op1 e)
    /\ (op2Type e = NOTHING \/ op2Type e = NESTED_EXPRESSION)
    /\ in_range t (op2Type e) (op2 e).
Proof.
  intros H k e He. apply parse_well_formed in H. destruct H as (s & -> & Wn & _).
  cbn in He. apply nth_error_map_seq in He. destruct He as [Hk ->].
  destruct (Wn k Hk) as (N1 & N2 & N3 & N4).
  repeat split; auto using operand_in_range.
Qed.

Lemma operands_stay_in_the_tables_witness :
  parse sample (chars "$A := x $B") =
    Ok {| nontermTable :=
            [ {| name := chars "$A"; idx := 0; expr := 0; complete := true |};
              {| name := chars "$B"; idx := 1; expr := 0; complete := false |} ];
          exprTable :=
            [ Node AND (TERMINAL, 0%Z) (NESTED_EXPRESSION, 1%Z);
              Node NO_OP (NON_TERMINAL, 1%Z) (NOTHING, (-1)%Z) ];
          termTable := chars "x" ++ [NUL] |}
  /\ (0 <= 1 < 2)%Z.
Proof.
  assert (hp : parse sample (chars "$A := x $B") =
    Ok {| nontermTable :=
            [ {| name := chars "$A"; idx := 0; expr := 0; complete := true |};
              {| name := chars "$B"; idx := 1; expr := 0; complete := false |} ];
          exprTable :=
            [ Node AND (TERMINAL, 0%Z) (NESTED_EXPRESSION, 1%Z);
              Node NO_OP (NON_TERMINAL, 1%Z) (NOTHING, (-1)%Z) ];
          termTable := chars "x" ++ [NUL] |}) by (vm_compute; reflexivity).
  exact (conj hp (proj1 (proj2 (operands_stay_in_the_tables sample _ _ hp 1
                                  (Node NO_OP (NON_TERMINAL, 1%Z) (NOTHING, (-1)%Z))
                                  eq_refl)))).
Defined.

(** X6: every terminal of the tables ends inside the terminal table: at or
    behind the offset of a terminal operand there is a terminator below
    [currentTermStart]. *)
Theorem terminals_end_inside_the_table cfg input t :
  parse cfg input = Ok t ->
  forall k e, nth_error (exprTable t) k = Some e -> op1Type e = TERMINAL ->
    (0 <= op1 e)%Z
    /\ exists j, Z.to_nat (op1 e) <= j /\ nth_error (termTable t) j = Some NUL.
Proof.
  intros H k e He Hty. apply parse_well_formed in H. destruct H as (s & -> & Wn & _).
  cbn in He. apply nth_error_map_seq in He. destruct He as [Hk ->].
  destruct (Wn k Hk) as (_ & N2 & _). rewrite Hty in N2. destruct N2 as [Hv (j & Hj & Hn)].
  split; [exact Hv|]. exists j. split; [lia|]. cbn.
  rewrite nth_error_map, nth_error_seq.
  replace (j <? currentTermStart s) with true by (symmetry; apply Nat.ltb_lt; lia).
  cbn. now rewrite Hn.
Qed.

Lemma terminals_end_inside_the_table_witness :
  parse sample (chars "$A := ab cd") =
    Ok {| nontermTable :=
            [ {| name := chars "$A"; idx := 0; expr := 0; complete := true |} ];
          exprTable :=
            [ Node AND (TERMINAL, 0%Z) (NESTED_EXPRESSION, 1%Z);
              Node NO_OP (TERMINAL, 3%Z) (NOTHING, (-1)%Z) ];
          termTable := chars "ab" ++ NUL :: chars "cd" ++ [NUL] |}
  /\ (0 <= 3)%Z
  /\ exists j, 3 <= j /\ nth_error (chars "ab" ++ NUL :: chars "cd" ++ [NUL]) j = Some NUL.
Proof.
  assert (hp : parse sample (chars "$A := ab cd") =
    Ok {| nontermTable :=
            [ {| name := chars "$A"; idx := 0; expr := 0; complete := true |} ];
          exprTable :=
            [ Node AND (TERMINAL, 0%Z) (NESTED_EXPRESSION, 1%Z);
              Node NO_OP (TERMINAL, 3%Z) (NOTHING, (-1)%Z) ];
          termTable := chars "ab" ++ NUL :: chars "cd" ++ [NUL] |})
    by (vm_compute; reflexivity).
  exact (conj hp (terminals_end_inside_the_table sample _ _ hp 1
                    (Node NO_OP (TERMINAL, 3%Z) (NOTHING, (-1)%Z)) eq_refl eq_refl)).
Defined.

(** X7: the root of every complete non-terminal is a node of the expression
    table. *)
Theorem complete_entries_have_a_root cfg input t :
  parse cfg input = Ok t ->
  forall i nt, nth_error (nontermTable t) i = Some nt -> complete nt = true ->
    (0 <= expr nt < Z.of_nat (length (exprTable t)))%Z.
Proof.
  intros H i nt Hnt Hc. apply parse_well_formed in H. destruct H as (s & -> & _ & Wr & _).
  cbn in Hnt |- *. apply nth_error_map_seq in Hnt. destruct Hnt as [Hi ->].
  rewrite length_map, length_seq. now apply Wr.
Qed.

Lemma complete_entries_have_a_root_witness :
  parse sample (chars "$A := $B" ++ NEWLINE :: chars "$B := z") =
    Ok {| nontermTable :=
            [ {| name := chars "$A"; idx := 0; expr := 0; complete := true |};
              {| name := chars "$B"; idx := 1; expr := 1; complete := true |} ];
          exprTable :=
            [ Node NO_OP (NON_TERMINAL, 1%Z) (NOTHING, (-1)%Z);
              Node NO_OP (TERMINAL, 0%Z) (NOTHING, (-1)%Z) ];
          termTable := chars "z" ++ [NUL] |}
  /\ (0 <= 1 < 2)%Z.
Proof.
  assert (hp : parse sample (chars "$A := $B" ++ NEWLINE :: chars "$B := z") =
    Ok {| nontermTable :=
            [ {| name := chars "$A"; idx := 0; expr := 0; complete := true |};
              {| name := chars "$B"; idx := 1; expr := 1; complete := true |} ];
          exprTable :=
            [ Node NO_OP (NON_TERMINAL, 1%Z) (NOTHING, (-1)%Z);
              Node NO_OP (TERMINAL, 0%Z) (NOTHING, (-1)%Z) ];
          termTable := chars "z" ++ [NUL] |}) by (vm_compute; reflexivity).
  exact (conj hp (complete_entries_have_a_root sample _ _ hp 1
                    {| name := chars "$B"; idx := 1; expr := 1; complete := true |}
                    eq_refl eq_refl)).
Defined.

(** X8: the last node of the expression table ends a body: its operator is
    NO_OP or ZERO_OR_MORE and it has no right operand. *)
Theorem last_node_ends_a_body cfg input t :
  parse cfg input = Ok t ->
  forall e, nth_error (exprTable t) (length (exprTable t) - 1) = Some e -> closed e.
Proof.
  intros H e He. apply parse_well_formed in H. destruct H as (s & -> & _ & _ & Wc).
  cbn in He. rewrite length_map, length_seq in He.
  apply nth_error_map_seq in He. destruct He as [Hk ->].
  destruct Wc as [Hz|Hc]; [lia|exact Hc].
Qed.

Lemma last_node_ends_a_body_witness :
  parse sample (chars "$A := x | y* *") =
    Ok {| nontermTable :=
            [ {| name := chars "$A"; idx := 0; expr := 0; complete := true |} ];
          exprTable :=
            [ Node OR (TERMINAL, 0%Z) (NESTED_EXPRESSION, 2%Z);
              Node ZERO_OR_MORE (TERMINAL, 2%Z) (NOTHING, (-1)%Z);
              Node ZERO_OR_MORE (NESTED_EXPRESSION, 1%Z) (NOTHING, (-1)%Z) ];
          termTable := chars "x" ++ NUL :: chars "y" ++ [NUL] |}
  /\ closed (Node ZERO_OR_MORE (NESTED_EXPRESSION, 1%Z) (NOTHING, (-1)%Z)).
Proof.
  assert (hp : parse sample (chars "$A := x | y* *") =
    Ok {| nontermTable :=
            [ {| name := chars "$A"; idx := 0; expr := 0; complete := true |} ];
          exprTable :=
            [ Node OR (TERMINAL, 0%Z) (NESTED_EXPRESSION, 2%Z);
              Node ZERO_OR_MORE (TERMINAL, 2%Z) (NOTHING, (-1)%Z);
              Node ZERO_OR_MORE (NESTED_EXPRESSION, 1%Z) (NOTHING, (-1)%Z) ];
          termTable := chars "x" ++ NUL :: chars "y" ++ [NUL] |})
    by (vm_compute; reflexivity).
  exact (conj hp (last_node_ends_a_body sample _ _ hp _ eq_refl)).
Defined.

(** ** memcpy2 *)

Lemma memcpy2_loop_verbatim cfg buf ec te tp : forall t dest src copied s rest,
  skipn src buf = t ++ rest ->
  forallb (fun ch => negb (ch =? ec)%char) t = true ->
  dest + length t <= MAX_TOTAL_TERM_LEN cfg ->
  memcpy2_loop cfg buf ec te tp (length t) dest src copied s =
  Ok (copied, with_termPool (write t dest (termPool s)) s).
Proof.
  induction t as [|c t IH]; intros dest src copied s rest H Hp Hfit;
    cbn [length memcpy2_loop write].
  - now rewrite with_termPool_same.
  - cbn in Hp, Hfit. apply andb_prop in Hp. destruct Hp as [Hc Ht].
    unfold load. pose proof (skipn_lt _ _ _ _ H) as Hlt.
    apply Nat.ltb_lt in Hlt. rewrite Hlt. cbn [bind].
    rewrite (peek_hd buf src), H. cbn [hd app].
    apply negb_true_iff in Hc. rewrite Hc.
    unfold store_term. replace (dest <? MAX_TOTAL_TERM_LEN cfg) with true
      by (symmetry; apply Nat.ltb_lt; lia).
    cbn [bind]. rewrite (IH (S dest) (S src) copied _ rest); auto.
    + change (S src) with (1 + src). rewrite <- skipn_skipn, H. reflexivity.
    + lia.
Qed.

(** X9: on a source without the escape character memcpy2 is memcpy: it stores
    the [numBytes] bytes of the source at [dest], leaves every other byte
    of the pool and every other global as it was, and returns [numBytes]. *)
Theorem memcpy2_without_escapes_is_memcpy cfg buf dest src t rest ec te tp s :
  skipn src buf = t ++ rest ->
  forallb (fun ch => negb (ch =? ec)%char) t = true ->
  dest + length t <= MAX_TOTAL_TERM_LEN cfg ->
  exists s',
    memcpy2 cfg buf dest src (length t) ec te tp s = Ok (length t, s')
    /\ map (termPool s') (seq dest (length t)) = t
    /\ (forall j, j < dest \/ dest + length t <= j -> termPool s' j = termPool s j)
    /\ s' = with_termPool (termPool s') s.
Proof.
  intros H Hp Hfit. unfold memcpy2.
  rewrite (memcpy2_loop_verbatim cfg buf ec te tp t dest src _ s rest H Hp Hfit).
  eexists. split; [reflexivity|]. cbn. split; [apply write_read|]. split; [|reflexivity].
  intros j [Hj|Hj]; [now apply write_below|now apply write_above].
Qed.

Lemma memcpy2_without_escapes_is_memcpy_witness :
  exists s',
    memcpy2 sample (chars "xx hello") 4 3 5 "@"%char (chars "_@|*$") (chars " @|*$")
            (initial sample) = Ok (5, s')
    /\ map (termPool s') (seq 4 5) = chars "hello".
Proof.
  destruct (memcpy2_without_escapes_is_memcpy sample (chars "xx hello") 4 3 (chars "hello") []
              "@"%char (chars "_@|*$") (chars " @|*$") (initial sample)
              eq_refl eq_refl ltac:(cbn; lia)) as (s' & h1 & h2 & _).
  exact (ex_intro _ s' (conj h1 h2)).
Defined.

(** X10: whatever the source holds, a call of memcpy2 that returns has stored
    at [numBytes] places from [dest] on and nowhere else, also when it
    returns less than [numBytes]; the tables of non-terminals and of
    expressions are left alone. *)
Theorem memcpy2_stores_numBytes_bytes cfg buf dest src numBytes ec te tp s copied s' :
  memcpy2 cfg buf dest src numBytes ec te tp s = Ok (copied, s') ->
  copied <= numBytes
  /\ (forall j, j < dest \/ dest + numBytes <= j -> termPool s' j = termPool s j)
  /\ nonterms s' = nonterms s /\ currentNonterm s' = currentNonterm s
  /\ exprPool s' = exprPool s /\ freeExprIdx s' = freeExprIdx s
  /\ currentTermStart s' = currentTermStart s.
Proof.
  unfold memcpy2. intro H.
  pose proof (memcpy2_loop_frame cfg buf ec te tp numBytes dest src numBytes s) as F.
  rewrite H in F. cbn in F. tauto.
Qed.

Lemma memcpy2_stores_numBytes_bytes_witness :
  exists s',
    memcpy2 sample (chars "a@_b ") 0 0 4 "@"%char (chars "_@|*$") (chars " @|*$")
            (initial sample) = Ok (3, s')
    /\ 3 <= 4 /\ termPool s' 4 = NUL.
Proof.
  assert (h : memcpy2 sample (chars "a@_b ") 0 0 4 "@"%char (chars "_@|*$") (chars " @|*$")
                (initial sample)
              = Ok (3, with_termPool (write (chars "a_b ") 0 (termPool (initial sample)))
                                     (initial sample))) by reflexivity.
  pose proof (memcpy2_stores_numBytes_bytes _ _ _ _ _ _ _ _ _ _ _ h) as (h1 & h2 & _).
  exact (ex_intro _ _ (conj h (conj h1 (h2 4 (or_intror (Nat.le_refl 4)))))).
Defined.

(** ** Grammars of several lines *)

Lemma ignorable_run (l : list char) tail :
  ignorable l = true -> hd NUL tail = NUL ->
  let k := run_length isspace (l ++ tail) in
  (nth k (l ++ tail) NUL =? NUL)%char || (nth k (l ++ tail) NUL =? "!")%char = true.
Proof.
  intros H Ht. induction l as [|c l IH]; cbn [app].
  - destruct tail as [|d tail]; cbn in *; [reflexivity|]. subst d. reflexivity.
  - cbn [ignorable] in H. cbn [run_length]. destruct (isspace c); cbn [nth].
    + now apply IH.
    + rewrite H. now rewrite orb_true_r.
Qed.

(** A blank line and a comment change nothing but the column. *)
Lemma parse_regex_ignorable cfg (l : list char) tail s :
  ignorable l = true -> hd NUL tail = NUL ->
  parse_regex cfg (l ++ tail) s
  = Ok (with_currentColumn (currentColumn s + run_length isspace (l ++ tail)) s).
Proof.
  intros H Ht. unfold parse_regex, move_while. cbn [skipn Nat.add].
  pose proof (ignorable_run l tail H Ht) as Hk. cbv zeta in Hk. unfold peek.
  destruct (nth _ _ _ =? NUL)%char; [reflexivity|]. cbn [orb] in Hk. now rewrite Hk.
Qed.

Lemma read_lines_line cfg fuel (line : list char) rest buf s :
  no_newline line = true -> S (length line) < MAX_REGEX_LEN cfg ->
  read_lines (S fuel) cfg (line ++ NEWLINE :: rest) buf s =
  (s1 <- parse_regex cfg (store_line (line ++ [NEWLINE]) buf)
                     (with_currentColumn 0 (with_currentLine (S (currentLine s)) s)) ;;
   read_lines fuel cfg rest (store_line (line ++ [NEWLINE]) buf) s1).
Proof.
  intros Hnl Hlen.
  assert (Hf : fgets (MAX_REGEX_LEN cfg - 1) (line ++ NEWLINE :: rest)
               = (line ++ [NEWLINE], rest)) by (apply fgets_line_newline; [assumption|lia]).
  destruct line as [|c line]; cbn [app read_lines] in *; now rewrite Hf.
Qed.

Lemma length_tables s :
  length (nontermTable (tables s)) = currentNonterm s
  /\ length (exprTable (tables s)) = freeExprIdx s
  /\ length (termTable (tables s)) = currentTermStart s.
Proof. cbn. now rewrite !length_map, !length_seq. Qed.

Lemma add_line_grows t l :
  length (nontermTable t) <= length (nontermTable (add_line t l))
  /\ length (exprTable t) <= length (exprTable (add_line t l))
  /\ length (termTable t) <= length (termTable (add_line t l)).
Proof. destruct l; cbn; rewrite ?length_app; lia. Qed.

Lemma fold_add_line_grows ls : forall t,
  length (nontermTable t) <= length (nontermTable (fold_left add_line ls t))
  /\ length (exprTable t) <= length (exprTable (fold_left add_line ls t))
  /\ length (termTable t) <= length (termTable (fold_left add_line ls t)).
Proof.
  induction ls as [|l ls IH]; intro t; cbn [fold_left]; [lia|].
  pose proof (add_line_grows t l). pose proof (IH (add_line t l)). lia.
Qed.

Lemma length_chain_nodes rest : forall cur off x,
  length (chain_nodes cur off x rest) = S (length rest).
Proof.
  induction rest as [|[j y] rest IH]; intros cur off x; cbn; [reflexivity|].
  now rewrite IH.
Qed.

Lemma ignorable_newline (l : list char) : ignorable l = true -> ignorable (l ++ [NEWLINE]) = true.
Proof.
  induction l as [|c l IH]; cbn; [reflexivity|]. destruct (isspace c); auto.
Qed.

Lemma nth_error_tables s j :
  j < currentNonterm s -> nth_error (nontermTable (tables s)) j = Some (nonterms s j).
Proof.
  intro H. cbn. rewrite nth_error_map, nth_error_seq.
  replace (j <? currentNonterm s) with true by (symmetry; now apply Nat.ltb_lt).
  reflexivity.
Qed.

Lemma read_lines_spec_then cfg extra : forall ls fuel buf s,
  length (spec_text ls ++ extra) <= fuel ->
  forallb spec_line_ok ls = true -> NoDup (defined ls) ->
  (forall nm, In nm (defined ls) ->
     forall j, j < currentNonterm s -> name (nonterms s j) <> "$"%char :: nm) ->
  spec_fits cfg (fold_left add_line ls (tables s)) ls ->
  exists s' buf' fuel',
    read_lines fuel cfg (spec_text ls ++ extra) buf s = read_lines fuel' cfg extra buf' s'
    /\ length extra <= fuel'
    /\ tables s' = fold_left add_line ls (tables s)
    /\ currentLine s' = currentLine s + length ls.
Proof.
  induction ls as [|l ls IH]; intros fuel buf s Hfuel Hok Hnd Hnew Hfit.
  { exists s, buf, fuel. cbn in *. repeat split; auto. }
  cbn [forallb] in Hok. apply andb_prop in Hok. destruct Hok as [Hl Hok].
  cbn [fold_left] in Hfit |- *.
  destruct Hfit as (Fn & Ft & Fe & Fl).
  destruct (Fl l (or_introl eq_refl)) as [Flen Fname].
  assert (Fl' : forall l', In l' ls ->
            S (length (spec_line_text l')) < MAX_REGEX_LEN cfg
            /\ match l' with
               | Skipped _ => True
               | Defines nm _ _ => S (length nm) < MAX_NONTERM_NAME cfg
               end) by (intros l' Hl'; apply Fl; now right).
  change (spec_text (l :: ls)) with ((spec_line_text l ++ [NEWLINE]) ++ spec_text ls) in *.
  rewrite <- !app_assoc in *. cbn [app] in *.
  destruct fuel as [|fuel]; [rewrite length_app in Hfuel; cbn in Hfuel; lia|].
  assert (Hfuel' : length (spec_text ls ++ extra) <= fuel)
    by (rewrite length_app in Hfuel; cbn in Hfuel; lia).
  set (s0 := with_currentColumn 0 (with_currentLine (S (currentLine s)) s)).
  destruct l as [text|nm x rest]; cbn [spec_line_text spec_line_ok add_line] in *.
  - apply andb_prop in Hl. destruct Hl as [Hnl Hig].
    rewrite (read_lines_line cfg fuel text _ buf s Hnl Flen). fold s0.
    unfold store_line at 1.
    rewrite (parse_regex_ignorable cfg (text ++ [NEWLINE]) _ s0);
      [|now apply ignorable_newline|reflexivity].
    cbn [bind].
    match goal with |- context [read_lines fuel cfg _ ?b ?st] =>
      destruct (IH fuel b st) as (s' & buf' & fuel' & E' & F' & T' & L'); auto end.
    + split; [exact Fn|]. split; [exact Ft|]. split; [exact Fe|exact Fl'].
    + exists s', buf', fuel'. split; [exact E'|]. split; [exact F'|]. split; [exact T'|].
      cbn in L' |- *. lia.
  - apply andb_prop in Hl. destruct Hl as [Hl Hrest].
    apply andb_prop in Hl. destruct Hl as [Hnm Hx].
    cbn [defined flat_map app] in Hnd, Hnew.
    change (flat_map _ ls) with (defined ls) in Hnd, Hnew.
    inversion Hnd as [|? ? Hnotin Hnd']; subst.
    pose proof (fold_add_line_grows ls
      {| nontermTable :=
           nontermTable (tables s)
           ++ [ {| name := "$"%char :: nm;
                   idx := Z.of_nat (length (nontermTable (tables s)));
                   expr := Z.of_nat (length (exprTable (tables s))); complete := true |} ];
         exprTable :=
           exprTable (tables s)
           ++ chain_nodes (length (exprTable (tables s))) (length (termTable (tables s))) x rest;
         termTable := termTable (tables s) ++ term_bytes x rest |}) as (G1 & G2 & G3).
    cbn [nontermTable exprTable termTable] in G1, G2, G3.
    rewrite !length_app in G1, G2, G3. rewrite length_chain_nodes in G2.
    destruct (length_tables s) as (L1 & L2 & L3).
    cbn [length] in G1.
    rewrite (read_lines_line cfg fuel (definition_text nm x rest) _ buf s
               (no_newline_definition_text nm x rest Hnm Hx Hrest) Flen). fold s0.
    unfold store_line at 1. rewrite <- app_assoc.
    match goal with |- context [parse_regex cfg (definition_text nm x rest ++ ?tl) s0] =>
      destruct (parse_regex_chain cfg _ s0 nm x rest tl eq_refl (or_intror eq_refl)
                  Hnm Hx Hrest) as (s1 & E1 & Li1 & _ & T1) end.
    + intros j Hj. apply Hnew; [now left|exact Hj].
    + cbn. lia.
    + exact Fname.
    + cbn. lia.
    + cbn. lia.
    + rewrite E1. cbn [bind].
      change (tables s0) with (tables s) in T1.
      assert (T1' : tables s1 =
        {| nontermTable :=
             nontermTable (tables s)
             ++ [ {| name := "$"%char :: nm;
                     idx := Z.of_nat (length (nontermTable (tables s)));
                     expr := Z.of_nat (length (exprTable (tables s))); complete := true |} ];
           exprTable :=
             exprTable (tables s)
             ++ chain_nodes (length (exprTable (tables s))) (length (termTable (tables s)))
                            x rest;
           termTable := termTable (tables s) ++ term_bytes x rest |})
        by (rewrite T1, L1, L2, L3; reflexivity).
      destruct (IH fuel (store_line (definition_text nm x rest ++ [NEWLINE]) buf) s1)
        as (s' & buf' & fuel' & E' & F' & T' & L'); auto.
      * intros nm' Hnm' j Hj.
        destruct (length_tables s1) as (M1 & _). rewrite T1 in M1.
        cbn [nontermTable] in M1. rewrite length_app, L1 in M1. cbn [length] in M1.
        pose proof (nth_error_tables s1 j Hj) as Hn. rewrite T1 in Hn.
        cbn [nontermTable] in Hn.
        destruct (Nat.lt_ge_cases j (currentNonterm s)) as [Hlt|Hge].
        -- rewrite nth_error_app1 in Hn by (rewrite L1; exact Hlt).
           rewrite (nth_error_tables s j Hlt) in Hn.
           injection Hn as Hn'. rewrite <- Hn'.
           apply Hnew; [now right|exact Hlt].
        -- rewrite nth_error_app2 in Hn by (rewrite L1; exact Hge).
           rewrite L1 in Hn.
           replace (j - currentNonterm s) with 0 in Hn by lia.
           cbn [nth_error] in Hn. injection Hn as Hn'. rewrite <- Hn'. cbn [name].
           intro Heq. injection Heq as Heq. subst. contradiction.
      * rewrite T1'. split; [exact Fn|]. split; [exact Ft|]. split; [exact Fe|exact Fl'].
      * exists s', buf', fuel'. split; [exact E'|]. split; [exact F'|].
        split; [rewrite T', T1'; reflexivity|]. rewrite L', Li1. cbn. lia.
Qed.

Lemma read_lines_spec cfg ls fuel buf s :
  length (spec_text ls) <= fuel ->
  forallb spec_line_ok ls = true -> NoDup (defined ls) ->
  (forall nm, In nm (defined ls) ->
     forall j, j < currentNonterm s -> name (nonterms s j) <> "$"%char :: nm) ->
  spec_fits cfg (fold_left add_line ls (tables s)) ls ->
  exists s',
    read_lines fuel cfg (spec_text ls) buf s = Ok s'
    /\ tables s' = fold_left add_line ls (tables s).
Proof.
  intros Hfuel Hok Hnd Hnew Hfit.
  destruct (read_lines_spec_then cfg [] ls fuel buf s) as (s' & buf' & fuel' & E & _ & T & _);
    auto; [now rewrite app_nil_r|].
  rewrite app_nil_r in E. exists s'. split; [|exact T]. rewrite E. now destruct fuel'.
Qed.

(** X11: a grammar of definitions without stars, with blank lines and comments
    between them and no name defined twice, is parsed line by line: every
    definition appends its record, its chain of nodes and its terminals
    to the tables, every other line leaves them as they are. *)
Theorem grammar_is_parsed_line_by_line cfg ls :
  forallb spec_line_ok ls = true -> NoDup (defined ls) ->
  spec_fits cfg (spec_tables ls) ls ->
  parse cfg (spec_text ls) = Ok (spec_tables ls).
Proof.
  intros Hok Hnd Hfit. unfold parse, parse_regex_spec.
  destruct (read_lines_spec cfg ls (length (spec_text ls)) [] (initial cfg))
    as (s' & E & T); auto.
  - intros nm _ j Hj. cbn in Hj. lia.
  - rewrite E. cbn. f_equal. exact T.
Qed.

Lemma grammar_is_parsed_line_by_line_witness :
  parse sample (chars "! digits" ++ NEWLINE :: chars "$D := 0 | 1" ++ NEWLINE
                :: NEWLINE :: chars "$N := one two" ++ [NEWLINE])
  = Ok {| nontermTable :=
            [ {| name := chars "$D"; idx := 0; expr := 0; complete := true |};
              {| name := chars "$N"; idx := 1; expr := 2; complete := true |} ];
          exprTable :=
            [ Node OR (TERMINAL, 0%Z) (NESTED_EXPRESSION, 1%Z);
              Node NO_OP (TERMINAL, 2%Z) (NOTHING, (-1)%Z);
              Node AND (TERMINAL, 4%Z) (NESTED_EXPRESSION, 3%Z);
              Node NO_OP (TERMINAL, 8%Z) (NOTHING, (-1)%Z) ];
          termTable := chars "0" ++ NUL :: chars "1" ++ NUL :: chars "one" ++ NUL
                       :: chars "two" ++ [NUL] |}.
Proof.
  assert (hd : NoDup (defined [ Skipped (chars "! digits");
                                Defines (chars "D") (chars "0") [(Barred, chars "1")];
                                Skipped [];
                                Defines (chars "N") (chars "one") [(Juxtaposed, chars "two")] ])).
  { repeat constructor; cbn; intuition discriminate. }
  assert (hf : spec_fits sample
                 (spec_tables [ Skipped (chars "! digits");
                                Defines (chars "D") (chars "0") [(Barred, chars "1")];
                                Skipped [];
                                Defines (chars "N") (chars "one") [(Juxtaposed, chars "two")] ])
                 [ Skipped (chars "! digits");
                   Defines (chars "D") (chars "0") [(Barred, chars "1")];
                   Skipped [];
                   Defines (chars "N") (chars "one") [(Juxtaposed, chars "two")] ]).
  { split; [cbn; lia|]. split; [cbn; lia|]. split; [cbn; lia|].
    intros l [<-|[<-|[<-|[<-|[]]]]]; cbn; split; try exact I; lia. }
  exact (grammar_is_parsed_line_by_line sample
           [ Skipped (chars "! digits");
             Defines (chars "D") (chars "0") [(Barred, chars "1")];
             Skipped [];
             Defines (chars "N") (chars "one") [(Juxtaposed, chars "two")] ]
           eq_refl hd hf).
Defined.

(** ** Blank lines and comments *)

(** X12: a blank line and a comment leave every table as it was: parse_regex
    returns before it reads a header, and only the column has moved. *)
Theorem comment_lines_change_nothing cfg (line : list char) stale s :
  ignorable line = true ->
  exists k,
    parse_regex cfg (store_line line stale) s = Ok (with_currentColumn (currentColumn s + k) s)
    /\ k <= length line.
Proof.
  intro H. unfold store_line.
  rewrite (parse_regex_ignorable cfg line (NUL :: skipn (S (length line)) stale) s H eq_refl).
  eexists. split; [reflexivity|].
  generalize (skipn (S (length line)) stale). clear.
  induction line as [|c line IH]; intro tail; cbn [app run_length length].
  - destruct (isspace NUL) eqn:E; [vm_compute in E; discriminate E|lia].
  - destruct (isspace c); [specialize (IH tail)|]; lia.
Qed.

Lemma comment_lines_change_nothing_witness :
  exists k,
    parse_regex sample (store_line (chars "  ! $A := x") []) (initial sample)
    = Ok (with_currentColumn (currentColumn (initial sample) + k) (initial sample))
    /\ k <= 11.
Proof.
  exact (comment_lines_change_nothing sample (chars "  ! $A := x") [] (initial sample) eq_refl).
Defined.

(** ** The column follows the cursor *)

Lemma in_step_refl regex s : in_step regex s regex s.
Proof. repeat split; auto. lia. Qed.

Lemma in_step_trans r1 s1 r2 s2 r3 s3 :
  in_step r1 s1 r2 s2 -> in_step r2 s2 r3 s3 -> in_step r1 s1 r3 s3.
Proof. intros (a1 & b1 & c1) (a2 & b2 & c2). repeat split; try lia; congruence. Qed.

Lemma parse_operator_in_step buf regex s :
  let '(_, regex', s') := parse_operator buf regex s in in_step regex s regex' s'.
Proof.
  unfold parse_operator, move_while, moveRegexPtr.
  destruct (_ || _); [repeat split; cbn -[Nat.sub Nat.add]; lia|].
  destruct (_ =? "|")%char; [repeat split; cbn -[Nat.sub Nat.add]; lia|].
  destruct (_ =? "*")%char; repeat split; cbn -[Nat.sub Nat.add]; lia.
Qed.

Lemma memcpy2_loop_position cfg buf ec te tp : forall n dest src copied s,
  sat no_stop
      (fun '(_, s') => currentColumn s' = currentColumn s /\ currentLine s' = currentLine s)
      (memcpy2_loop cfg buf ec te tp n dest src copied s).
Proof.
  induction n as [|n IH]; intros dest src copied s; cbn [memcpy2_loop]; [now cbn|].
  apply through_load.
  destruct (_ =? ec)%char.
  - destruct (n <=? 0); [apply sat_fatal_any|]. apply through_load.
    destruct (strchr _ _); apply through_store_term;
      (eapply sat_weaken; [apply IH|auto|]); intros [c s']; cbn; auto.
  - apply through_store_term. eapply sat_weaken; [apply IH|auto|]. intros [c s']; cbn; auto.
Qed.

Lemma parse_operand_in_step cfg buf regex res s :
  sat no_stop (fun '(_, _, regex', s') => in_step regex s regex' s')
      (parse_operand cfg buf regex res s).
Proof.
  unfold parse_operand, move_while.
  set (n1 := run_length blank (skipn regex buf)).
  destruct ((peek buf (regex + n1) =? NUL)%char || (peek buf (regex + n1) =? NEWLINE)%char)
    eqn:E0.
  { cbn. repeat split; cbn -[Nat.sub Nat.add]; lia. }
  destruct ((peek buf (regex + n1) =? "|")%char || (peek buf (regex + n1) =? "*")%char)
    eqn:E1; [apply sat_fatal_any|].
  apply orb_false_elim in E0. destruct E0 as [E0 E0'].
  apply orb_false_elim in E1. destruct E1 as [_ E1].
  pose proof (not_blank_wordchar _ (move_while_end blank buf regex eq_refl) E0 E0') as Hw.
  apply run_length_wordchar_pos in Hw. fold n1 in Hw.
  set (n2 := run_length wordchar (skipn (regex + n1) buf)) in *.
  cbn [currentColumn with_currentColumn].
  match goal with |- context [let '(_, _) := ?e in _] =>
    assert (Hsplit : exists s0 regex0,
      e = (s0, regex0) /\ in_step regex s regex0 s0) end.
  { destruct (peek buf (regex + n1 + n2 - 1) =? "*")%char eqn:E4; cbn [andb].
    - destruct (negb _).
      + eexists _, _. split; [reflexivity|]. repeat split; cbn -[Nat.sub Nat.add]; lia.
      + eexists _, _. split; [reflexivity|]. repeat split; cbn -[Nat.sub Nat.add]; lia.
    - eexists _, _. split; [reflexivity|]. repeat split; cbn -[Nat.sub Nat.add]; lia. }
  destruct Hsplit as (s0 & regex0 & -> & Hstep).
  destruct (peek buf (regex + n1) =? "$")%char.
  - destruct (_ =? 1); [apply sat_fatal_any|].
    destruct (find_referenced _ _ _ _ _ _).
    + exact Hstep.
    + apply through_assert. intros _. apply through_name_store. intros _.
      apply through_store_nonterm. exact Hstep.
  - apply through_assert. intros _.
    unfold memcpy2. eapply sat_bind; [apply memcpy2_loop_position|].
    intros [size s1] (H1 & H2). apply through_store_term.
    destruct Hstep as (a & b & c). repeat split; cbn; congruence.
Qed.

Lemma parse_header_in_step cfg buf regex s :
  sat no_stop (fun '(_, regex', s') => in_step regex s regex' s')
      (parse_header cfg buf regex s).
Proof.
  unfold parse_header, moveRegexPtr, move_while.
  destruct (peek buf regex =? "$")%char; cbn [negb]; [|apply sat_fatal_any].
  cbn [currentColumn with_currentColumn].
  destruct (_ =? regex + 1); [apply sat_fatal_any|].
  destruct (_ || _); [apply sat_fatal_any|].
  apply through_assert. intros _.
  match goal with |- sat _ _ (bind (if ?c then _ else _) _) => destruct c end;
    [|cbn; unfold no_stop; tauto].
  cbn [bind].
  set (s1 := with_currentColumn _ _).
  eapply sat_bind; [apply (find_declared_through s1 _ (currentNonterm s1) 0)|].
  intros found _.
  eapply sat_bind with
    (P := fun '(i, s2) => currentColumn s2 = currentColumn s1
                          /\ currentLine s2 = currentLine s1).
  { destruct found; [now cbn|]. apply through_assert. intros _. now cbn. }
  intros [i s2] (H1 & H2).
  apply through_name_store. intros _. apply through_store_nonterm.
  cbn [currentColumn with_currentColumn with_nonterms].
  destruct (negb _); [apply sat_fatal_any|].
  destruct (negb _); [apply sat_fatal_any|].
  destruct (_ || _); [apply sat_fatal_any|].
  cbn in *. repeat split; cbn -[Nat.sub Nat.add]; try lia; congruence.
Qed.

Lemma parse_body_loop_in_step cfg buf : forall fuel regex op cur curIdx prev s,
  sat no_stop (fun '(regex', _, s') => in_step regex s regex' s')
      (parse_body_loop fuel cfg buf regex op cur curIdx prev s).
Proof.
  induction fuel as [|fuel IH]; intros regex op cur curIdx prev s;
    [cbn; unfold no_stop; tauto|].
  cbn [parse_body_loop].
  eapply sat_bind; [apply parse_operand_in_step|].
  intros [[[opType op1v] regex1] s1] H1.
  destruct (OperandType_eqb opType NOTHING); [exact H1|].
  pose proof (parse_operator_in_step buf regex1 s1) as H2.
  destruct (parse_operator buf regex1 s1) as [[opCode regex2] s2].
  apply through_store_expr.
  eapply sat_bind with (P := fun '(regex3, _, s3) => in_step regex s regex3 s3).
  { destruct (OperatorType_eqb opCode ZERO_OR_MORE).
    - apply through_store_expr. apply through_assert. intros _.
      match goal with |- context [parse_operator buf regex2 ?st] =>
        pose proof (parse_operator_in_step buf regex2 st) as H3;
        destruct (parse_operator buf regex2 st) as [[newType regex3] s3] end.
      apply through_store_expr. apply through_store_expr.
      cbn [sat]. eapply in_step_trans; [exact H1|]. eapply in_step_trans; [exact H2|].
      destruct H3 as (a & b & c). repeat split; cbn -[Nat.sub Nat.add] in *; lia.
    - cbn [sat]. eapply in_step_trans; [exact H1|].
      destruct H2 as (a & b & c). repeat split; cbn -[Nat.sub Nat.add] in *; lia. }
  intros [[regex3 cur3] s3] H3.
  apply through_assert. intros _. apply through_store_expr.
  eapply sat_weaken; [apply IH|auto|].
  intros [[regex' prev'] s'] H'. eapply in_step_trans; [exact H3|].
  destruct H' as (a & b & c). repeat split; cbn -[Nat.sub Nat.add] in *; lia.
Qed.

Lemma parse_body_in_step cfg buf regex i s :
  sat no_stop (fun '(regex', s') => in_step regex s regex' s')
      (parse_body cfg buf regex i s).
Proof.
  unfold parse_body. apply through_assert. intros _. apply through_store_nonterm.
  eapply sat_bind; [apply parse_body_loop_in_step|].
  intros [[regex1 prev] s1] P. apply through_assert. intros _.
  unfold store_expr. destruct (_ <? _); [|cbn; unfold no_stop; tauto].
  cbn [bind sat]. destruct P as (a & b & c).
  repeat split; cbn -[Nat.sub Nat.add] in *; lia.
Qed.

(** X13: every function that moves the cursor over the line moves
    [currentColumn] by the same distance and leaves [currentLine] alone:
    where the parser stands, line and column are those of the cursor. *)
Theorem column_follows_the_cursor cfg buf regex s :
  (forall i regex' s',
     parse_header cfg buf regex s = Ok (i, regex', s') -> in_step regex s regex' s')
  /\ (forall res t v regex' s',
        parse_operand cfg buf regex res s = Ok (t, v, regex', s') -> in_step regex s regex' s')
  /\ (forall op regex' s',
        parse_operator buf regex s = (op, regex', s') -> in_step regex s regex' s')
  /\ (forall i regex' s',
        parse_body cfg buf regex i s = Ok (regex', s') -> in_step regex s regex' s').
Proof.
  split; [|split; [|split]].
  - intros i regex' s' H. pose proof (parse_header_in_step cfg buf regex s) as P.
    rewrite H in P. exact P.
  - intros res t v regex' s' H. pose proof (parse_operand_in_step cfg buf regex res s) as P.
    rewrite H in P. exact P.
  - intros op regex' s' H. pose proof (parse_operator_in_step buf regex s) as P.
    rewrite H in P. exact P.
  - intros i regex' s' H. pose proof (parse_body_in_step cfg buf regex i s) as P.
    rewrite H in P. exact P.
Qed.

Lemma column_follows_the_cursor_witness :
  parse_operator (chars " |x") 0 (initial sample)
  = (OR, 2, with_currentColumn 2 (with_currentColumn 1 (initial sample)))
  /\ in_step 0 (initial sample) 2 (with_currentColumn 2 (with_currentColumn 1 (initial sample))).
Proof.
  assert (h : parse_operator (chars " |x") 0 (initial sample)
              = (OR, 2, with_currentColumn 2 (with_currentColumn 1 (initial sample))))
    by reflexivity.
  exact (conj h (proj1 (proj2 (proj2
           (column_follows_the_cursor sample (chars " |x") 0 (initial sample)))) _ _ _ h)).
Defined.

(** ** What parse_operand returns, by kind *)

Ltac bind_as H a E := apply bind_Ok in H; destruct H as (a & E & H).

Lemma nth_bytes_at buf start n j :
  j < n -> nth j (bytes_at buf start n) NUL = peek buf (start + j).
Proof.
  intro H. unfold bytes_at. rewrite peek_skipn.
  revert j n H. generalize (skipn start buf). intro l.
  induction l as [|c l IH]; intros j n H.
  - rewrite firstn_nil. now destruct j.
  - destruct n; [lia|]. destruct j; cbn; [reflexivity|]. apply IH. lia.
Qed.

Lemma find_referenced_prefix s buf start size : forall n i k,
  find_referenced s buf start size i n = Some k ->
  i <= k < i + n
  /\ forall j, j < size -> nth j (name (nonterms s k)) NUL = peek buf (start + j).
Proof.
  induction n as [|n IH]; intros i k H; cbn in H; [discriminate|].
  destruct (memcmp_eq _ _ _ _) eqn:E.
  - injection H as <-. split; [lia|]. intros j Hj. unfold memcmp_eq in E.
    rewrite forallb_forall in E. specialize (E j). apply Ascii.eqb_eq. apply E.
    apply in_seq. lia.
  - apply IH in H. destruct H as [H1 H2]. split; [lia|exact H2].
Qed.

Lemma memcpy2_touches_numBytes cfg buf dest src n ec te tp s copied s' :
  memcpy2 cfg buf dest src n ec te tp s = Ok (copied, s') ->
  currentTermStart s' = currentTermStart s.
Proof.
  unfold memcpy2. intro H.
  pose proof (memcpy2_loop_frame cfg buf ec te tp n dest src n s) as F.
  rewrite H in F. cbn in F. tauto.
Qed.

(** X14: parse_operand returns NOTHING only at the end of the line and with
    nothing changed but the column; a NON_TERMINAL is the index of an
    entry whose name begins with the bytes of the token, a token of [$] and
    one character at least; a TERMINAL is the offset the pool stood at,
    and the pool has advanced by the length of the token and one byte, on
    a token that does not begin with [$]. *)
Theorem parse_operand_by_kind cfg buf regex res s t v regex' s' :
  parse_operand cfg buf regex res s = Ok (t, v, regex', s') ->
  let start := regex + run_length blank (skipn regex buf) in
  match t with
  | NOTHING =>
      regex' = start /\ v = res /\ tables s' = tables s
      /\ (peek buf start = NUL \/ peek buf start = NEWLINE)
  | NON_TERMINAL =>
      peek buf start = "$"%char /\ 2 <= regex' - start
      /\ exists k, v = Z.of_nat k /\ k < currentNonterm s'
           /\ forall j, j < regex' - start ->
                nth j (name (nonterms s' k)) NUL = peek buf (start + j)
  | TERMINAL =>
      peek buf start <> "$"%char /\ 1 <= regex' - start
      /\ v = Z.of_nat (currentTermStart s)
      /\ currentTermStart s' = currentTermStart s + (regex' - start) + 1
  | NESTED_EXPRESSION => False
  end.
Proof.
  intros H start.
  unfold parse_operand, move_while in H. fold start in H.
  destruct ((peek buf start =? NUL)%char || (peek buf start =? NEWLINE)%char) eqn:E0.
  { injection H as <- <- <- <-. repeat split.
    apply orb_prop in E0. destruct E0 as [E|E]; apply Ascii.eqb_eq in E; auto. }
  destruct ((peek buf start =? "|")%char || (peek buf start =? "*")%char) eqn:E1;
    [discriminate|].
  apply orb_false_elim in E0. destruct E0 as [E0 E0'].
  apply orb_false_elim in E1. destruct E1 as [_ E1].
  pose proof (not_blank_wordchar _ (move_while_end blank buf regex eq_refl) E0 E0') as Hw.
  apply run_length_wordchar_pos in Hw. fold start in Hw.
  set (n2 := run_length wordchar (skipn start buf)) in *.
  cbn [currentColumn with_currentColumn] in H.
  match type of H with context [let '(_, _) := ?e in _] =>
    assert (Hsplit : exists c regex0,
      e = (with_currentColumn c s, regex0) /\ start < regex0) end.
  { destruct (peek buf (start + n2 - 1) =? "*")%char eqn:E4; cbn [andb].
    - destruct (negb _).
      + eexists _, _. split; [destruct s; reflexivity|].
        destruct (Nat.eq_dec n2 1) as [E|]; [|lia].
        rewrite E in E4. replace (start + 1 - 1) with start in E4 by lia. congruence.
      + eexists _, _. split; [destruct s; reflexivity|lia].
    - eexists _, _. split; [destruct s; reflexivity|lia]. }
  destruct Hsplit as (c & regex0 & Es & Hlt). rewrite Es in H. clear Es.
  destruct (peek buf start =? "$")%char eqn:Ed.
  - apply Ascii.eqb_eq in Ed.
    destruct (regex0 - start =? 1) eqn:E2; [discriminate|]. apply Nat.eqb_neq in E2.
    destruct (find_referenced _ _ _ _ _ _) as [k|] eqn:Ef.
    + injection H as <- <- <- <-. apply find_referenced_prefix in Ef.
      destruct Ef as [Hk Hp]. split; [exact Ed|]. split; [lia|].
      exists k. split; [reflexivity|]. split; [cbn in *; lia|exact Hp].
    + bind_as H u Ea. bind_as H u2 Ea2. bind_as H s1 Eb. apply store_nonterm_Ok in Eb. subst s1.
      injection H as <- <- <- <-. split; [exact Ed|]. split; [lia|].
      exists (currentNonterm s). split; [reflexivity|]. split; [cbn; lia|].
      intros j Hj. cbn. rewrite aset_eq. cbn. now apply nth_bytes_at.
  - apply Ascii.eqb_neq in Ed.
    bind_as H u Ea. bind_as H r Eb. destruct r as [size s1]. bind_as H s2 Ec.
    apply store_term_Ok in Ec. subst s2. injection H as <- <- <- <-.
    apply memcpy2_touches_numBytes in Eb.
    split; [exact Ed|]. split; [lia|]. cbn -[Nat.sub Nat.add] in *.
    rewrite Eb. split; [f_equal; lia|lia].
Qed.

Lemma parse_operand_by_kind_witness :
  exists s',
    parse_operand sample (chars " $B x") 0 (-1)%Z (initial sample)
    = Ok (NON_TERMINAL, 0%Z, 3, s')
    /\ peek (chars " $B x") 1 = "$"%char /\ 2 <= 3 - 1
    /\ exists k, 0%Z = Z.of_nat k /\ k < currentNonterm s'
         /\ forall j, j < 3 - 1 ->
              nth j (name (nonterms s' k)) NUL = peek (chars " $B x") (1 + j).
Proof.
  eexists.
  assert (h : parse_operand sample (chars " $B x") 0 (-1)%Z (initial sample)
              = Ok (NON_TERMINAL, 0%Z, 3, _)) by reflexivity.
  exact (conj h (parse_operand_by_kind _ _ _ _ _ _ _ _ _ h)).
Defined.

(** ** What parse_header accepts *)

Lemma forallb_run_length p (l : list char) : forallb p (firstn (run_length p l) l) = true.
Proof.
  induction l as [|c l IH]; cbn; [reflexivity|].
  destruct (p c) eqn:E; cbn; [now rewrite E|reflexivity].
Qed.

(** X15: parse_header returns only on [$], a name of one character at least
    that fits its buffer with the terminator, [:=] behind the name and
    the whitespace after it, and another character on the same line: the
    entry it returns carries the name, with the [$], and its own index. *)
Theorem header_needs_a_definition cfg buf regex s i regex' s' :
  parse_header cfg buf regex s = Ok (i, regex', s') ->
  peek buf regex = "$"%char
  /\ exists n m,
       1 <= n /\ S n < MAX_NONTERM_NAME cfg
       /\ forallb wordchar (bytes_at buf (S regex) n) = true
       /\ forallb isspace (bytes_at buf (S regex + n) m) = true
       /\ peek buf (S regex + n + m) = ":"%char
       /\ peek buf (S (S regex + n + m)) = "="%char
       /\ S (S (S regex + n + m)) <= regex'
       /\ wordchar (peek buf regex') = true
       /\ i < currentNonterm s'
       /\ name (nonterms s' i) = bytes_at buf regex (S n)
       /\ idx (nonterms s' i) = Z.of_nat i.
Proof.
  unfold parse_header, moveRegexPtr, move_while. intro H.
  destruct (peek buf regex =? "$")%char eqn:E0; cbn [negb] in H; [|discriminate].
  apply Ascii.eqb_eq in E0. split; [exact E0|].
  cbn [currentColumn with_currentColumn] in H.
  set (n := run_length wordchar (skipn (S regex) buf)) in *.
  destruct (S regex + n =? regex + 1) eqn:E1; [discriminate|]. apply Nat.eqb_neq in E1.
  destruct (_ || _); [discriminate|].
  bind_as H u Ea. unfold assert in Ea.
  replace (S regex + n - regex) with (S n) in * by lia.
  bind_as H u' Eb.
  destruct (Nat.ltb_spec (S n) (MAX_NONTERM_NAME cfg)) as [Hfit|]; [|discriminate].
  bind_as H found Ec. bind_as H r Ed. destruct r as [i0 s2].
  assert (Hi : i0 < currentNonterm s2 /\ nonterms s2 = nonterms s).
  { destruct found as [k|].
    - injection Ed as <- <-. apply find_declared_bound in Ec. cbn in *. split; [lia|auto].
    - bind_as Ed u'' Ee. injection Ed as <- <-. cbn. split; [lia|auto]. }
  clear Ec Ed. destruct Hi as [Hi Hn].
  bind_as H u3 Eg. clear Eg u3. bind_as H s3 Ef. apply store_nonterm_Ok in Ef. subst s3.
  cbn [currentColumn with_currentColumn with_nonterms] in H.
  set (m := run_length isspace (skipn (S regex + n) buf)) in *.
  destruct (peek buf (S regex + n + m) =? ":")%char eqn:E2; cbn [negb] in H; [|discriminate].
  destruct (peek buf (S (S regex + n + m)) =? "=")%char eqn:E3; cbn [negb] in H;
    [|discriminate].
  match type of H with context [run_length blank (skipn ?p buf)] =>
    pose proof (move_while_end blank buf p eq_refl) as Hb;
    set (k := run_length blank (skipn p buf)) in * end.
  destruct ((peek buf (S (S (S regex + n + m)) + k) =? NUL)%char
            || (peek buf (S (S (S regex + n + m)) + k) =? NEWLINE)%char) eqn:E4;
    [discriminate|].
  apply orb_false_elim in E4. destruct E4 as [E4 E5].
  injection H as <- <- <-.
  exists n, m. split; [lia|]. split; [exact Hfit|].
  split; [apply forallb_run_length|]. split; [apply forallb_run_length|].
  split; [now apply Ascii.eqb_eq|]. split; [now apply Ascii.eqb_eq|].
  split; [lia|]. split; [now apply not_blank_wordchar|].
  cbn. split; [exact Hi|]. now rewrite aset_eq.
Qed.

Lemma header_needs_a_definition_witness :
  exists s',
    parse_header sample (chars "$Name  := x") 0 (initial sample) = Ok (0, 10, s')
    /\ peek (chars "$Name  := x") 0 = "$"%char
    /\ exists n m,
         1 <= n /\ S n < MAX_NONTERM_NAME sample
         /\ forallb wordchar (bytes_at (chars "$Name  := x") 1 n) = true
         /\ forallb isspace (bytes_at (chars "$Name  := x") (1 + n) m) = true
         /\ peek (chars "$Name  := x") (1 + n + m) = ":"%char
         /\ peek (chars "$Name  := x") (S (1 + n + m)) = "="%char
         /\ S (S (1 + n + m)) <= 10
         /\ wordchar (peek (chars "$Name  := x") 10) = true
         /\ 0 < currentNonterm s'
         /\ name (nonterms s' 0) = bytes_at (chars "$Name  := x") 0 (S n)
         /\ idx (nonterms s' 0) = Z.of_nat 0.
Proof.
  eexists.
  assert (h : parse_header sample (chars "$Name  := x") 0 (initial sample) = Ok (0, 10, _))
    by reflexivity.
  exact (conj h (header_needs_a_definition _ _ _ _ _ _ _ h)).
Defined.

(** ** Lines the parser refuses *)

Lemma fgets_prefix : forall (l : list char) n rest,
  no_newline l = true -> length l <= n ->
  fgets n (l ++ rest) = (l ++ fst (fgets (n - length l) rest), snd (fgets (n - length l) rest)).
Proof.
  induction l as [|c l IH]; intros n rest Hl Hn; cbn [app length].
  - rewrite Nat.sub_0_r. now destruct (fgets n rest).
  - cbn in Hl, Hn. apply andb_prop in Hl. destruct Hl as [Hc Hl]. apply negb_true_iff in Hc.
    destruct n as [|n]; [lia|]. cbn [fgets Nat.sub]. rewrite Hc.
    rewrite (IH n rest Hl) by lia. reflexivity.
Qed.

(** The run up to the first call of parse_regex: the buffer holds the
    first characters of the stream, [l] among them. *)
Lemma parse_regex_spec_first cfg (l rest : list char) :
  l <> [] -> no_newline l = true -> length l < MAX_REGEX_LEN cfg ->
  exists tail stale fuel more,
    parse_regex_spec cfg (l ++ rest) =
    (s1 <- parse_regex cfg (l ++ tail)
                       (with_currentColumn 0 (with_currentLine 1 (initial cfg))) ;;
     read_lines fuel cfg more stale s1).
Proof.
  intros Hne Hnl Hlen. unfold parse_regex_spec.
  destruct l as [|c l]; [congruence|]. cbn [app length read_lines].
  change (c :: l ++ rest) with ((c :: l) ++ rest).
  rewrite (fgets_prefix (c :: l) _ rest Hnl) by (cbn in *; lia).
  unfold store_line. rewrite <- app_assoc. eexists _, _, _, _. reflexivity.
Qed.

Lemma first_line_fatal cfg (l rest : list char) a b e :
  l <> [] -> no_newline l = true -> length l < MAX_REGEX_LEN cfg ->
  (forall tail s, parse_regex cfg (l ++ tail) s
                  = Fatal (currentLine s) (currentColumn s + a) e) ->
  b = a ->
  parse cfg (l ++ rest) = Fatal 1 b e.
Proof.
  intros Hne Hnl Hlen H ->. unfold parse.
  destruct (parse_regex_spec_first cfg l rest Hne Hnl Hlen) as (tail & stale & fuel & more & ->).
  now rewrite H.
Qed.

Lemma first_line_assertion cfg (l rest : list char) a :
  l <> [] -> no_newline l = true -> length l < MAX_REGEX_LEN cfg ->
  (forall tail s, parse_regex cfg (l ++ tail) s = AssertionFailed a) ->
  parse cfg (l ++ rest) = AssertionFailed a.
Proof.
  intros Hne Hnl Hlen H. unfold parse.
  destruct (parse_regex_spec_first cfg l rest Hne Hnl Hlen) as (tail & stale & fuel & more & ->).
  now rewrite H.
Qed.

Lemma first_line_undefined cfg (l rest : list char) f :
  l <> [] -> no_newline l = true -> length l < MAX_REGEX_LEN cfg ->
  (forall tail s, parse_regex cfg (l ++ tail) s = Undefined f) ->
  parse cfg (l ++ rest) = Undefined f.
Proof.
  intros Hne Hnl Hlen H. unfold parse.
  destruct (parse_regex_spec_first cfg l rest Hne Hnl Hlen) as (tail & stale & fuel & more & ->).
  now rewrite H.
Qed.

Lemma blank_isspace l : forallb blank l = true -> forallb isspace l = true.
Proof.
  apply forallb_weaken. intros a Ha. unfold blank in Ha. now apply andb_prop in Ha.
Qed.

Lemma blank_no_newline l : forallb blank l = true -> no_newline l = true.
Proof.
  apply forallb_weaken. intros a Ha. unfold blank in Ha. now apply andb_prop in Ha.
Qed.

Lemma parse_regex_malformed cfg (sp : list char) c tail s :
  forallb isspace sp = true -> wordchar c = true ->
  c <> "!"%char -> c <> "$"%char ->
  parse_regex cfg ((sp ++ [c]) ++ tail) s
  = Fatal (currentLine s) (currentColumn s + length sp) MalformedLine.
Proof.
  intros Hsp Hc Hbang Hdollar.
  destruct (wordchar_parts _ Hc) as (Hc0 & Hcs & _ & _).
  rewrite <- app_assoc. cbn [app].
  pose proof (skipn_past (sp ++ c :: tail) 0 sp (c :: tail) eq_refl) as Hs.
  cbn [Nat.add] in Hs.
  unfold parse_regex.
  rewrite (move_while_over isspace (sp ++ c :: tail) s 0 sp (c :: tail) eq_refl Hsp)
    by (cbn; now rewrite Hcs).
  cbn [Nat.add]. rewrite (peek_hd _ (length sp)), Hs. cbn [hd].
  rewrite Hc0. replace (c =? "!")%char with false by (symmetry; now apply Ascii.eqb_neq).
  unfold parse_header. rewrite (peek_hd _ (length sp)), Hs. cbn [hd].
  replace (c =? "$")%char with false by (symmetry; now apply Ascii.eqb_neq).
  reflexivity.
Qed.

(** X16: a first line that begins, behind blanks at most, with a character
    other than [$] and [!] stops the run with "Malformed regex spec
    line", reported at the column of that character. *)
Theorem line_must_start_with_dollar cfg sp c rest :
  forallb blank sp = true -> wordchar c = true -> c <> "!"%char -> c <> "$"%char ->
  S (length sp) < MAX_REGEX_LEN cfg ->
  parse cfg (sp ++ c :: rest) = Fatal 1 (length sp) MalformedLine.
Proof.
  intros Hsp Hc Hbang Hdollar Hlen.
  change (sp ++ c :: rest) with (sp ++ [c] ++ rest). rewrite app_assoc.
  apply (first_line_fatal cfg (sp ++ [c]) rest (length sp)).
  - now destruct sp.
  - rewrite no_newline_app, (blank_no_newline sp Hsp). cbn.
    apply wordchar_parts in Hc. destruct Hc as (_ & _ & -> & _). reflexivity.
  - rewrite length_app. cbn. lia.
  - intros tail s. apply parse_regex_malformed; auto. now apply blank_isspace.
  - reflexivity.
Qed.

Lemma line_must_start_with_dollar_witness :
  parse sample (chars "  A := x") = Fatal 1 2 MalformedLine.
Proof.
  exact (line_must_start_with_dollar sample (chars "  ") "A"%char (chars " := x")
           eq_refl eq_refl ltac:(discriminate) ltac:(discriminate) ltac:(cbn; lia)).
Defined.

Lemma blank_parts d :
  blank d = true ->
  wordchar d = false /\ isspace d = true /\ (d =? NUL)%char = false
  /\ (d =? NEWLINE)%char = false.
Proof.
  unfold blank, wordchar. intro H. apply andb_prop in H. destruct H as [H1 H2].
  rewrite H1. apply negb_true_iff in H2. repeat split; auto.
  - apply andb_false_r.
  - destruct (Ascii.eqb_spec d NUL) as [->|]; [discriminate H1|reflexivity].
Qed.

(** parse_regex on a line [$nm d ...] whose name does not fit the buffer
    of parse_header with its terminator. *)
Lemma parse_regex_name_length cfg nm d tail s :
  valid_name nm = true -> blank d = true ->
  MAX_NONTERM_NAME cfg <= S (length nm) ->
  parse_regex cfg (("$"%char :: nm ++ [d]) ++ tail) s =
  if S (length nm) <=? MAX_NONTERM_NAME cfg
  then Undefined (StoreOutsideNameBuffer (S (length nm)))
  else AssertionFailed NameTooLong.
Proof.
  intros Hnm Hd Hlong. destruct (blank_parts d Hd) as (Hdw & _ & Hd0 & Hdn).
  assert (Hw : forallb wordchar nm = true) by (destruct nm; [discriminate|exact Hnm]).
  assert (Hne : nm <> []) by (destruct nm; [discriminate|congruence]).
  set (buf := ("$"%char :: nm ++ [d]) ++ tail).
  assert (H1 : skipn 1 buf = nm ++ d :: tail)
    by (subst buf; cbn; now rewrite <- app_assoc).
  pose proof (skipn_past buf 1 nm (d :: tail) H1) as H2.
  unfold parse_regex, move_while at 1; cbn [skipn].
  change (run_length isspace buf) with 0; cbn [Nat.add].
  change (peek buf 0) with "$"%char; cbn [Ascii.eqb Bool.eqb].
  unfold parse_header, moveRegexPtr; change (peek buf 0) with "$"%char;
    cbn [Ascii.eqb Bool.eqb negb].
  rewrite (move_while_over wordchar buf _ 1 nm (d :: tail) H1 Hw)
    by (cbn; now rewrite Hdw).
  replace (1 + length nm =? 0 + 1) with false
    by (symmetry; apply Nat.eqb_neq; destruct nm; [congruence|cbn; lia]).
  rewrite (peek_hd buf (1 + length nm)), H2; cbn [hd]; rewrite Hd0, Hdn; cbn [orb].
  replace (1 + length nm - 0) with (S (length nm)) by lia.
  unfold assert. destruct (S (length nm) <=? MAX_NONTERM_NAME cfg); [|reflexivity].
  cbn [bind].
  replace (S (length nm) <? MAX_NONTERM_NAME cfg) with false
    by (symmetry; apply Nat.ltb_ge; lia).
  reflexivity.
Qed.

(** X17: the name of a header is checked with
    [nontermNameSize <= MAX_NONTERM_NAME] and then terminated at
    [nontermName[nontermNameSize]]: a longer name fails the assertion
    "Non-terminal name is too long!", and a name of exactly
    MAX_NONTERM_NAME characters, the [$] counted, passes it and has its
    terminator stored behind the buffer. *)
Theorem header_name_length_limits cfg nm d rest :
  valid_name nm = true -> blank d = true ->
  S (S (length nm)) < MAX_REGEX_LEN cfg ->
  (MAX_NONTERM_NAME cfg < S (length nm) ->
     parse cfg ("$"%char :: nm ++ d :: rest) = AssertionFailed NameTooLong)
  /\ (S (length nm) = MAX_NONTERM_NAME cfg ->
        parse cfg ("$"%char :: nm ++ d :: rest)
        = Undefined (StoreOutsideNameBuffer (MAX_NONTERM_NAME cfg))).
Proof.
  intros Hnm Hd Hlen.
  assert (Hw : forallb wordchar nm = true) by (destruct nm; [discriminate|exact Hnm]).
  assert (Hnl : no_newline ("$"%char :: nm ++ [d]) = true).
  { change ("$"%char :: nm ++ [d]) with (["$"%char] ++ nm ++ [d]).
    rewrite !no_newline_app, (no_newline_wordchars nm Hw). cbn.
    destruct (blank_parts d Hd) as (_ & _ & _ & ->). reflexivity. }
  assert (Hsz : length ("$"%char :: nm ++ [d]) < MAX_REGEX_LEN cfg)
    by (cbn; rewrite length_app; cbn; lia).
  assert (Heq : "$"%char :: nm ++ d :: rest = ("$"%char :: nm ++ [d]) ++ rest)
    by (cbn; now rewrite <- app_assoc).
  split; intro H; rewrite Heq.
  - apply first_line_assertion; auto; [discriminate|].
    intros tail s. rewrite (parse_regex_name_length cfg nm d tail s Hnm Hd) by lia.
    replace (S (length nm) <=? MAX_NONTERM_NAME cfg) with false
      by (symmetry; apply Nat.leb_gt; lia).
    reflexivity.
  - apply first_line_undefined; auto; [discriminate|].
    intros tail s. rewrite (parse_regex_name_length cfg nm d tail s Hnm Hd) by lia.
    replace (S (length nm) <=? MAX_NONTERM_NAME cfg) with true
      by (symmetry; apply Nat.leb_le; lia).
    now rewrite H.
Qed.

Lemma header_name_length_limits_witness :
  parse (mkConfig 8 64 16 80 4 NO_OP NOTHING) (chars "$Name := x")
  = AssertionFailed NameTooLong
  /\ parse (mkConfig 8 64 16 80 4 NO_OP NOTHING) (chars "$Nam := x")
     = Undefined (StoreOutsideNameBuffer 4).
Proof.
  split.
  - exact (proj1 (header_name_length_limits (mkConfig 8 64 16 80 4 NO_OP NOTHING)
                    (chars "Name") " "%char (chars ":= x") eq_refl eq_refl
                    ltac:(cbn; lia)) ltac:(cbn; lia)).
  - exact (proj2 (header_name_length_limits (mkConfig 8 64 16 80 4 NO_OP NOTHING)
                    (chars "Nam") " "%char (chars ":= x") eq_refl eq_refl
                    ltac:(cbn; lia)) eq_refl).
Defined.

(** *** A second definition *)

Lemma list_eqb_refl l : list_eqb l l = true.
Proof. induction l as [|a l IH]; cbn; [reflexivity|]. now rewrite Ascii.eqb_refl. Qed.

Lemma list_eqb_eq : forall a b, list_eqb a b = true -> a = b.
Proof.
  induction a as [|x a IH]; intros [|y b] H; cbn in H; try discriminate; auto.
  apply andb_prop in H. destruct H as [H1 H2]. apply Ascii.eqb_eq in H1. subst.
  f_equal. now apply IH.
Qed.

Lemma find_declared_complete s nm : forall n i k,
  i <= k < i + n -> name (nonterms s k) = nm -> complete (nonterms s k) = true ->
  (forall j, i <= j < k -> name (nonterms s j) <> nm) ->
  find_declared s nm i n = fatal_error s Redefinition.
Proof.
  induction n as [|n IH]; intros i k Hk Hn Hc Hfirst; [lia|]. cbn [find_declared].
  destruct (Nat.eq_dec i k) as [->|Hne].
  - rewrite Hn. unfold strcmp_eq. rewrite list_eqb_refl, Hc. reflexivity.
  - destruct (strcmp_eq nm (name (nonterms s i))) eqn:E.
    + apply list_eqb_eq in E. exfalso. apply (Hfirst i); [lia|congruence].
    + apply (IH (S i) k); auto; [lia|]. intros j Hj. apply Hfirst. lia.
Qed.

Lemma parse_regex_redefinition cfg nm d tail s k :
  valid_name nm = true -> blank d = true ->
  S (length nm) < MAX_NONTERM_NAME cfg ->
  k < currentNonterm s -> name (nonterms s k) = "$"%char :: nm ->
  complete (nonterms s k) = true ->
  (forall j, j < k -> name (nonterms s j) <> "$"%char :: nm) ->
  parse_regex cfg (("$"%char :: nm ++ [d]) ++ tail) s
  = Fatal (currentLine s) (currentColumn s + S (length nm)) Redefinition.
Proof.
  intros Hnm Hd Hfit Hk Hname Hc Hfirst.
  destruct (blank_parts d Hd) as (Hdw & _ & Hd0 & Hdn).
  assert (Hw : forallb wordchar nm = true) by (destruct nm; [discriminate|exact Hnm]).
  set (buf := ("$"%char :: nm ++ [d]) ++ tail).
  assert (H0 : skipn 0 buf = "$"%char :: nm ++ d :: tail)
    by (subst buf; cbn; now rewrite <- app_assoc).
  assert (H1 : skipn 1 buf = nm ++ d :: tail)
    by (subst buf; cbn; now rewrite <- app_assoc).
  pose proof (skipn_past buf 1 nm (d :: tail) H1) as H2.
  unfold parse_regex, move_while at 1; cbn [skipn].
  change (run_length isspace buf) with 0; cbn [Nat.add].
  change (peek buf 0) with "$"%char; cbn [Ascii.eqb Bool.eqb].
  unfold parse_header, moveRegexPtr; change (peek buf 0) with "$"%char;
    cbn [Ascii.eqb Bool.eqb negb].
  rewrite (move_while_over wordchar buf _ 1 nm (d :: tail) H1 Hw)
    by (cbn; now rewrite Hdw).
  replace (1 + length nm =? 0 + 1) with false
    by (symmetry; apply Nat.eqb_neq; destruct nm; [discriminate|cbn; lia]).
  rewrite (peek_hd buf (1 + length nm)), H2; cbn [hd]; rewrite Hd0, Hdn; cbn [orb].
  replace (1 + length nm - 0) with (S (length nm)) by lia.
  unfold assert.
  replace (S (length nm) <=? MAX_NONTERM_NAME cfg) with true
    by (symmetry; apply Nat.leb_le; lia).
  replace (S (length nm) <? MAX_NONTERM_NAME cfg) with true
    by (symmetry; apply Nat.ltb_lt; lia).
  cbn [bind].
  unfold bytes_at. rewrite H0. cbn [firstn].
  rewrite firstn_app, firstn_all, Nat.sub_diag. cbn [firstn]. rewrite app_nil_r.
  rewrite (find_declared_complete _ _ _ 0 k); auto; try (cbn; lia).
  - cbn. do 2 f_equal. lia.
  - intros j Hj. apply Hfirst. lia.
Qed.

Lemma nonterms_fold_add_line ls : forall t,
  exists new,
    nontermTable (fold_left add_line ls t) = nontermTable t ++ new
    /\ map name new = map (cons "$"%char) (defined ls)
    /\ forallb complete new = true.
Proof.
  induction ls as [|l ls IH]; intro t; cbn [fold_left].
  - exists []. now rewrite app_nil_r.
  - destruct (IH (add_line t l)) as (new & E & Hn & Hc). destruct l as [text|nm x rest].
    + exists new. auto.
    + cbn [add_line nontermTable] in E. rewrite <- app_assoc in E.
      eexists. split; [exact E|]. cbn. now rewrite Hn, Hc.
Qed.

Lemma defined_line ls nm :
  In nm (defined ls) -> exists x rest, In (Defines nm x rest) ls.
Proof.
  induction ls as [|l ls IH]; cbn; [tauto|].
  destruct l as [text|nm' x rest]; cbn; intro H.
  - destruct (IH H) as (x & rest & Hin). eauto.
  - destruct H as [->|H]; [eauto|]. destruct (IH H) as (x' & rest' & Hin). eauto.
Qed.

Lemma read_line_of cfg fuel (l more : list char) buf s :
  l <> [] -> no_newline l = true -> length l < MAX_REGEX_LEN cfg ->
  exists tail stale rest,
    read_lines (S fuel) cfg (l ++ more) buf s =
    (s1 <- parse_regex cfg (l ++ tail)
                       (with_currentColumn 0 (with_currentLine (S (currentLine s)) s)) ;;
     read_lines fuel cfg rest stale s1).
Proof.
  intros Hne Hnl Hlen. destruct l as [|c l]; [congruence|]. cbn [app read_lines].
  change (c :: l ++ more) with ((c :: l) ++ more).
  rewrite (fgets_prefix (c :: l) _ more Hnl) by (cbn in *; lia).
  unfold store_line. rewrite <- app_assoc. eexists _, _, _. reflexivity.
Qed.

(** X18: behind a grammar of definitions without stars, a line that defines one
    of its names again stops the run with "Re-definition of a
    non-terminal", at that line and at the column behind the name,
    whatever the line goes on with. *)
Theorem defining_a_name_twice_is_fatal cfg ls nm d more :
  forallb spec_line_ok ls = true -> NoDup (defined ls) ->
  spec_fits cfg (spec_tables ls) ls ->
  In nm (defined ls) -> blank d = true ->
  parse cfg (spec_text ls ++ "$"%char :: nm ++ d :: more)
  = Fatal (S (length ls)) (S (length nm)) Redefinition.
Proof.
  intros Hok Hnd Hfit Hin Hd. unfold parse, parse_regex_spec.
  destruct (defined_line ls nm Hin) as (x & rest & Hline).
  destruct Hfit as (Fn & Ft & Fe & Fl).
  destruct (Fl _ Hline) as [Flen Fname]. cbn [spec_line_text] in Flen.
  assert (Hnm : valid_name nm = true).
  { rewrite forallb_forall in Hok. specialize (Hok _ Hline). cbn in Hok.
    apply andb_prop in Hok. destruct Hok as [Hok _]. now apply andb_prop in Hok. }
  assert (Hw : forallb wordchar nm = true) by (destruct nm; [discriminate|exact Hnm]).
  assert (Hlen : length nm + 5 <= length (definition_text nm x rest)).
  { unfold definition_text, line_text. cbn. rewrite !length_app. cbn. lia. }
  destruct (read_lines_spec_then cfg ("$"%char :: nm ++ d :: more) ls
              (length (spec_text ls ++ "$"%char :: nm ++ d :: more)) [] (initial cfg))
    as (s' & buf' & fuel' & E & Hfuel & T & L); auto.
  { intros nm' _ j Hj. cbn in Hj. lia. }
  { split; [exact Fn|]. split; [exact Ft|]. split; [exact Fe|exact Fl]. }
  rewrite E. clear E.
  destruct fuel' as [|fuel']; [cbn in Hfuel; lia|].
  assert (Heq : "$"%char :: nm ++ d :: more = ("$"%char :: nm ++ [d]) ++ more)
    by (cbn; now rewrite <- app_assoc).
  rewrite Heq.
  destruct (read_line_of cfg fuel' ("$"%char :: nm ++ [d]) more buf' s')
    as (tail & stale & rest' & ->).
  { discriminate. }
  { change ("$"%char :: nm ++ [d]) with (["$"%char] ++ nm ++ [d]).
    rewrite !no_newline_app, (no_newline_wordchars nm Hw). cbn.
    destruct (blank_parts d Hd) as (_ & _ & _ & ->). reflexivity. }
  { cbn. rewrite length_app. cbn. lia. }
  change (tables (initial cfg)) with {| nontermTable := []; exprTable := []; termTable := [] |}
    in T.
  destruct (nonterms_fold_add_line ls {| nontermTable := []; exprTable := []; termTable := [] |})
    as (new & En & Hnames & Hcomplete).
  cbn [nontermTable app] in En.
  destruct (In_nth_error _ _ Hin) as [k Hk].
  assert (Hklt : k < length (defined ls)) by (apply nth_error_Some; congruence).
  assert (Hlen' : length new = length (defined ls))
    by (rewrite <- (length_map name new), Hnames, length_map; reflexivity).
  assert (Hcount : currentNonterm s' = length new).
  { destruct (length_tables s') as (M & _). rewrite T, En in M. lia. }
  assert (Hentry : forall j, j < length new ->
            nth_error new j = Some (nonterms s' j)).
  { intros j Hj. rewrite <- En, <- T. apply nth_error_tables. lia. }
  assert (Hname : forall j nm', nth_error (defined ls) j = Some nm' ->
            name (nonterms s' j) = "$"%char :: nm').
  { intros j nm' Hj.
    assert (Hjlt : j < length new) by (rewrite Hlen'; apply nth_error_Some; congruence).
    pose proof (f_equal (fun l => nth_error l j) Hnames) as Hm. cbn in Hm.
    rewrite !nth_error_map, (Hentry j Hjlt), Hj in Hm. cbn in Hm. congruence. }
  rewrite (parse_regex_redefinition cfg nm d tail _ k Hnm Hd Fname).
  - cbn. rewrite L. reflexivity.
  - cbn. lia.
  - cbn. now apply Hname.
  - cbn. rewrite forallb_forall in Hcomplete. apply Hcomplete.
    apply (nth_error_In new k). apply Hentry. lia.
  - intros j Hj. cbn.
    destruct (nth_error (defined ls) j) as [nm'|] eqn:Ej;
      [|apply nth_error_None in Ej; lia].
    rewrite (Hname j nm' Ej). intro Hsame. injection Hsame as ->.
    rewrite NoDup_nth_error in Hnd. specialize (Hnd j k). rewrite Ej, Hk in Hnd.
    specialize (Hnd ltac:(lia) eq_refl). lia.
Qed.

Lemma defining_a_name_twice_is_fatal_witness :
  parse sample (chars "$A := x" ++ NEWLINE :: chars "$B := y | z" ++ NEWLINE
                :: chars "$A := w")
  = Fatal 3 2 Redefinition.
Proof.
  assert (hd : NoDup (defined [ Defines (chars "A") (chars "x") [];
                                Defines (chars "B") (chars "y") [(Barred, chars "z")] ])).
  { repeat constructor; cbn; intuition discriminate. }
  assert (hf : spec_fits sample
                 (spec_tables [ Defines (chars "A") (chars "x") [];
                                Defines (chars "B") (chars "y") [(Barred, chars "z")] ])
                 [ Defines (chars "A") (chars "x") [];
                   Defines (chars "B") (chars "y") [(Barred, chars "z")] ]).
  { split; [cbn; lia|]. split; [cbn; lia|]. split; [cbn; lia|].
    intros l [<-|[<-|[]]]; cbn; split; lia. }
  exact (defining_a_name_twice_is_fatal sample
           [ Defines (chars "A") (chars "x") [];
             Defines (chars "B") (chars "y") [(Barred, chars "z")] ]
           (chars "A") " "%char (chars ":= w") eq_refl hd hf (or_introl eq_refl) eq_refl).
Defined.

(** *** A line longer than the buffer *)

Lemma read_lines_cut cfg fuel (l more : list char) buf s :
  l <> [] -> no_newline l = true -> length l = MAX_REGEX_LEN cfg - 1 ->
  read_lines (S fuel) cfg (l ++ more) buf s =
  (s1 <- parse_regex cfg (store_line l buf)
                     (with_currentColumn 0 (with_currentLine (S (currentLine s)) s)) ;;
   read_lines fuel cfg more (store_line l buf) s1).
Proof.
  intros Hne Hnl Hlen. destruct l as [|c l]; [congruence|]. cbn [app read_lines].
  change (c :: l ++ more) with ((c :: l) ++ more).
  rewrite (fgets_prefix (c :: l) _ more Hnl) by lia.
  rewrite Hlen, Nat.sub_diag.
  replace (fgets 0 more) with (@nil char, more) by (now destruct more).
  cbn [fst snd]. now rewrite app_nil_r.
Qed.

(** X19: [fgets] stops where the buffer is full: a definition that fills the
    buffer to its last character is parsed as a whole line, and what
    follows it on the same line of the stream is read as line 2.  Text
    that does not begin with [$] is refused there. *)
Theorem overlong_line_is_read_in_pieces cfg nm x rest c more :
  valid_name nm = true -> literal x = true -> literals rest = true ->
  length (definition_text nm x rest) = MAX_REGEX_LEN cfg - 1 ->
  roomy 1 (length (term_bytes x rest)) (length rest + 2) 1 (S (length nm)) cfg ->
  wordchar c = true -> c <> "!"%char -> c <> "$"%char ->
  parse cfg (definition_text nm x rest ++ c :: more) = Fatal 2 0 MalformedLine.
Proof.
  intros Hnm Hx Hrest Hfull (Hn & Ht & He & Hl & Hm) Hc Hbang Hdollar.
  unfold parse, parse_regex_spec.
  set (text := definition_text nm x rest) in *.
  assert (Htext : text <> []) by (subst text; discriminate).
  rewrite length_app. cbn [length]. rewrite Nat.add_succ_r.
  rewrite (read_lines_cut cfg _ text (c :: more) [] (initial cfg) Htext
             (no_newline_definition_text nm x rest Hnm Hx Hrest) Hfull).
  unfold store_line at 1 2. rewrite skipn_nil.
  destruct (parse_regex_chain cfg (text ++ [NUL])
              (with_currentColumn 0 (with_currentLine 1 (initial cfg)))
              nm x rest [NUL] eq_refl (or_introl eq_refl) Hnm Hx Hrest)
    as (s1 & E1 & L1 & _ & _); try (cbn; lia).
  cbn [currentLine initial]. rewrite E1. cbn [bind].
  assert (Hlen : length text + length more = S (length text - 1 + length more))
    by (destruct text; [congruence|cbn; lia]).
  rewrite Hlen.
  destruct (read_line_of cfg (length text - 1 + length more) [c] more
              (text ++ [NUL]) s1) as (tail & stale & rest' & E2);
    [discriminate| |cbn; lia|].
  { cbn. apply wordchar_parts in Hc. destruct Hc as (_ & _ & -> & _). reflexivity. }
  cbn [app] in E2 |- *. rewrite E2.
  rewrite (parse_regex_malformed cfg [] c tail _ eq_refl Hc Hbang Hdollar).
  cbn. rewrite L1. reflexivity.
Qed.

Lemma overlong_line_is_read_in_pieces_witness :
  parse (mkConfig 8 64 16 10 16 NO_OP NOTHING) (chars "$A := hello") = Fatal 2 0 MalformedLine.
Proof.
  exact (overlong_line_is_read_in_pieces (mkConfig 8 64 16 10 16 NO_OP NOTHING)
           (chars "A") (chars "hel") [] "l"%char (chars "o")
           eq_refl eq_refl eq_refl eq_refl ltac:(unfold roomy; cbn; lia)
           eq_refl ltac:(discriminate) ltac:(discriminate)).
Defined.

(** *** An escape character with nothing behind it *)

Lemma parse_operand_trailing_escape cfg buf regex res s bl t rest :
  skipn regex buf = bl ++ (t ++ ["@"%char]) ++ rest ->
  forallb blank bl = true -> literal t = true -> wordchar (hd NUL rest) = false ->
  currentTermStart s + length t + 1 <= MAX_TOTAL_TERM_LEN cfg ->
  parse_operand cfg buf regex res s
  = Fatal (currentLine s) (currentColumn s + length bl + (length t + 1)) IncompleteEscape.
Proof.
  intros H Hbl Hlit Hrest Hfit.
  destruct (literal_parts _ Hlit) as (a & t' & Et & Ha1 & Ha2 & Hplain).
  set (tok := t ++ ["@"%char]) in *.
  assert (Hlen : length tok = length t + 1) by (subst tok; rewrite length_app; reflexivity).
  assert (Hword : forallb wordchar tok = true)
    by (subst tok; rewrite forallb_app, (forallb_plain_wordchar _ Hplain); reflexivity).
  pose proof (skipn_past _ _ _ _ H) as H1.
  assert (Hac : plain a = true)
    by (rewrite Et in Hplain; cbn in Hplain; now apply andb_prop in Hplain).
  destruct (plain_parts _ Hac) as (Haw & _ & Has).
  destruct (wordchar_parts _ Haw) as (Ha0 & _ & Han & Hab).
  assert (Htok : hd NUL (tok ++ rest) = a) by (subst tok; rewrite Et; reflexivity).
  unfold parse_operand.
  rewrite (move_while_over blank buf s regex bl _ H Hbl)
    by (destruct (tok ++ rest); cbn in *; [reflexivity|subst; now rewrite Hab]).
  rewrite (peek_hd buf (regex + length bl)), H1, Htok.
  rewrite Ha0, Han, Ha2, Has. cbn [orb].
  rewrite (move_while_over wordchar buf _ (regex + length bl) tok _ H1 Hword)
    by (destruct rest; cbn in *; [reflexivity|now rewrite Hrest]).
  rewrite Hlen. set (n := length t + 1) in *. set (p := regex + length bl) in *.
  assert (Hnosplit : (peek buf (p + n - 1) =? "*")%char = false).
  { replace (p + n - 1) with (p + length t) by (subst n; lia).
    rewrite (peek_skipn buf p (length t)), H1. subst tok.
    rewrite <- app_assoc, app_nth2, Nat.sub_diag by lia. reflexivity. }
  rewrite Hnosplit. cbn [andb].
  replace (p + n - p) with n by lia.
  rewrite Ha1. unfold assert.
  replace (currentTermStart _ + n <=? MAX_TOTAL_TERM_LEN cfg) with true
    by (symmetry; apply Nat.leb_le; cbn; subst n; lia).
  cbn [bind]. unfold memcpy2. subst n.
  assert (H1' : skipn p buf = t ++ "@"%char :: rest)
    by (rewrite H1; subst tok; now rewrite <- app_assoc).
  rewrite (memcpy2_loop_prefix cfg buf _ _ 1 t _ p _ _ _ H1'
             (forallb_plain_unescaped _ Hplain)) by (cbn; lia).
  pose proof (skipn_past _ _ _ _ H1') as H2.
  cbn [memcpy2_loop]. unfold load.
  rewrite (proj2 (Nat.ltb_lt _ _) (skipn_lt _ _ _ _ H2)). cbn [bind].
  rewrite (peek_hd buf (p + length t)), H2. cbn [hd Ascii.eqb Bool.eqb Nat.leb].
  reflexivity.
Qed.

(** X20: a terminal that ends in the escape character stops the run with "An
    incomplete escape sequence at the end of a string", reported at the
    column behind the token. *)
Theorem escape_needs_a_character cfg nm t eol :
  valid_name nm = true -> literal t = true -> line_end eol ->
  roomy 1 (length t + 1) 1 (length (line_text nm (t ++ ["@"%char]) ++ eol)) (S (length nm)) cfg ->
  parse cfg (line_text nm (t ++ ["@"%char]) ++ eol)
  = Fatal 1 (length nm + 5 + (length t + 1)) IncompleteEscape.
Proof.
  intros Hnm Ht Heol (Hn & Hp & He & Hl & Hm).
  destruct (literal_hd t Ht) as (Htw & _ & _).
  pose proof (literal_nonempty t Ht) as Htne.
  pose proof (hd_line_end eol Heol) as Htail.
  assert (Htw' : wordchar (hd NUL (eol ++ [NUL])) = false)
    by (destruct Htail as [->| ->]; reflexivity).
  destruct (parse_definition cfg nm (t ++ ["@"%char]) eol) as [H1 ->]; auto; try lia.
  { now rewrite hd_app_nonempty. }
  { rewrite no_newline_app, (no_newline_literal t Ht). reflexivity. }
  set (buf := line_text nm _ ++ eol ++ [NUL]) in *.
  assert (H1' : skipn (length nm + 5) buf = [] ++ (t ++ ["@"%char]) ++ eol ++ [NUL])
    by exact H1.
  cbn [parse_body_loop].
  rewrite (parse_operand_trailing_escape cfg buf _ _ _ [] t _ H1' eq_refl Ht Htw')
    by (cbn; lia).
  cbn. f_equal. lia.
Qed.

Lemma escape_needs_a_character_witness :
  parse sample (chars "$A := ab@") = Fatal 1 9 IncompleteEscape.
Proof.
  exact (escape_needs_a_character sample (chars "A") (chars "ab") []
           eq_refl eq_refl (or_introl eq_refl) ltac:(unfold roomy; cbn; lia)).
Defined.

(** *** A header that stops early *)

Lemma parse_regex_dollar_alone cfg d tail s :
  wordchar d = false ->
  parse_regex cfg ("$"%char :: d :: tail) s
  = Fatal (currentLine s) (currentColumn s + 1) EmptyName.
Proof.
  intro Hd. set (buf := "$"%char :: d :: tail).
  unfold parse_regex, move_while at 1; cbn [skipn].
  change (run_length isspace buf) with 0; cbn [Nat.add].
  change (peek buf 0) with "$"%char; cbn [Ascii.eqb Bool.eqb].
  unfold parse_header, moveRegexPtr; change (peek buf 0) with "$"%char;
    cbn [Ascii.eqb Bool.eqb negb].
  rewrite (move_while_over wordchar buf _ 1 [] (d :: tail) eq_refl eq_refl)
    by (cbn; now rewrite Hd).
  cbn. do 2 f_equal. lia.
Qed.

Lemma parse_regex_name_alone cfg nm d tail s :
  valid_name nm = true -> d = NUL \/ d = NEWLINE ->
  parse_regex cfg (("$"%char :: nm) ++ d :: tail) s
  = Fatal (currentLine s) (currentColumn s + S (length nm)) MissingDefinition.
Proof.
  intros Hnm Hd.
  assert (Hw : forallb wordchar nm = true) by (destruct nm; [discriminate|exact Hnm]).
  assert (Hdw : wordchar d = false) by (destruct Hd as [->| ->]; reflexivity).
  set (buf := ("$"%char :: nm) ++ d :: tail).
  assert (H1 : skipn 1 buf = nm ++ d :: tail) by reflexivity.
  pose proof (skipn_past buf 1 nm (d :: tail) H1) as H2.
  unfold parse_regex, move_while at 1; cbn [skipn].
  change (run_length isspace buf) with 0; cbn [Nat.add].
  change (peek buf 0) with "$"%char; cbn [Ascii.eqb Bool.eqb].
  unfold parse_header, moveRegexPtr; change (peek buf 0) with "$"%char;
    cbn [Ascii.eqb Bool.eqb negb].
  rewrite (move_while_over wordchar buf _ 1 nm (d :: tail) H1 Hw)
    by (cbn; now rewrite Hdw).
  replace (1 + length nm =? 0 + 1) with false
    by (symmetry; apply Nat.eqb_neq; destruct nm; [discriminate|cbn; lia]).
  rewrite (peek_hd buf (1 + length nm)), H2; cbn [hd].
  replace ((d =? NUL)%char || (d =? NEWLINE)%char) with true
    by (destruct Hd as [->| ->]; reflexivity).
  cbn. do 2 f_equal. lia.
Qed.

(** X21: a line that is [$] and nothing of a name stops the run with "Empty
    non-terminal name"; a line that ends behind the name stops it with
    "Missing definition of a non-termianl".  Both are reported at the
    column behind what was read. *)
Theorem header_that_stops_early cfg nm eol :
  valid_name nm = true -> line_end eol ->
  length ("$"%char :: nm ++ eol) < MAX_REGEX_LEN cfg ->
  parse cfg ("$"%char :: eol) = Fatal 1 1 EmptyName
  /\ parse cfg ("$"%char :: nm ++ eol) = Fatal 1 (S (length nm)) MissingDefinition.
Proof.
  intros Hnm Heol Hlen.
  assert (Hw : forallb wordchar nm = true) by (destruct nm; [discriminate|exact Hnm]).
  destruct (line_end_cases eol Heol) as (d & rest & Etail & Hd).
  assert (Hdw : wordchar d = false) by (destruct Hd as [->| ->]; reflexivity).
  split; unfold parse.
  - change ("$"%char :: eol) with (["$"%char] ++ eol).
    rewrite (parse_regex_spec_single cfg ["$"%char] eol); auto; try discriminate.
    + cbn [app]. rewrite Etail. now rewrite parse_regex_dollar_alone.
    + cbn in *. rewrite length_app in Hlen. lia.
  - change ("$"%char :: nm ++ eol) with (("$"%char :: nm) ++ eol) in *.
    rewrite (parse_regex_spec_single cfg ("$"%char :: nm) eol); auto; try discriminate.
    + rewrite Etail. now rewrite parse_regex_name_alone.
    + change ("$"%char :: nm) with (["$"%char] ++ nm).
      now rewrite no_newline_app, (no_newline_wordchars nm Hw).
Qed.

Lemma header_that_stops_early_witness :
  parse sample (chars "$") = Fatal 1 1 EmptyName
  /\ parse sample (chars "$Name") = Fatal 1 5 MissingDefinition.
Proof.
  exact (header_that_stops_early sample (chars "Name") [] eq_refl (or_introl eq_refl)
           ltac:(cbn; lia)).
Defined.

(** ** A star behind an operand that is not the first *)

(** X22: [$nm := x y* z]: the starred node is wrapped in a new node, the node
    of [x] is redirected to the wrapper, and the wrapper is joined to [z]:
    the shape the comment in parse_body describes for a star behind the
    second operand. *)
Theorem star_in_the_middle cfg nm x y z eol :
  valid_name nm = true -> literal x = true -> literal y = true -> literal z = true ->
  line_end eol ->
  roomy 1 (length x + 1 + (length y + 1) + (length z + 1)) 5
        (length (line_text nm (x ++ chars " " ++ y ++ chars "* " ++ z) ++ eol))
        (S (length nm)) cfg ->
  parse cfg (line_text nm (x ++ chars " " ++ y ++ chars "* " ++ z) ++ eol) =
  Ok {| nontermTable :=
          [ {| name := "$"%char :: nm; idx := 0; expr := 0; complete := true |} ];
        exprTable :=
          [ Node AND (TERMINAL, 0%Z) (NESTED_EXPRESSION, 2%Z);
            Node ZERO_OR_MORE (TERMINAL, Z.of_nat (length x + 1)) (NOTHING, (-1)%Z);
            Node AND (NESTED_EXPRESSION, 1%Z) (NESTED_EXPRESSION, 3%Z);
            Node NO_OP (TERMINAL, Z.of_nat (length x + 1 + (length y + 1)))
                       (NOTHING, (-1)%Z) ];
        termTable := x ++ NUL :: y ++ NUL :: z ++ [NUL] |}.
Proof.
  intros Hnm Hx Hy Hz Heol (Hn & Hp & He & Hl & Hm).
  destruct (literal_hd x Hx) as (Hxw & _ & _).
  destruct (literal_hd y Hy) as (Hyw & Hyb & Hys).
  destruct (literal_hd z Hz) as (Hzw & Hzb & Hzs).
  pose proof (literal_nonempty x Hx) as Hxne.
  pose proof (literal_nonempty y Hy) as Hyne.
  pose proof (literal_nonempty z Hz) as Hzne.
  pose proof (hd_line_end eol Heol) as Htail.
  assert (Htw' : wordchar (hd NUL (eol ++ [NUL])) = false)
    by (destruct Htail as [->| ->]; reflexivity).
  destruct (parse_definition cfg nm (x ++ chars " " ++ y ++ chars "* " ++ z) eol)
    as [H1 ->]; auto; try lia.
  { now rewrite hd_app_nonempty. }
  { rewrite !no_newline_app, (no_newline_literal x Hx), (no_newline_literal y Hy),
      (no_newline_literal z Hz). reflexivity. }
  set (buf := line_text nm _ ++ eol ++ [NUL]) in *.
  set (p := length nm + 5) in *. set (sb := body_start cfg nm).
  set (tail := eol ++ [NUL]) in *.
  assert (Ha : skipn p buf = [] ++ x ++ (" "%char :: y ++ "*"%char :: " "%char :: z ++ tail)).
  { rewrite H1. repeat (rewrite <- app_assoc; cbn [app]). reflexivity. }
  pose proof (skipn_past _ _ _ _ (skipn_past _ _ _ _ Ha)) as Hb. cbn [length] in Hb.
  assert (Hb' : skipn (p + 0 + length x) buf
                = [" "%char] ++ y ++ "*"%char :: " "%char :: z ++ tail) by exact Hb.
  pose proof (skipn_past _ _ _ _ Hb') as Hc. cbn [length] in Hc.
  assert (Hlen : exists k, length buf = S (S (S k))).
  { exists (length buf - 3). subst buf. unfold line_text. cbn [length app].
    rewrite !length_app. cbn. lia. }
  destruct Hlen as [k Hlen]. rewrite Hlen.
  rewrite (loop_step_literal cfg buf _ p (-1)%Z 0 0 0 sb [] x _ AND
             (p + 0 + length x + 1)
             (currentColumn (after_literal 0 x sb) + 1) Ha eq_refl Hx eq_refl);
    try discriminate; try (cbn; lia).
  2:{ apply (parse_operator_and buf _ _ [" "%char] _ Hb' eq_refl);
        now rewrite hd_app_nonempty. }
  set (s1 := after_link _ _ _ _ _ _).
  assert (Hc' : skipn (p + 0 + length x + 1) buf
                = [] ++ y ++ "*"%char :: " "%char :: z ++ tail) by exact Hc.
  pose proof (parse_operand_starred cfg buf _ (Z.of_nat (currentTermStart sb)) s1 [] y _
                Hc' eq_refl Hy eq_refl ltac:(cbn; lia)) as Hoperand.
  cbn [length] in Hoperand.
  pose proof (skipn_past _ _ _ _ (skipn_past _ _ _ _ Hc')) as Hd. cbn [length] in Hd.
  assert (Hd' : skipn (p + 0 + length x + 1 + 0 + length y) buf
                = [] ++ "*"%char :: " "%char :: z ++ tail) by exact Hd.
  assert (He' : skipn (S (p + 0 + length x + 1 + 0 + length y + 0)) buf
                = [" "%char] ++ z ++ tail).
  { rewrite Nat.add_0_r. change (S ?q) with (1 + q). rewrite <- skipn_skipn, Hd.
    reflexivity. }
  rewrite (loop_step_star cfg buf _ _ _ _ _ _ s1
             TERMINAL _ _ _ Hoperand ltac:(discriminate)
             (S (p + 0 + length x + 1 + 0 + length y + 0)) (fun c => S (c + 0))
             AND (S (p + 0 + length x + 1 + 0 + length y + 0) + 1) (fun c => c + 1));
    try (cbn; lia).
  2:{ intro st. apply (parse_operator_star buf _ st [] _ Hd' eq_refl). reflexivity. }
  2:{ intro st. apply (parse_operator_and buf _ st [" "%char] _ He' eq_refl);
        now rewrite hd_app_nonempty. }
  set (s2 := after_star _ _ _ _ _ _ _ _).
  assert (Hf : skipn (S (p + 0 + length x + 1 + 0 + length y + 0) + 1) buf = [] ++ z ++ tail)
    by (apply (skipn_past _ _ _ _ He')).
  pose proof (parse_operand_literal cfg buf _ (Z.of_nat (currentTermStart s1)) s2 [] z tail
                Hf eq_refl Hz Htw' ltac:(cbn; lia)) as Hoperand2.
  cbn [length] in Hoperand2.
  assert (Hg : skipn (S (p + 0 + length x + 1 + 0 + length y + 0) + 1 + 0 + length z) buf
               = [] ++ tail)
    by (apply (skipn_past _ _ _ _ (skipn_past _ _ _ _ Hf))).
  rewrite (loop_step_plain cfg buf _ _ _ _ _ _ s2
             TERMINAL _ _ _ Hoperand2 ltac:(discriminate) NO_OP
             (S (p + 0 + length x + 1 + 0 + length y + 0) + 1 + 0 + length z + 0)
             (currentColumn (after_literal 0 z s2) + 0));
    try discriminate; try (cbn; lia).
  2:{ apply (parse_operator_end buf _ _ [] _ Hg eq_refl Htail). }
  rewrite (Nat.add_0_r (S (p + 0 + length x + 1 + 0 + length y + 0) + 1 + 0 + length z)).
  rewrite (loop_exit cfg buf _ _ _ _ _ _ _ _ Hg Htail).
  unfold finish_definition, fmap. cbn [bind].
  match goal with |- context [OperatorType_eqb ?ty NO_OP] =>
    replace ty with NO_OP by reflexivity end.
  cbn [OperatorType_eqb orb bind assert]. unfold store_expr, store_nonterm.
  match goal with |- context [?a <? MAX_NESTED_EXPRS cfg] =>
    replace (a <? MAX_NESTED_EXPRS cfg) with true by cap end.
  cbn [bind].
  replace (0 <? MAX_NONTERMS cfg) with true by cap.
  cbn [bind]. f_equal. unfold tables. f_equal.
  change (x ++ NUL :: y ++ NUL :: z ++ [NUL])
    with (x ++ [NUL] ++ y ++ [NUL] ++ z ++ [NUL]).
  rewrite (app_assoc x), (app_assoc y), app_assoc.
  change (map _ (seq 0 _))
    with (map (termPool (after_literal 0 z s2))
              (seq 0 ((length x + 1) + (length y + 1) + (length z + 1)))).
  rewrite seq_app, map_app. f_equal.
  - rewrite seq_app, map_app. f_equal.
    + erewrite map_seq_ext; [exact (termPool_after_literal 0 x sb)|].
      intros j Hj. rewrite termPool_after_literal_below by (cbn; lia).
      cbn [s2 after_star termPool with_freeExprIdx with_exprPool with_currentColumn].
      rewrite termPool_after_literal_below by (cbn; lia). reflexivity.
    + erewrite map_seq_ext; [exact (termPool_after_literal 0 y s1)|].
      intros j Hj. rewrite termPool_after_literal_below by (cbn; lia). reflexivity.
  - exact (termPool_after_literal 0 z s2).
Qed.

Lemma star_in_the_middle_witness :
  parse sample (chars "$A := a b* c")
  = Ok {| nontermTable :=
            [ {| name := chars "$A"; idx := 0; expr := 0; complete := true |} ];
          exprTable :=
            [ Node AND (TERMINAL, 0%Z) (NESTED_EXPRESSION, 2%Z);
              Node ZERO_OR_MORE (TERMINAL, 2%Z) (NOTHING, (-1)%Z);
              Node AND (NESTED_EXPRESSION, 1%Z) (NESTED_EXPRESSION, 3%Z);
              Node NO_OP (TERMINAL, 4%Z) (NOTHING, (-1)%Z) ];
          termTable := [ "a"; NUL; "b"; NUL; "c"; NUL ]%char |}.
Proof.
  exact (star_in_the_middle sample (chars "A") (chars "a") (chars "b") (chars "c") []
           eq_refl eq_refl eq_refl eq_refl (or_introl eq_refl)
           ltac:(unfold roomy; cbn; lia)).
Defined.

(** ** log_expr *)

Lemma nth_error_exprTable s k :
  k < freeExprIdx s -> nth_error (exprTable (tables s)) k = Some (exprPool s k).
Proof.
  intro H. cbn. rewrite nth_error_map, nth_error_seq.
  replace (k <? freeExprIdx s) with true by (symmetry; now apply Nat.ltb_lt).
  reflexivity.
Qed.

Lemma parse_state cfg input t :
  parse cfg input = Ok t -> exists s, parse_regex_spec cfg input = Ok s /\ tables s = t.
Proof.
  unfold parse, fmap. destruct (parse_regex_spec cfg input); cbn; try discriminate.
  intro H. injection H as <-. eauto.
Qed.

(** log_expr on two nodes that point at each other. *)
Lemma log_expr_circle cfg s a b :
  (0 <= a < Z.of_nat (MAX_NESTED_EXPRS cfg))%Z ->
  (0 <= b < Z.of_nat (MAX_NESTED_EXPRS cfg))%Z ->
  op1Type (exprPool s (Z.to_nat a)) = TERMINAL ->
  op2Type (exprPool s (Z.to_nat a)) = NESTED_EXPRESSION ->
  op2 (exprPool s (Z.to_nat a)) = b ->
  op1Type (exprPool s (Z.to_nat b)) = NESTED_EXPRESSION ->
  op1 (exprPool s (Z.to_nat b)) = a ->
  forall fuel, log_expr fuel cfg s a = LogOutOfFuel /\ log_expr fuel cfg s b = LogOutOfFuel.
Proof.
  intros Ha Hb A1 A2 A3 B1 B2.
  assert (Ea : ((a =? -1) = false /\ (0 <=? a) && (a <? Z.of_nat (MAX_NESTED_EXPRS cfg)) = true)%Z)
    by (split; [apply Z.eqb_neq; lia|apply andb_true_intro; split;
                                      [apply Z.leb_le|apply Z.ltb_lt]; lia]).
  assert (Eb : ((b =? -1) = false /\ (0 <=? b) && (b <? Z.of_nat (MAX_NESTED_EXPRS cfg)) = true)%Z)
    by (split; [apply Z.eqb_neq; lia|apply andb_true_intro; split;
                                      [apply Z.leb_le|apply Z.ltb_lt]; lia]).
  destruct Ea as [Ea1 Ea2], Eb as [Eb1 Eb2].
  induction fuel as [|fuel [IHa IHb]]; [split; reflexivity|].
  split; cbn [log_expr].
  - rewrite Ea1, Ea2, A1, A2, A3. cbn [log_operand log_then]. now rewrite IHb.
  - rewrite Eb1, Eb2, B1, B2. cbn [log_operand log_then]. now rewrite IHa.
Qed.

(** X23: on the tables of [$nm := x* y] log_expr does not come to an end: the
    starred root has the wrapping node as its right operand, the wrapping
    node has the root as its left operand, and log_expr follows both. *)
Theorem log_expr_runs_in_a_circle cfg nm x y eol :
  valid_name nm = true -> literal x = true -> literal y = true -> line_end eol ->
  roomy 1 (length x + 1 + (length y + 1)) 4
        (length (line_text nm (x ++ chars "* " ++ y) ++ eol)) (S (length nm)) cfg ->
  exists s,
    parse_regex_spec cfg (line_text nm (x ++ chars "* " ++ y) ++ eol) = Ok s
    /\ complete (nonterms s 0) = true
    /\ forall fuel, log_expr fuel cfg s (expr (nonterms s 0)) = LogOutOfFuel.
Proof.
  intros Hnm Hx Hy Heol Hroomy.
  pose proof (parse_starred_then_literal cfg nm x y eol Hnm Hx Hy Heol Hroomy) as P.
  destruct Hroomy as (_ & _ & He & _ & _).
  apply parse_state in P. destruct P as (s & E & T). exists s. split; [exact E|].
  destruct (length_tables s) as (L1 & L2 & _). rewrite T in L1, L2. cbn in L1, L2.
  pose proof (nth_error_tables s 0 ltac:(lia)) as N0. rewrite T in N0. cbn in N0.
  pose proof (nth_error_exprTable s 0 ltac:(lia)) as X0. rewrite T in X0. cbn in X0.
  pose proof (nth_error_exprTable s 1 ltac:(lia)) as X1. rewrite T in X1. cbn in X1.
  injection N0 as N0. injection X0 as X0. injection X1 as X1.
  rewrite <- N0. cbn [complete expr]. split; [reflexivity|].
  intro fuel.
  apply (log_expr_circle cfg s 0%Z 1%Z); try lia;
    try (change (Z.to_nat 0) with 0; rewrite <- X0; reflexivity);
    try (change (Z.to_nat 1) with 1; rewrite <- X1; reflexivity).
Qed.

Lemma log_expr_runs_in_a_circle_witness :
  exists s,
    parse_regex_spec sample (chars "$A := x* y") = Ok s
    /\ complete (nonterms s 0) = true
    /\ forall fuel, log_expr fuel sample s (expr (nonterms s 0)) = LogOutOfFuel.
Proof.
  exact (log_expr_runs_in_a_circle sample (chars "A") (chars "x") (chars "y") []
           eq_refl eq_refl eq_refl (or_introl eq_refl) ltac:(unfold roomy; cbn; lia)).
Defined.

(** *** log_expr stays inside the expression pool *)

Lemma log_expr_inside cfg s :
  well_formed s -> freeExprIdx s <= MAX_NESTED_EXPRS cfg ->
  forall fuel v k,
    (v = -1 \/ 0 <= v < Z.of_nat (freeExprIdx s))%Z ->
    log_expr fuel cfg s v <> LogReadsOutside k.
Proof.
  intros (Wn & _ & _) Hcap.
  induction fuel as [|fuel IH]; intros v k Hv; cbn [log_expr]; [discriminate|].
  destruct (v =? -1)%Z eqn:E; [discriminate|]. apply Z.eqb_neq in E.
  destruct Hv as [Hv|Hv]; [congruence|].
  replace ((0 <=? v) && (v <? Z.of_nat (MAX_NESTED_EXPRS cfg)))%Z with true
    by (symmetry; apply andb_true_intro; split; [apply Z.leb_le|apply Z.ltb_lt]; lia).
  destruct (Wn (Z.to_nat v) ltac:(lia)) as (N1 & N2 & N3 & N4).
  set (e := exprPool s (Z.to_nat v)) in *.
  assert (H1 : log_operand (log_expr fuel cfg s) (op1Type e) (op1 e) <> LogReadsOutside k).
  { destruct (op1Type e); cbn in *; try discriminate. apply IH. right. lia. }
  assert (H2 : log_operand (log_expr fuel cfg s) (op2Type e) (op2 e) <> LogReadsOutside k).
  { destruct (op2Type e); cbn in *; try discriminate. apply IH. right. lia. }
  destruct (log_operand _ (op1Type e) (op1 e)); cbn [log_then]; try congruence.
  destruct (log_operand _ (op2Type e) (op2 e)); cbn [log_then]; try congruence.
Qed.

(** X24: on the tables of any run that went through, log_expr started at the
    root of a complete non-terminal reads no node outside exprPool,
    however far it gets. *)
Theorem log_expr_stays_in_the_pool cfg input s i fuel k :
  parse_regex_spec cfg input = Ok s -> complete (nonterms s i) = true ->
  log_expr fuel cfg s (expr (nonterms s i)) <> LogReadsOutside k.
Proof.
  intros E Hc. unfold parse_regex_spec in E.
  pose proof (read_lines_shape cfg (length input) input [] (initial cfg)
                (well_formed_initial cfg)) as W.
  pose proof (read_lines_stores_inside cfg (length input) input [] (initial cfg)
                (within_initial cfg)) as I.
  rewrite E in W, I. cbn in W, I.
  apply log_expr_inside; auto.
  - destruct I as [_ [->|]]; lia.
  - right. now apply (proj1 (proj2 W)).
Qed.

Lemma log_expr_stays_in_the_pool_witness :
  exists s,
    parse_regex_spec sample (chars "$A := x | y") = Ok s
    /\ complete (nonterms s 0) = true
    /\ log_expr 3 sample s (expr (nonterms s 0)) <> LogReadsOutside 2.
Proof.
  assert (hp : parse sample (chars "$A := x | y") =
    Ok {| nontermTable :=
            [ {| name := chars "$A"; idx := 0; expr := 0; complete := true |} ];
          exprTable :=
            [ Node OR (TERMINAL, 0%Z) (NESTED_EXPRESSION, 1%Z);
              Node NO_OP (TERMINAL, 2%Z) (NOTHING, (-1)%Z) ];
          termTable := chars "x" ++ NUL :: chars "y" ++ [NUL] |})
    by (vm_compute; reflexivity).
  destruct (parse_state _ _ _ hp) as (s & h & hT).
  assert (hc : complete (nonterms s 0) = true).
  { assert (hl : 0 < currentNonterm s)
      by (rewrite <- (proj1 (length_tables s)), hT; cbn; lia).
    pose proof (nth_error_tables s 0 hl) as hn. rewrite hT in hn.
    injection hn as hn. now rewrite <- hn. }
  exact (ex_intro _ s (conj h (conj hc
           (log_expr_stays_in_the_pool sample _ s 0 3 2%Z h hc)))).
Defined.
